(** * nenupy.observation.parset — a shallow embedding and its properties

    The development follows [src/nenupy/observation/parset.py]:

    - [PyStr]: the Python string methods the module relies on;
    - the typed property store [_ParsetProperty] and its coercion;
    - [_parse_parameters], the range compressor [_get_frequency_dict]
      and the receiver handlers of [BEAM_SETTINGS];
    - the pointing-centre resolver [_get_pointing_center_dict];
    - the document builder [_JsonEntry] and [Parset.to_json];
    - the line decoder [Parset._decodeParset];
    - the writer hierarchy [ParsetUser], over an explicit object heap.

    Conventions.  Python exceptions are the constructors of [exn]; a
    function that may raise returns [res A].  Python floats are idealised
    as rationals ([Q]): the values nan and inf, which [float] also returns
    (for the texts nan and inf), are outside the model.  Strings are
    ASCII: the string methods are modelled as they act on ASCII text.
    Durations are whole numbers of seconds and start times are [Time]
    objects, as the decoder stores them; what astropy makes of another
    stored value is outside the model.  The astronomy collaborators
    (astropy, [sb2freq], [SolarSystemTarget]) are the fields of the class
    [Astro]. *)

From Stdlib Require Import ZArith QArith Lia Lqa List Ascii String Bool.
From stdpp Require Import base option list strings gmap pretty.

Local Open Scope Z_scope.
Local Open Scope string_scope.
Local Open Scope list_scope.
Set Warnings "-register-all".

(** ** Exceptions and the result monad *)

Inductive exn : Type :=
| KeyError (key : string)
| ValueError
| IndexError
| AttributeError
| TypeError
| UnboundLocalError.

Inductive res (A : Type) : Type :=
| Ok (a : A)
| Raise (e : exn).
Arguments Ok {A} a.
Arguments Raise {A} e.

Definition bind {A B : Type} (m : res A) (k : A -> res B) : res B :=
  match m with
  | Ok a => k a
  | Raise e => Raise e
  end.

Notation "'let*' x ':=' m 'in' k" := (bind m (fun x => k))
  (at level 10, x pattern, m at level 100, k at level 200).

Definition is_ok {A : Type} (m : res A) : bool :=
  match m with Ok _ => true | Raise _ => false end.

(** ** Python strings *)

Module PyStr.

Definition lower_ascii (c : ascii) : ascii :=
  let n := nat_of_ascii c in
  if ((65 <=? n)%nat && (n <=? 90)%nat)%bool then ascii_of_nat (n + 32) else c.

(** [s.lower()] *)
Fixpoint lower (s : string) : string :=
  match s with
  | EmptyString => EmptyString
  | String c s' => String (lower_ascii c) (lower s')
  end.

(** The ten decimal digits.  On ASCII text these are the characters
    that [str.isdigit], [int] and the pattern class of the digits
    accept; outside ASCII Python knows further digits, and some of them
    (a superscript two, say) pass [str.isdigit] although [int] refuses
    them. *)
Definition is_digit (c : ascii) : bool :=
  let n := nat_of_ascii c in ((48 <=? n)%nat && (n <=? 57)%nat)%bool.


(** Python's whitespace, restricted to ASCII: space, \t \n \v \f \r and
    the separators 28..31. *)
Definition is_space (c : ascii) : bool :=
  let n := nat_of_ascii c in
  ((n =? 32)%nat || ((9 <=? n)%nat && (n <=? 13)%nat)
   || ((28 <=? n)%nat && (n <=? 31)%nat))%bool.

Fixpoint all_digits (s : string) : bool :=
  match s with
  | EmptyString => true
  | String c s' => is_digit c && all_digits s'
  end.

(** [s.isdigit()] on ASCII text: false on the empty string. *)
Definition isdigit (s : string) : bool :=
  match s with
  | EmptyString => false
  | _ => all_digits s
  end.

(** [s.startswith(p)] *)
Fixpoint startswith (p s : string) : bool :=
  match p, s with
  | EmptyString, _ => true
  | String a p', String b s' => if Ascii.eqb a b then startswith p' s' else false
  | String _ _, EmptyString => false
  end.

(** [p in s] *)
Fixpoint contains (p s : string) : bool :=
  startswith p s ||
  match s with
  | EmptyString => false
  | String _ s' => contains p s'
  end.

Definition endswith (p s : string) : bool :=
  startswith (String.rev p) (String.rev s).

(** [s.replace(c, '')] for a one-character [c]. *)
Fixpoint remove_char (c : ascii) (s : string) : string :=
  match s with
  | EmptyString => EmptyString
  | String a s' => if Ascii.eqb a c then remove_char c s' else String a (remove_char c s')
  end.

Fixpoint lstrip (s : string) : string :=
  match s with
  | EmptyString => EmptyString
  | String c s' => if is_space c then lstrip s' else s
  end.

(** [s.rstrip()] *)
Definition rstrip (s : string) : string := String.rev (lstrip (String.rev s)).

(** [s.strip()] *)
Definition strip (s : string) : string := lstrip (rstrip s).

(** [s.split(sep)] for a non-empty [sep]; [limit] is the number of
    splits still allowed ([None]: unbounded).  [skip] counts the
    characters of a separator that has just been recognised, [cur] is
    the current piece, reversed. *)
Fixpoint split_go (sep : string) (limit : option nat) (skip : nat)
         (cur : string) (s : string) : list string :=
  match s with
  | EmptyString => [String.rev cur]
  | String c s' =>
      match skip with
      | S k => split_go sep limit k cur s'
      | O =>
          let may_split := match limit with Some O => false | _ => true end in
          if may_split && startswith sep s then
            String.rev cur ::
              split_go sep (option_map Nat.pred limit) (String.length sep - 1) EmptyString s'
          else split_go sep limit O (String c cur) s'
      end
  end.

Definition split (sep : string) (s : string) : list string :=
  split_go sep None O EmptyString s.

(** [s.split(sep, 1)] *)
Definition split1 (sep : string) (s : string) : list string :=
  split_go sep (Some 1%nat) O EmptyString s.

(** [s.split()]: runs of whitespace separate, no empty pieces. *)
Fixpoint split_ws_go (cur : string) (s : string) : list string :=
  match s with
  | EmptyString =>
      match cur with EmptyString => [] | _ => [String.rev cur] end
  | String c s' =>
      if is_space c then
        match cur with
        | EmptyString => split_ws_go EmptyString s'
        | _ => String.rev cur :: split_ws_go EmptyString s'
        end
      else split_ws_go (String c cur) s'
  end.

Definition split_ws (s : string) : list string := split_ws_go EmptyString s.

Fixpoint digits_value (acc : Z) (s : string) : Z :=
  match s with
  | EmptyString => acc
  | String c s' => digits_value (10 * acc + (Z.of_nat (nat_of_ascii c) - 48)) s'
  end.

(** [int(s)]: surrounding whitespace and one sign are accepted (digit
    separators are not modelled). *)
Definition int (s : string) : res Z :=
  match strip s with
  | String "-" d => if isdigit d then Ok (- digits_value 0 d) else Raise ValueError
  | String "+" d => if isdigit d then Ok (digits_value 0 d) else Raise ValueError
  | d => if isdigit d then Ok (digits_value 0 d) else Raise ValueError
  end.

(** The search for a bracketed index in a section header, group 1 of
    the pattern (open bracket, digits, close bracket): the digits of the
    leftmost bracket pair that holds digits only; [None] when nothing
    matches. *)
Fixpoint take_digits (s : string) : string * string :=
  match s with
  | String c s' =>
      if is_digit c then let '(d, r) := take_digits s' in (String c d, r)
      else (EmptyString, s)
  | EmptyString => (EmptyString, EmptyString)
  end.

Fixpoint search_index (s : string) : option string :=
  match s with
  | EmptyString => None
  | String c s' =>
      if Ascii.eqb c "[" then
        match take_digits s' with
        | (d, String "]" _) => Some d
        | _ => search_index s'
        end
      else search_index s'
  end.

End PyStr.


(** ** Dictionaries

    A Python [dict] keeps its keys unique and in insertion order:
    assigning to an existing key keeps its position. *)

Section Dict.
Context {V : Type}.

Fixpoint dget (k : string) (d : list (string * V)) : option V :=
  match d with
  | [] => None
  | (k', v) :: d' => if String.eqb k k' then Some v else dget k d'
  end.

Fixpoint dset (k : string) (v : V) (d : list (string * V)) : list (string * V) :=
  match d with
  | [] => [(k, v)]
  | (k', v') :: d' =>
      if String.eqb k k' then (k, v) :: d' else (k', v') :: dset k v d'
  end.

(** [k in d] *)
Definition dmem (k : string) (d : list (string * V)) : bool :=
  match dget k d with Some _ => true | None => false end.

(** [d[k]] *)
Definition getitem (k : string) (d : list (string * V)) : res V :=
  match dget k d with
  | Some v => Ok v
  | None => Raise (KeyError k)
  end.

(** [d.get(k, default)] *)
Definition get_default (k : string) (default : V) (d : list (string * V)) : V :=
  match dget k d with Some v => v | None => default end.
End Dict.

(** ** Values of the property store *)

(** Elements of a bracketed list. *)
Inductive item : Type :=
| IInt (z : Z)
| ITime (t : Q)
| IStr (s : string).

(** A coerced value.  A [Time] is a number of seconds on astropy's scale,
    an angle a number of degrees. *)
Inductive value : Type :=
| VList (l : list item)
| VBool (b : bool)
| VAngle (deg : Q)
| VInt (z : Z)
| VTime (t : Q)
| VStr (s : string).

Definition value_of_item (i : item) : value :=
  match i with
  | IInt z => VInt z
  | ITime t => VTime t
  | IStr s => VStr s
  end.

(** ** External collaborators

    What the module imports from astropy and from the rest of nenupy.
    Coordinates are pairs of degrees; [None] stands for the collaborator
    raising [ValueError]. *)
Class Astro : Type := {
  (** [Time(s, precision=0)] *)
  Time_parse : string -> option Q;
  (** [t.isot] *)
  isot : Q -> string;
  (** [float(s)] on a string whose value is a finite number; the texts
      that [float] reads as nan or as an infinity have no value here *)
  float_of_string : string -> option Q;
  (** [SkyCoord(ra, dec).transform_to(AltAz(obstime, nenufar_position))]:
      obstime, ra, dec to (az, alt) *)
  icrs_to_altaz : Q -> Q -> Q -> Q * Q;
  (** [SkyCoord(az, alt, frame=AltAz(obstime, ...)).transform_to(ICRS)]:
      obstime, az, alt to (ra, dec) *)
  altaz_to_icrs : Q -> Q -> Q -> Q * Q;
  (** [SolarSystemTarget.from_name(name, time)]: its [coordinates]
      (ra, dec) and its [horizontal_coordinates[0]] (az, alt) *)
  solar_system_target : string -> Q -> option ((Q * Q) * (Q * Q));
  (** [sb2freq(sb)[0]] in MHz *)
  sb2freq : Z -> Q
}.

(** [SB_WIDTH = 195.3125*u.kHz], in MHz and in kHz. *)
Definition SB_WIDTH_MHz : Q := 25 # 128.
Definition SB_WIDTH_kHz : Q := 3125 # 16.

(** ** _ParsetProperty *)

Definition newline : ascii := ascii_of_nat 10.
Definition dquote : ascii := ascii_of_nat 34.

(** [list(range(a, b))] *)
Definition py_range (a b : Z) : list Z :=
  map (fun i => a + Z.of_nat i) (seq 0 (Z.to_nat (b - a))).

(** [value[1:-1]] *)
Definition strip_brackets (s : string) : string :=
  match s with
  | EmptyString => EmptyString
  | String _ s' => String.rev (match String.rev s' with
                               | EmptyString => EmptyString
                               | String _ r => r
                               end)
  end.

Section Store.
Context `{Astro}.

Definition store : Type := list (string * value).

(** One element of a bracketed list ([__setitem__], lines 81-105); a
    range contributes several items. *)
Definition coerce_item (s : string) : res (list item) :=
  if PyStr.contains ".." s then
    match PyStr.split ".." s with
    | [a; b] =>
        let* x := PyStr.int a in
        let* y := PyStr.int b in
        Ok (map IInt (py_range x (y + 1)))
    | _ => Raise ValueError
    end
  else if PyStr.contains ":" s then
    match Time_parse (PyStr.strip s) with
    | Some t => Ok [ITime t]
    | None => Ok [IStr s]
    end
  else if PyStr.isdigit s then Ok [IInt (PyStr.digits_value 0 s)]
  else Ok [IStr s].

Fixpoint coerce_items (l : list string) : res (list item) :=
  match l with
  | [] => Ok []
  | s :: l' =>
      let* i := coerce_item s in
      let* r := coerce_items l' in
      Ok (i ++ r)
  end.

(** The coercion of [__setitem__] (lines 73-130). *)
Definition coerce (key : string) (raw : string) : res value :=
  let value := PyStr.remove_char dquote (PyStr.remove_char newline raw) in
  if PyStr.startswith "[" value && PyStr.endswith "]" value then
    let* l := coerce_items (PyStr.split "," (strip_brackets value)) in
    Ok (VList l)
  else if existsb (String.eqb (PyStr.lower value)) ["on"; "enable"; "true"] then
    Ok (VBool true)
  else if existsb (String.eqb (PyStr.lower value)) ["off"; "disable"; "false"] then
    Ok (VBool false)
  else if PyStr.contains "angle" (PyStr.lower key) then
    match float_of_string value with
    | Some q => Ok (VAngle q)
    | None => Raise ValueError
    end
  else if PyStr.isdigit value then Ok (VInt (PyStr.digits_value 0 value))
  else if PyStr.contains ":" value then
    match Time_parse (PyStr.strip value) with
    | Some t => Ok (VTime t)
    | None => Ok (VStr value)
    end
  else Ok (VStr value).

(** [property[key] = raw] *)
Definition setitem (key raw : string) (p : store) : res store :=
  let* v := coerce key raw in
  Ok (dset key v p).

(** [float(v)] on a stored value. *)
Definition py_float (v : value) : res Q :=
  match v with
  | VInt z => Ok (inject_Z z)
  | VBool b => Ok (if b then 1%Q else 0%Q)
  | VStr s => match float_of_string s with
              | Some q => Ok q
              | None => Raise ValueError
              end
  | VAngle _ | VList _ | VTime _ => Raise TypeError
  end.

(** [float(property.get(key, 0.0))] *)
Definition get_float0 (key : string) (p : store) : res Q :=
  match dget key p with
  | Some v => py_float v
  | None => Ok 0%Q
  end.
End Store.

(** ** Documents

    The nested dictionaries and lists that the builder assembles.  A leaf
    copied from a property store stays a [value]; a computed float is a
    [JNum], Python's [None] is [JNull]. *)

Inductive json : Type :=
| JNull
| JNum (q : Q)
| JVal (v : value)
| JList (l : list json)
| JObj (o : list (string * json)).

Definition JStr (s : string) : json := JVal (VStr s).
Definition JInt (z : Z) : json := JVal (VInt z).
Definition JBool (b : bool) : json := JVal (VBool b).

(** [doc[k]] on a document. *)
Definition jget (k : string) (j : json) : res json :=
  match j with
  | JObj o => getitem k o
  | _ => Raise TypeError
  end.

(** ** _parse_parameters *)

(** The values of the [configs] dictionary: a string taken from a
    [key=value] token, [True] for a bare flag, or one of the float
    defaults of [_dynamicspectrum_setting]. *)
Inductive cfgval : Type :=
| CStr (s : string)
| CTrue
| CFloat (q : Q).

Definition config : Type := list (string * cfgval).

(** [{param.split('=')[0]: param.split('=')[1] for param in params if '=' in param}];
    a parameter that holds ['='] always splits in two pieces or more. *)
Fixpoint parse_pairs (params : list string) (cfg : config) : config :=
  match params with
  | [] => cfg
  | p :: ps =>
      if PyStr.contains "=" p then
        match PyStr.split "=" p with
        | k :: v :: _ => parse_pairs ps (dset k (CStr v) cfg)
        | _ => parse_pairs ps cfg
        end
      else parse_pairs ps cfg
  end.

(** [configs.update({param.rstrip(): True for param in params if '=' not in param})] *)
Fixpoint parse_flags (params : list string) (cfg : config) : config :=
  match params with
  | [] => cfg
  | p :: ps =>
      if PyStr.contains "=" p then parse_flags ps cfg
      else parse_flags ps (dset (PyStr.rstrip p) CTrue cfg)
  end.

Definition _parse_parameters (parameters : string) (pulsar : bool) : string * config :=
  let parameters := PyStr.lower parameters in
  let mode := hd EmptyString (PyStr.split ":" parameters) in
  let configs :=
    if pulsar then
      parse_flags (PyStr.split "--" parameters)
        (parse_pairs (PyStr.split "--" parameters) [])
    else
      parse_flags (PyStr.split "--" parameters)
        (parse_pairs (PyStr.split_ws parameters) [])
  in (mode, configs).

(** Truth value of a configuration entry ([config.get(k, False)] in a
    condition). *)
Definition cfg_truthy (k : string) (cfg : config) : bool :=
  match dget k cfg with
  | None => false
  | Some (CStr s) => negb (String.eqb s EmptyString)
  | Some CTrue => true
  | Some (CFloat q) => negb (Qeq_bool q 0)
  end.

Definition json_of_cfgval (c : cfgval) : json :=
  match c with
  | CStr s => JStr s
  | CTrue => JBool true
  | CFloat q => JNum q
  end.

(** ** numpy on integer sequences *)

(** [np.diff] *)
Fixpoint np_diff (l : list Z) : list Z :=
  match l with
  | a :: (b :: _) as t => (b - a) :: np_diff t
  | _ => []
  end.

(** [np.where(d != 1)[0] + 1], counting positions from [i]. *)
Fixpoint np_where_ne1 (i : nat) (d : list Z) : list nat :=
  match d with
  | [] => []
  | x :: d' => if Z.eqb x 1 then np_where_ne1 (S i) d' else S i :: np_where_ne1 (S i) d'
  end.

(** [np.split(l, idx)]: the slices between consecutive cut points, the
    last one running to the end; always at least one piece. *)
Fixpoint np_split_from (prev : nat) (idx : list nat) (l : list Z) : list (list Z) :=
  match idx with
  | [] => [drop prev l]
  | i :: idx' => take (i - prev) (drop prev l) :: np_split_from i idx' l
  end.

Definition np_split (l : list Z) (idx : list nat) : list (list Z) :=
  np_split_from 0 idx l.

(** [group.min()] and [group.max()]: a zero-size array has no minimum. *)
Definition np_min (g : list Z) : res Z :=
  match g with
  | [] => Raise ValueError
  | x :: g' => Ok (fold_left Z.min g' x)
  end.

Definition np_max (g : list Z) : res Z :=
  match g with
  | [] => Raise ValueError
  | x :: g' => Ok (fold_left Z.max g' x)
  end.

(** The groups of consecutive sub-bands (lines 385-388). *)
Definition subband_groups (subband_list : list Z) : list (list Z) :=
  np_split subband_list (np_where_ne1 0 (np_diff subband_list)).

(** A stored value seen as an integer array: only a list of integers is
    one on which [np.diff] and the comparison with 1 go through. *)
Fixpoint int_items (l : list item) : res (list Z) :=
  match l with
  | [] => Ok []
  | IInt z :: l' => let* r := int_items l' in Ok (z :: r)
  | _ :: _ => Raise TypeError
  end.

Definition int_array (v : value) : res (list Z) :=
  match v with
  | VList l => int_items l
  | _ => Raise ValueError
  end.

(** Lexicographic order on version tuples. *)
Fixpoint tuple_lt (a b : list Z) : bool :=
  match a, b with
  | _, [] => false
  | [], _ :: _ => true
  | x :: a', y :: b' => Z.ltb x y || (Z.eqb x y && tuple_lt a' b')
  end.

Definition tuple_ge (a b : list Z) : bool := negb (tuple_lt a b).

(** Run [m]; on [KeyError] continue with [handler]. *)
Definition catch_KeyError {A : Type} (m : res A) (handler : res A) : res A :=
  match m with
  | Raise (KeyError _) => handler
  | _ => m
  end.

(** [needle in v] for a stored value: membership in a list, substring of
    a string. *)
Definition py_in (needle : string) (v : value) : res bool :=
  match v with
  | VList l => Ok (existsb (fun i => match i with
                                     | IStr s => String.eqb s needle
                                     | _ => false
                                     end) l)
  | VStr s => Ok (PyStr.contains needle s)
  | _ => Raise TypeError
  end.

(** [v.lower()] on a stored value: only strings have the method. *)
Definition value_lower (v : value) : res string :=
  match v with
  | VStr s => Ok (PyStr.lower s)
  | _ => Raise AttributeError
  end.

(** [np.round(x)] to the nearest integer, ties to even. *)
Definition round_half_even (x : Q) : Z :=
  let n := Qnum x in
  let d := Zpos (Qden x) in
  let fl := n / d in
  let twice_rem := 2 * (n - fl * d) in
  if Z.ltb twice_rem d then fl
  else if Z.ltb d twice_rem then fl + 1
  else if Z.even fl then fl else fl + 1.

(** [np.round(x, 3)] *)
Definition np_round3 (x : Q) : Q := round_half_even (x * 1000) # 1000.

Definition Qltb (a b : Q) : bool := negb (Qle_bool b a).

(** The local helper of [_get_pointing_center_dict] (lines 197-209), on
    finite angles.  (A nan compares with neither bound, so the code
    hands it back unchanged; there is no nan among the rationals.) *)
Definition _constrain_angle (angle valmin valmax : Q) : Q :=
  if Qltb angle valmin then valmin
  else if Qltb valmax angle then valmax
  else angle.

(** [TimeDelta(v, format='sec').sec]: a number of seconds, for a
    duration stored as an integer, which is how the decoder stores a
    duration written in digits.  What astropy makes of another stored
    value (it accepts a truth value or a decimal text, for instance) is
    outside the model, which stops there with [TypeError]. *)
Definition TimeDelta_sec (v : value) : res Q :=
  match v with
  | VInt z => Ok (inject_Z z)
  | _ => Raise TypeError
  end.

(** [v + TimeDelta] for a stored [Time].  Python also adds a
    [TimeDelta] to some values that are not a [Time] (to an integer, and
    the sum is then a [TimeDelta]); this is outside the model, which
    stops there with [TypeError]. *)
Definition time_plus (v : value) (d : Q) : res Q :=
  match v with
  | VTime t => Ok (t + d)%Q
  | _ => Raise TypeError
  end.

(** [v.to(u.deg)] and [v + x*u.deg]: only an angle is a quantity. *)
Definition angle_deg (v : value) : res Q :=
  match v with
  | VAngle q => Ok q
  | _ => Raise AttributeError
  end.

Definition angle_plus (v : value) (x : Q) : res Q :=
  match v with
  | VAngle q => Ok (q + x)%Q
  | _ => Raise TypeError
  end.

(** [SkyCoord(ra, dec)]: astropy refuses a latitude outside [-90, 90]. *)
Definition check_latitude (dec : Q) : res unit :=
  if Qle_bool (-90) dec && Qle_bool dec 90 then Ok tt else Raise ValueError.

(** Iterating over a stored value: the items of a list, the characters
    of a string. *)
Fixpoint chars (s : string) : list item :=
  match s with
  | EmptyString => []
  | String c s' => IStr (String c EmptyString) :: chars s'
  end.

Definition iterate (v : value) : res (list item) :=
  match v with
  | VList l => Ok l
  | VStr s => Ok (chars s)
  | _ => Raise TypeError
  end.

(** Truth value of a stored value. *)
Definition value_truthy (v : value) : bool :=
  match v with
  | VList l => match l with [] => false | _ => true end
  | VBool b => b
  | VAngle q => negb (Qeq_bool q 0)
  | VInt z => negb (Z.eqb z 0)
  | VTime _ => true
  | VStr s => negb (String.eqb s EmptyString)
  end.

Fixpoint map_res {A B : Type} (f : A -> res B) (l : list A) : res (list B) :=
  match l with
  | [] => Ok []
  | a :: l' =>
      let* b := f a in
      let* r := map_res f l' in
      Ok (b :: r)
  end.

Definition quantity (v : json) (unit_ : string) : json :=
  JObj [("value", v); ("unit", JStr unit_)].

Definition opt_num (o : option Q) : json :=
  match o with
  | Some q => JNum q
  | None => JNull
  end.

Section Resolver.
Context `{Astro}.

(** [_get_frequency_dict] (lines 381-397). *)
Definition _get_frequency_dict (property : store) (field : string) : res (list json) :=
  let* v := getitem field property in
  let* subband_list := int_array v in
  map_res
    (fun group =>
       let* lo := np_min group in
       let* hi := np_max group in
       Ok (JObj [("value", JObj [("gte", JNum (sb2freq lo));
                                 ("lt", JNum (sb2freq hi + SB_WIDTH_MHz)%Q)]);
                 ("unit", JStr "MHz")]))
    (subband_groups subband_list).

(** [v.isot] on a stored value. *)
Definition value_isot (v : value) : res string :=
  match v with
  | VTime t => Ok (isot t)
  | _ => Raise AttributeError
  end.

(** [_get_time_dict] (lines 363-379). *)
Definition _get_time_dict (property : store) : res json :=
  let* dv := getitem "duration" property in
  let* duration := TimeDelta_sec dv in
  let* start_time := getitem "startTime" property in
  let* stop_time := time_plus start_time duration in
  let* gte := value_isot start_time in
  Ok (JObj [("startstop", JObj [("gte", JStr gte);
                                ("lte", JStr (isot stop_time))]);
            ("duration", quantity (JNum (np_round3 duration)) "s")]).

(** The offsets applied in the horizontal frame (lines 233-248,
    268-283, 322-337): clamp, then convert to equatorial. *)
Definition offset_altaz (property : store) (obstime az alt : Q) : res (Q * Q) :=
  let* decal_az := get_float0 "decal_az" property in
  let* decal_el := get_float0 "decal_el" property in
  Ok (altaz_to_icrs obstime
        (_constrain_angle (az + decal_az) 0 360)
        (_constrain_angle (alt + decal_el) 0 90)).

(** The final additive offsets (lines 252-263, 284-293, 338-349). *)
Definition offset_radec (property : store) (radec : Q * Q) : res (option Q * option Q) :=
  let* decal_ra := get_float0 "decal_ra" property in
  let* decal_dec := get_float0 "decal_dec" property in
  Ok (Some (_constrain_angle (fst radec + decal_ra) 0 360),
      Some (_constrain_angle (snd radec + decal_dec) (-90) 90)).

Definition has_altaz_decal (property : store) : bool :=
  dmem "decal_az" property || dmem "decal_el" property.

(** The dispatch on the direction type (lines 222-349); [obstime] is
    [start_time + duration/2.], which every branch that converts
    coordinates uses. *)
Definition resolve_direction (property : store) (direction_type : string)
           (obstime : Q) : res (option Q * option Q) :=
  if String.eqb direction_type "j2000" then
    let* a1 := getitem "angle1" property in
    let* ra := angle_deg a1 in
    let* a2 := getitem "angle2" property in
    let* dec := angle_deg a2 in
    let* radec :=
      if has_altaz_decal property then
        let* _ := check_latitude dec in
        let altaz := icrs_to_altaz obstime ra dec in
        offset_altaz property obstime (fst altaz) (snd altaz)
      else Ok (ra, dec) in
    offset_radec property radec
  else if String.eqb direction_type "azelgeo" then
    let* a1 := getitem "angle1" property in
    let* decal_az := get_float0 "decal_az" property in
    let* az := angle_plus a1 decal_az in
    let* a2 := getitem "angle2" property in
    let* decal_el := get_float0 "decal_el" property in
    let* alt := angle_plus a2 decal_el in
    let radec := altaz_to_icrs obstime (_constrain_angle az 0 360)
                               (_constrain_angle alt 0 90) in
    offset_radec property radec
  else if String.eqb direction_type "azelgeo_azelfile" then
    let radec := altaz_to_icrs obstime 0 90 in
    Ok (Some (fst radec), Some (snd radec))
  else if String.eqb direction_type "natif" then
    Ok (None, None)
  else
    match solar_system_target direction_type obstime with
    | None => Raise ValueError
    | Some (coordinates, altaz) =>
        let* radec :=
          if has_altaz_decal property then
            offset_altaz property obstime (fst altaz) (snd altaz)
          else Ok coordinates in
        offset_radec property radec
    end.

(** [_get_pointing_center_dict] (lines 194-361).  The function writes
    [directionType] into the store it is given, so the store is
    returned along with the document. *)
Definition _get_pointing_center_dict (property : store) : res (store * json) :=
  let* dv := getitem "duration" property in
  let* duration := TimeDelta_sec dv in
  let* start_time := getitem "startTime" property in
  let* stop_time := time_plus start_time duration in
  let* obstime := time_plus start_time (duration / 2) in
  let* property :=
    if dmem "azelFile" property
    then setitem "directionType" "azelgeo_azelfile" property
    else Ok property in
  let* dt := getitem "directionType" property in
  let* direction_type := value_lower dt in
  let* center := resolve_direction property direction_type obstime in
  Ok (property,
      JObj [("ra", quantity (opt_num (fst center)) "deg");
            ("dec", quantity (opt_num (snd center)) "deg");
            ("obs_direction_type", JStr direction_type)]).
End Resolver.

(** ** Receiver settings (lines 399-543)

    Calls to the logger are not modelled, except that a message which
    reads a field of the beam raises when that field is missing. *)

Section Receivers.
Context `{Astro}.

(** The argument of [_parse_parameters] as read from a beam: [lower]
    exists on strings only. *)
Definition parse_parameters_of (property : store) (pulsar : bool)
  : res (string * config) :=
  let* p := getitem "parameters" property in
  match p with
  | VStr s => Ok (_parse_parameters s pulsar)
  | _ => Raise AttributeError
  end.

(** [f"... {digibeam[key]} ..."] in a warning. *)
Definition warn_with (property : store) (key : string) : res unit :=
  let* _ := getitem key property in Ok tt.

(** [int(c)] and [float(c)] on a configuration entry. *)
Definition cfg_int (c : cfgval) : res Z :=
  match c with
  | CStr s => PyStr.int s
  | CTrue => Ok 1
  | CFloat q => Ok (Qnum q ÷ Zpos (Qden q))
  end.

Definition cfg_float (c : cfgval) : res Q :=
  match c with
  | CStr s => match float_of_string s with
              | Some q => Ok q
              | None => Raise ValueError
              end
  | CTrue => Ok 1%Q
  | CFloat q => Ok q
  end.

Definition _default_setting (digibeam output : store) (version : list Z) : res json :=
  let* frequency := _get_frequency_dict digibeam "subbandList" in
  Ok (JObj [("name", JStr "LaNewBa");
            ("dt", quantity (JInt 1) "s");
            ("df", quantity (JNum SB_WIDTH_kHz) "kHz");
            ("frequency", JList frequency)]).

Definition n_polars (cfg : config) : json :=
  JInt (if cfg_truthy "onlyi" cfg then 1 else 4).

Definition _pulsar_setting (digibeam output : store) (version : list Z) : res json :=
  match parse_parameters_of digibeam true with
  | Raise (KeyError _) =>
      let* _ := warn_with digibeam "noBeam" in
      Ok (JObj [])
  | Raise e => Raise e
  | Ok (mode, config) =>
      if String.eqb mode "fold" then
        let* src := getitem "src" config in
        let* frequency := _get_frequency_dict digibeam "subbandList" in
        Ok (JObj [("name", JStr "undysputed");
                  ("mode", JStr "pulsar_fold");
                  ("source_name", json_of_cfgval src);
                  ("n_polars", n_polars config);
                  ("frequency", JList frequency)])
      else if String.eqb mode "single" then
        let* src := getitem "src" config in
        let* dstime := getitem "dstime" config in
        let* downsampling := cfg_int dstime in
        let* frequency := _get_frequency_dict digibeam "subbandList" in
        Ok (JObj [("name", JStr "undysputed");
                  ("mode", JStr "pulsar_single");
                  ("source_name", json_of_cfgval src);
                  ("downsampling", JInt downsampling);
                  ("n_polars", n_polars config);
                  ("frequency", JList frequency)])
      else if String.eqb mode "waveolaf" then
        let* src := getitem "src" config in
        let* frequency := _get_frequency_dict digibeam "subbandList" in
        Ok (JObj [("name", JStr "undysputed");
                  ("mode", JStr "pulsar_waveolaf");
                  ("source_name", json_of_cfgval src);
                  ("frequency", JList frequency)])
      else if String.eqb mode "wave" then
        let* src := getitem "src" config in
        let* frequency := _get_frequency_dict digibeam "subbandList" in
        Ok (JObj [("name", JStr "undysputed");
                  ("mode", JStr "pulsar_wave");
                  ("source_name", json_of_cfgval src);
                  ("frequency", JList frequency)])
      else Ok (JObj [])
  end.

Definition _waveform_setting (digibeam output : store) (version : list Z) : res json :=
  let* frequency := _get_frequency_dict digibeam "subbandList" in
  Ok (JObj [("name", JStr "undysputed");
            ("mode", JStr "waveform");
            ("frequency", JList frequency)]).

Definition _dynamicspectrum_setting (digibeam output : store) (version : list Z)
  : res json :=
  let* config :=
    match parse_parameters_of digibeam false with
    | Raise (KeyError _) =>
        let* _ := warn_with digibeam "noBeam" in
        Ok [("dt", CFloat 5); ("df", CFloat (61 # 10))]
    | Raise e => Raise e
    | Ok (_, config) => Ok config
    end in
  catch_KeyError
    (if cfg_truthy "tf: rawrt" config then _waveform_setting digibeam output version
     else
       let* dt := getitem "dt" config in
       let* dt := cfg_float dt in
       let* df := getitem "df" config in
       let* df := cfg_float df in
       let* frequency := _get_frequency_dict digibeam "subbandList" in
       Ok (JObj [("name", JStr "undysputed");
                 ("mode", JStr "tf");
                 ("dt", quantity (JNum dt) "ms");
                 ("df", quantity (JNum df) "kHz");
                 ("frequency", JList frequency)]))
    (let* _ := warn_with digibeam "toDo" in Ok (JObj [])).

Definition _nickel_setting (phasecenter output : store) (version : list Z) : res json :=
  let* channelization := getitem "nri_channelization" output in
  let* dumptime := getitem "nri_dumpTime" output in
  let nickel_config :=
    [("name", JStr "nickel");
     ("channelization", JObj [("value", JVal channelization); ("unit", JNull)]);
     ("dumptime", quantity (JVal dumptime) "s")] in
  if tuple_ge version [1; 0] then
    let* _ :=
      match parse_parameters_of phasecenter true with
      | Raise (KeyError _) => warn_with phasecenter "noBeam"
      | Raise e => Raise e
      | Ok _ => Ok tt
      end in
    let* frequency := _get_frequency_dict phasecenter "subbandList" in
    Ok (JObj (dset "frequency" (JList frequency) nickel_config))
  else
    let* frequency := _get_frequency_dict output "nri_subbandList" in
    Ok (JObj (dset "frequency" (JList frequency) nickel_config)).

(** ["nickel" in output.get("nri_receivers", [])] *)
Definition nickel_enabled (output : store) : res bool :=
  py_in "nickel" (get_default "nri_receivers" (VList []) output).

Definition _tbd_setting (digibeam output : store) (version : list Z) : res json :=
  let* nickel := nickel_enabled output in
  if nickel && tuple_lt version [1; 0]
  then _nickel_setting digibeam output version
  else _default_setting digibeam output version.

Definition setting_func : Type := store -> store -> list Z -> res json.

Definition BEAM_SETTINGS : list (string * setting_func) :=
  [("none", _default_setting);
   ("pulsar", _pulsar_setting);
   ("waveform", _waveform_setting);
   ("dynamicspectrum", _dynamicspectrum_setting);
   ("tbd", _tbd_setting);
   ("nickel", _nickel_setting)].

(** [BEAM_SETTINGS[beam.get("toDo", "none").lower()]] *)
Definition select_setting (beam : store) : res setting_func :=
  let* todo := value_lower (get_default "toDo" (VStr "none") beam) in
  getitem todo BEAM_SETTINGS.
End Receivers.

(** ** _JsonEntry, the document builder (lines 545-725) *)

(** A field of view is a dictionary with a fixed set of keys. *)
Record fov : Type := mk_fov {
  fov_idx : Z;
  fov_pointings : list json;
  fov_name : value;
  fov_center : json;
  fov_time : json;
  fov_beamsquint : json;
  fov_mini_arrays : list json;
  fov_antennas : list json;
  fov_filter : list json
}.

Definition set_fov_mini_arrays (f : fov) (mas : list json) : fov :=
  mk_fov (fov_idx f) (fov_pointings f) (fov_name f) (fov_center f) (fov_time f)
         (fov_beamsquint f) mas (fov_antennas f) (fov_filter f).

Definition append_fov_pointing (f : fov) (p : json) : fov :=
  mk_fov (fov_idx f) (fov_pointings f ++ [p]) (fov_name f) (fov_center f) (fov_time f)
         (fov_beamsquint f) (fov_mini_arrays f) (fov_antennas f) (fov_filter f).

Definition json_of_fov (f : fov) : json :=
  JObj [("idx", JInt (fov_idx f));
        ("pointings", JList (fov_pointings f));
        ("name", JVal (fov_name f));
        ("center", fov_center f);
        ("time", fov_time f);
        ("beamsquint", fov_beamsquint f);
        ("mini_arrays", JList (fov_mini_arrays f));
        ("antennas", JList (fov_antennas f));
        ("filter", JList (fov_filter f))].

Record JsonEntry : Type := mk_entry {
  obs_metadata : list (string * json);
  output : store;
  fovs : list fov;
  (** pairs of a position in [fovs] and a pointing *)
  pointings : list (nat * json)
}.

(** [_array_to_dict_array(array)] with the default, empty unit. *)
Definition _array_to_dict_array (array : list item) : list json :=
  map (fun val => JObj [("value", JVal (value_of_item val))]) array.

(** [np.array([ma["value"] for ma in fov["mini_arrays"]])] as far as the
    comparison [> 96] accepts it: every member is an integer. *)
Definition ma_value (ma : json) : res Z :=
  let* v := jget "value" ma in
  match v with
  | JVal (VInt z) => Ok z
  | _ => Raise TypeError
  end.

Definition REMOTE_THRESHOLD : Z := 96.

Definition is_remote (z : Z) : bool := Z.ltb REMOTE_THRESHOLD z.

Definition is_nickel (name : json) : bool :=
  match name with
  | JVal (VStr s) => String.eqb "nickel" s
  | _ => false
  end.

(** The loop over the pointings of a field of view (lines 708-711).  Its
    [continue] belongs to this inner loop: both branches go on to the
    next pointing, and the loop ends without a verdict. *)
Fixpoint scan_receivers (pointings : list json) : res unit :=
  match pointings with
  | [] => Ok tt
  | pointing :: rest =>
      let* receiver := jget "receiver" pointing in
      let* name := jget "name" receiver in
      if is_nickel name then scan_receivers rest else scan_receivers rest
  end.

(** [np.array(l)[~mask].tolist()] *)
Fixpoint mask_out {A : Type} (l : list A) (mask : list bool) : list A :=
  match l, mask with
  | x :: l', b :: mask' => if b then mask_out l' mask' else x :: mask_out l' mask'
  | _, _ => []
  end.

(** One round of the loop of [remove_unused_miniarrays] (lines 701-718). *)
Definition prune_fov (f : fov) : res fov :=
  let* mas_in_fov := map_res ma_value (fov_mini_arrays f) in
  if negb (existsb is_remote mas_in_fov) then Ok f
  else
    let* _ := scan_receivers (fov_pointings f) in
    let remote_mas_in_fov_mask := map is_remote mas_in_fov in
    Ok (set_fov_mini_arrays f (mask_out (fov_mini_arrays f) remote_mas_in_fov_mask)).

Definition set_fovs (e : JsonEntry) (fs : list fov) : JsonEntry :=
  mk_entry (obs_metadata e) (output e) fs (pointings e).

Definition remove_unused_miniarrays (e : JsonEntry) : res JsonEntry :=
  let* fs := map_res prune_fov (fovs e) in
  Ok (set_fovs e fs).

(** The field-of-view loop of [Parset.to_json_old] (lines 1077-1098),
    which collects the receiver names before it decides. *)
Definition prune_fov_old (f : fov) : res fov :=
  let* mas_in_fov := map_res ma_value (fov_mini_arrays f) in
  if negb (existsb is_remote mas_in_fov) then Ok f
  else
    let* receivers_in_fov :=
      map_res (fun pointing =>
                 let* receiver := jget "receiver" pointing in
                 jget "name" receiver) (fov_pointings f) in
    if existsb is_nickel receivers_in_fov then Ok f
    else
      let remote_mas_in_fov_mask := map is_remote mas_in_fov in
      Ok (set_fov_mini_arrays f (mask_out (fov_mini_arrays f) remote_mas_in_fov_mask)).

(** [fov_indices] (lines 555-557). *)
Definition fov_indices (e : JsonEntry) : list Z := map fov_idx (fovs e).

Definition item_eq_int (i : item) (z : Z) : bool :=
  match i with
  | IInt x => Z.eqb x z
  | _ => false
  end.

(** [self.fov_indices == v], element by element: an integer (or a
    boolean, which numpy reads as 0 or 1) is compared with each index, a
    list is broadcast when it has one element and compared pairwise when
    it has as many as there are indices; nothing else equals an index. *)
Definition np_eq_mask (indices : list Z) (v : value) : list bool :=
  match v with
  | VInt z => map (Z.eqb z) indices
  | VBool b => map (Z.eqb (if b then 1 else 0)) indices
  | VList [i] => map (item_eq_int i) indices
  | VList l =>
      if Nat.eqb (length l) (length indices)
      then map (fun p => item_eq_int (fst p) (snd p)) (combine l indices)
      else map (fun _ => false) indices
  | _ => map (fun _ => false) indices
  end.

(** [np.where(mask)[0]] *)
Fixpoint np_where (i : nat) (mask : list bool) : list nat :=
  match mask with
  | [] => []
  | b :: mask' => if b then i :: np_where (S i) mask' else np_where (S i) mask'
  end.

(** [np.where(self.fov_indices == v)[0][0]] (line 651) *)
Definition find_fov (e : JsonEntry) (v : value) : res nat :=
  match np_where 0 (np_eq_mask (fov_indices e) v) with
  | [] => Raise IndexError
  | i :: _ => Ok i
  end.

(** [data] (lines 560-574): the pointings are appended to the very
    dictionaries held in [self.fovs], so the entry changes too. *)
Fixpoint attach_pointings (ps : list (nat * json)) (fs : list fov) : res (list fov) :=
  match ps with
  | [] => Ok fs
  | (fov_idx, pointing) :: ps' =>
      match fs !! fov_idx with
      | None => Raise IndexError
      | Some f => attach_pointings ps' (<[fov_idx := append_fov_pointing f pointing]> fs)
      end
  end.

Definition data (e : JsonEntry) : res (JsonEntry * json) :=
  let* fs := attach_pointings (pointings e) (fovs e) in
  Ok (set_fovs e fs,
      JObj (dset "field_of_views" (JList (map json_of_fov fs)) (obs_metadata e))).

(** String slices and the two path functions of [os.path]. *)
Fixpoint str_take (n : nat) (s : string) : string :=
  match n, s with
  | S n', String c s' => String c (str_take n' s')
  | _, _ => EmptyString
  end.

Fixpoint str_drop (n : nat) (s : string) : string :=
  match n, s with
  | S n', String _ s' => str_drop n' s'
  | _, _ => s
  end.

Fixpoint rstrip_slash_rev (r : string) : string :=
  match r with
  | String c r' => if Ascii.eqb c "/" then rstrip_slash_rev r' else r
  | EmptyString => EmptyString
  end.

Definition basename (p : string) : string :=
  List.last (PyStr.split "/" p) EmptyString.

Definition dirname (p : string) : string :=
  let head := str_take (String.length p - String.length (basename p)) p in
  match rstrip_slash_rev (String.rev head) with
  | EmptyString => head
  | r => String.rev r
  end.

Record Parset : Type := mk_parset {
  observation : store;
  parset_output : store;
  anabeams : list (Z * store);
  digibeams : list (Z * store);
  phase_centers : list (Z * store);
  parset_user : string;
  parset_file : string
}.

Section Builder.
Context `{Astro}.

(** [(b - a).sec] for two stored times. *)
Definition time_diff (b a : value) : res Q :=
  match b, a with
  | VTime tb, VTime ta => Ok (tb - ta)%Q
  | _, _ => Raise TypeError
  end.

(** The passthrough loop of [add_observation_metadata] (lines 602-609). *)
Definition key_mapping : list (string * string) :=
  [("title", "title"); ("contactName", "contact_name"); ("name", "name")].

Fixpoint passthrough (obs : store) (md : list (string * json)) : list (string * json) :=
  match obs with
  | [] => md
  | (key, v) :: obs' =>
      match dget key key_mapping with
      | Some k => passthrough obs' (dset k (JVal v) md)
      | None => passthrough obs' md
      end
  end.

Definition add_observation_metadata (e : JsonEntry) (obs : store)
           (parset_file parset_user : string) : res JsonEntry :=
  let* start := getitem "startTime" obs in
  let* timestamp := value_isot start in
  let md := dset "@timestamp" (JStr timestamp) (obs_metadata e) in
  let md := dset "file_name" (JObj [("name", JStr (basename parset_file));
                                    ("path", JStr (dirname parset_file))]) md in
  let* gte := value_isot start in
  let* stop := getitem "stopTime" obs in
  let* lt := value_isot stop in
  let* duration := time_diff stop start in
  let md := dset "time" (JObj [("startstop", JObj [("gte", JStr gte); ("lt", JStr lt)]);
                               ("duration", quantity (JNum (np_round3 duration)) "s")]) md in
  let* topic :=
    match get_default "topic" (VStr "ES00 DEBUG") obs with
    | VStr s => Ok s
    | _ => Raise AttributeError
    end in
  let is_es := PyStr.startswith "ES" topic in
  let md := dset "topic" (JObj [("code", JStr (if is_es then str_take 4 topic else "ES00"));
                                ("name", JStr (if is_es then str_drop 5 topic else topic))]) md in
  let md := passthrough obs md in
  let md := dset "parset_user" (JStr parset_user) md in
  Ok (mk_entry md (output e) (fovs e) (pointings e)).

(** [int(fil)] on a list element. *)
Definition item_int (i : item) : res Z :=
  match i with
  | IInt z => Ok z
  | IStr s => PyStr.int s
  | ITime _ => Raise TypeError
  end.

Definition item_isot (i : item) : res string :=
  match i with
  | ITime t => Ok (isot t)
  | _ => Raise AttributeError
  end.

(** [add_field_of_view] (lines 613-631); the analog beam comes back
    because the resolver may have written into it. *)
Definition add_field_of_view (e : JsonEntry) (index : Z) (anabeam : store)
  : res (JsonEntry * store) :=
  let* name := getitem "target" anabeam in
  let* pc := _get_pointing_center_dict anabeam in
  let anabeam := fst pc in
  let* time := _get_time_dict anabeam in
  let beamsquint :=
    JObj [("correction", JVal (get_default "beamSquint" (VBool false) anabeam));
          ("frequency",
            JObj [("value", match dget "optFrq" anabeam with
                            | Some v => JVal v
                            | None => JNull
                            end);
                  ("unit", JStr "MHz")])] in
  let* maList := getitem "maList" anabeam in
  let* mas := iterate maList in
  let* antList := getitem "antList" anabeam in
  let* ants := iterate antList in
  let* fil := getitem "filter" anabeam in
  let* fils := iterate fil in
  let* filterTime := getitem "filterTime" anabeam in
  let* tims := iterate filterTime in
  let* filters :=
    map_res (fun ft =>
               let* n := item_int (fst ft) in
               let* s := item_isot (snd ft) in
               Ok (JObj [("name", JInt n); ("start", JStr s)]))
            (combine fils tims) in
  let f := mk_fov index [] name (snd pc) time beamsquint
                  (_array_to_dict_array mas) (_array_to_dict_array ants) filters in
  Ok (mk_entry (obs_metadata e) (output e) (fovs e ++ [f]) (pointings e), anabeam).

(** [add_pointing] (lines 634-653), in two steps: the pointing
    dictionary (lines 636-648), then the search for its field of view
    (lines 651-653).  The beam comes back because the resolver may
    have written into it. *)
Definition make_pointing (e : JsonEntry) (index : Z) (beam : store)
           (parset_version : list Z) (pointing_setting_func : option setting_func)
  : res (json * store) :=
  let* name := getitem "target" beam in
  let* pc := _get_pointing_center_dict beam in
  let beam := fst pc in
  let* time := _get_time_dict beam in
  let* func :=
    match pointing_setting_func with
    | None => select_setting beam
    | Some f => Ok f
    end in
  let* receiver := func beam (output e) parset_version in
  Ok (JObj [("idx", JInt index);
            ("name", JVal name);
            ("center", snd pc);
            ("time", time);
            ("receiver", receiver)],
      beam).

Definition add_pointing (e : JsonEntry) (index : Z) (beam : store)
           (parset_version : list Z) (pointing_setting_func : option setting_func)
  : res (JsonEntry * store) :=
  let* pb := make_pointing e index beam parset_version pointing_setting_func in
  let pointing := fst pb in
  let beam := snd pb in
  let* noBeam := getitem "noBeam" beam in
  let* fov_idx := find_fov e noBeam in
  Ok (mk_entry (obs_metadata e) (output e) (fovs e) (pointings e ++ [(fov_idx, pointing)]),
      beam).

(** [add_xst_pointings] (lines 656-696). *)
Definition xst_pointing (e : JsonEntry) (last_pointing_idx : Z) (i : nat) (f : fov)
  : res json :=
  let* startstop := jget "startstop" (fov_time f) in
  let* gte := jget "gte" startstop in
  let* start :=
    match gte with
    | JVal (VStr s) => match Time_parse s with
                       | Some t => Ok t
                       | None => Raise ValueError
                       end
    | _ => Raise ValueError
    end in
  let* dur := jget "duration" (fov_time f) in
  let* dv := jget "value" dur in
  let* duration :=
    match dv with
    | JNum q => Ok q
    | _ => Raise TypeError
    end in
  let zenith := altaz_to_icrs (start + duration / 2)%Q 0 90 in
  let* frequency := _get_frequency_dict (output e) "xst_sbList" in
  Ok (JObj [("idx", JInt (last_pointing_idx + 1 + Z.of_nat i));
            ("center", JObj [("ra", quantity (JNum (fst zenith)) "deg");
                             ("dec", quantity (JNum (snd zenith)) "deg");
                             ("obs_direction_type", JStr "zenith_xst")]);
            ("name", JStr EmptyString);
            ("time", fov_time f);
            ("receiver", JObj [("name", JStr "LaNewBa");
                               ("frequency", JList frequency)])]).

Fixpoint xst_loop (e : JsonEntry) (last_pointing_idx : Z) (i : nat) (fs : list fov)
  : res JsonEntry :=
  match fs with
  | [] => Ok e
  | f :: fs' =>
      let* p := xst_pointing e last_pointing_idx i f in
      xst_loop (mk_entry (obs_metadata e) (output e) (fovs e) (pointings e ++ [(i, p)]))
               last_pointing_idx (S i) fs'
  end.

Definition add_xst_pointings (e : JsonEntry) : res JsonEntry :=
  xst_loop e (Z.of_nat (length (pointings e)) - 1) 0 (fovs e).
End Builder.

(** ** Parset.to_json (lines 773-840) *)

(** Dictionaries keyed by a beam index. *)
Fixpoint iget {V : Type} (k : Z) (d : list (Z * V)) : option V :=
  match d with
  | [] => None
  | (k', v) :: d' => if Z.eqb k k' then Some v else iget k d'
  end.

Fixpoint iset {V : Type} (k : Z) (v : V) (d : list (Z * V)) : list (Z * V) :=
  match d with
  | [] => [(k, v)]
  | (k', v') :: d' => if Z.eqb k k' then (k, v) :: d' else (k', v') :: iset k v d'
  end.

Section ToJson.
Context `{Astro}.

(** [version] (lines 773-778) *)
Definition version (p : Parset) : res (list Z) :=
  match get_default "parsetVersion" (VStr "0") (observation p) with
  | VStr version_str => map_res PyStr.int (PyStr.split "." version_str)
  | _ => Raise AttributeError
  end.

(** The loop over the analog beams (lines 797-798). *)
Fixpoint add_fields_of_view (e : JsonEntry) (todo : list (Z * store))
         (beams : list (Z * store)) : res (JsonEntry * list (Z * store)) :=
  match todo with
  | [] => Ok (e, beams)
  | (ana_idx, anabeam) :: todo' =>
      let* r := add_field_of_view e ana_idx anabeam in
      add_fields_of_view (fst r) todo' (iset ana_idx (snd r) beams)
  end.

(** The loops over the numerical beams and the phase centres (lines
    801-809); [shift] is what is added to the key to get the pointing
    index. *)
Fixpoint add_pointings (e : JsonEntry) (parset_version : list Z) (shift : Z)
         (todo : list (Z * store)) (beams : list (Z * store))
  : res (JsonEntry * list (Z * store)) :=
  match todo with
  | [] => Ok (e, beams)
  | (idx, beam) :: todo' =>
      let* r := add_pointing e (idx + shift) beam parset_version None in
      add_pointings (fst r) parset_version shift todo' (iset idx (snd r) beams)
  end.

(** The value of [digi_idx] once the loop over the numerical beams is
    over: unbound when there was none. *)
Definition last_digi_idx (p : Parset) : res Z :=
  match List.last (map (fun kv => Some (fst kv)) (digibeams p)) None with
  | Some i => Ok i
  | None => Raise UnboundLocalError
  end.

Definition is_TBD (v : value) : bool :=
  match v with
  | VStr s => String.eqb s "TBD"
  | _ => false
  end.

(** The synthetic imaging pointing of old parsets (lines 817-829). *)
Definition add_old_nickel_pointing (e : JsonEntry) (parset_version : list Z)
           (beams : list (Z * store)) : res (JsonEntry * list (Z * store)) :=
  if tuple_lt parset_version [1; 0] then
    let* nickel := nickel_enabled (output e) in
    if nickel then
      let* todos := map_res (fun kv => getitem "toDo" (snd kv)) beams in
      if negb (existsb is_TBD todos) then
        match iget 0 beams with
        | None => Raise (KeyError "0")
        | Some first =>
            let* r := add_pointing e (Z.of_nat (length (pointings e))) first
                                   parset_version (Some _nickel_setting) in
            Ok (fst r, iset 0 (snd r) beams)
        end
      else Ok (e, beams)
    else Ok (e, beams)
  else Ok (e, beams).

(** [to_json(path_name=None)]: the parset comes back with the stores
    the resolver has written into. *)
Definition to_json (p : Parset) : res (Parset * json) :=
  let* parset_version := version p in
  let json_entry := mk_entry [] (parset_output p) [] [] in
  let* json_entry :=
    add_observation_metadata json_entry (observation p) (parset_file p) (parset_user p) in
  let* r := add_fields_of_view json_entry (anabeams p) (anabeams p) in
  let json_entry := fst r in
  let anabeams' := snd r in
  let* r := add_pointings json_entry parset_version 0 (digibeams p) (digibeams p) in
  let json_entry := fst r in
  let digibeams' := snd r in
  let* r :=
    if tuple_ge parset_version [1; 0] then
      match phase_centers p with
      | [] => Ok (json_entry, [])
      | _ :: _ =>
          let* digi_idx := last_digi_idx p in
          add_pointings json_entry parset_version (digi_idx + 1)
                        (phase_centers p) (phase_centers p)
      end
    else Ok (json_entry, phase_centers p) in
  let json_entry := fst r in
  let phase_centers' := snd r in
  let* json_entry :=
    if value_truthy (get_default "xst_userfile" (VBool false) (parset_output p))
    then add_xst_pointings json_entry
    else Ok json_entry in
  let* r := add_old_nickel_pointing json_entry parset_version digibeams' in
  let json_entry := fst r in
  let digibeams' := snd r in
  let* json_entry := remove_unused_miniarrays json_entry in
  let* d := data json_entry in
  Ok (mk_parset (observation p) (parset_output p) anabeams' digibeams' phase_centers'
                (parset_user p) (parset_file p),
      snd d).
End ToJson.

(** ** Parset._decodeParset (lines 1148-1206) *)

(** What successive [readline()] calls return: the lines of the text,
    each with its newline, the last one possibly without. *)
Fixpoint readlines_go (cur : string) (s : string) : list string :=
  match s with
  | EmptyString =>
      match cur with EmptyString => [] | _ => [String.rev cur] end
  | String c s' =>
      if Ascii.eqb c newline
      then String.rev (String c cur) :: readlines_go EmptyString s'
      else readlines_go (String c cur) s'
  end.

Definition readlines (text : string) : list string := readlines_go EmptyString text.

(** The decoder's state: the parset under construction and the two
    local variables [dicoName] and [content], unbound before the first
    successful split. *)
Record decoder : Type := mk_decoder {
  dec_parset : Parset;
  dec_locals : option (string * string)
}.

Definition empty_parset (file : string) : Parset :=
  mk_parset [] [] [] [] [] EmptyString file.

Section Decoder.
Context `{Astro}.

(** The three beam branches (lines 1170-1189) share their shape:
    [tag] is the name of the index field written when the entity is
    created. *)
Definition decode_indexed (tag : string) (beams : list (Z * store))
           (dicoName key value : string) : res (list (Z * store)) :=
  match PyStr.search_index dicoName with
  | None => Raise AttributeError
  | Some digits =>
      let* idx := PyStr.int digits in
      let* beams :=
        match iget idx beams with
        | Some _ => Ok beams
        | None =>
            let* fresh := setitem tag (pretty idx) [] in
            Ok (iset idx fresh beams)
        end in
      match iget idx beams with
      | Some property =>
          let* property := setitem key value property in
          Ok (iset idx property beams)
      | None => Raise (KeyError (pretty idx))
      end
  end.

(** The body of the [while] loop for one line (lines 1156-1189). *)
Definition decode_line (d : decoder) (line : string) : res decoder :=
  let p := dec_parset d in
  let locals :=
    match PyStr.split1 "." line with
    | [dicoName; content] => Some (dicoName, content)
    | _ => dec_locals d
    end in
  match locals with
  | None => Raise UnboundLocalError
  | Some (dicoName, content) =>
      match PyStr.split1 "=" content with
      | [key; value] =>
          if PyStr.startswith "Observation" line then
            let* obs := setitem key value (observation p) in
            Ok (mk_decoder (mk_parset obs (parset_output p) (anabeams p) (digibeams p)
                                      (phase_centers p) (parset_user p) (parset_file p))
                           locals)
          else if PyStr.startswith "Output" line then
            let* out := setitem key value (parset_output p) in
            Ok (mk_decoder (mk_parset (observation p) out (anabeams p) (digibeams p)
                                      (phase_centers p) (parset_user p) (parset_file p))
                           locals)
          else if PyStr.startswith "AnaBeam" line then
            let* beams := decode_indexed "anaIdx" (anabeams p) dicoName key value in
            Ok (mk_decoder (mk_parset (observation p) (parset_output p) beams (digibeams p)
                                      (phase_centers p) (parset_user p) (parset_file p))
                           locals)
          else if PyStr.startswith "Beam" line then
            let* beams := decode_indexed "digiIdx" (digibeams p) dicoName key value in
            Ok (mk_decoder (mk_parset (observation p) (parset_output p) (anabeams p) beams
                                      (phase_centers p) (parset_user p) (parset_file p))
                           locals)
          else if PyStr.startswith "PhaseCenter" line then
            let* beams := decode_indexed "pcIdx" (phase_centers p) dicoName key value in
            Ok (mk_decoder (mk_parset (observation p) (parset_output p) (anabeams p)
                                      (digibeams p) beams (parset_user p) (parset_file p))
                           locals)
          else Ok (mk_decoder p locals)
      | _ => Raise ValueError
      end
  end.

Fixpoint decode_lines (d : decoder) (lines : list string) : res decoder :=
  match lines with
  | [] => Ok d
  | line :: rest =>
      let* d := decode_line d line in
      decode_lines d rest
  end.

(** [_decodeParset] on the text of the parset file and, when there is
    one, the text of its [_user] companion. *)
Definition _decodeParset (file text : string) (user : option string) : res Parset :=
  let* d := decode_lines (mk_decoder (empty_parset file) None) (readlines text) in
  let p := dec_parset d in
  Ok (mk_parset (observation p) (parset_output p) (anabeams p) (digibeams p)
                (phase_centers p)
                (match user with
                 | Some u => parset_user p ++ u
                 | None => parset_user p
                 end)
                (parset_file p)).
End Decoder.

(** A stand-in for the collaborators, for running the model on concrete
    parsets: a time is written [T:] followed by a whole number of seconds,
    floats are whole numbers, the sky is flat. *)
Definition toy_number (s : string) : option Q :=
  match PyStr.int s with
  | Ok z => Some (inject_Z z)
  | Raise _ => None
  end.

#[local] Instance toy_astro : Astro := {
  Time_parse := fun s =>
    match s with
    | String "T" (String ":" d) => toy_number d
    | _ => None
    end;
  isot := fun t => String "T" (String ":" (pretty (Qnum t / Zpos (Qden t))));
  float_of_string := toy_number;
  icrs_to_altaz := fun _ ra dec => (ra, dec);
  altaz_to_icrs := fun _ az alt => (az, alt);
  solar_system_target := fun name _ =>
    if String.eqb name "sun" then Some ((10%Q, 20%Q), (30%Q, 40%Q)) else None;
  sb2freq := fun sb => (inject_Z sb * SB_WIDTH_MHz)%Q
}.

(** ** The writer: _ParsetBlock and ParsetUser (lines 1505-1865)

    Configurations are Python dictionaries that are copied and then
    written in place, so they live in a heap of objects.  The registry
    [PARSET_OPTIONS] is not part of the module: it is a parameter, a
    dictionary from field names to configurations that sits in the
    initial heap.  It has two levels: [PARSET_OPTIONS[field][key]] is a
    dictionary of atoms ([value], [modified], [required], [syntax],
    ...). *)

Module Writer.

(** Locations are natural numbers. *)
Abbreviation loc := nat (only parsing).

(** The values a configuration holds or is given. *)
Inductive pyval : Type :=
| PNone
| PBool (b : bool)
| PInt (z : Z)
| PFloat (q : Q)
| PStr (s : string)
| PTime (t : Q)
| PTimeDelta (sec : Q).

(** A configuration maps a key to (a reference to) an entry; an entry
    maps attribute names to atoms. *)
Inductive obj : Type :=
| ODict (d : list (string * loc))
| OEntry (e : list (string * pyval)).

Record heap : Type := mk_heap {
  objs : gmap loc obj;
  next : loc
}.

Definition alloc (o : obj) (h : heap) : loc * heap :=
  (next h, mk_heap (<[next h := o]> (objs h)) (S (next h))).

Definition store_obj (l : loc) (o : obj) (h : heap) : heap :=
  mk_heap (<[l := o]> (objs h)) (next h).

Fixpoint memo_get (l : loc) (memo : list (loc * loc)) : option loc :=
  match memo with
  | [] => None
  | (a, b) :: memo' => if Nat.eqb l a then Some b else memo_get l memo'
  end.

(** [copy.deepcopy] of the entries of a configuration; [memo] maps the
    objects already copied to their copies, as in the library. *)
Fixpoint deepcopy_entries (memo : list (loc * loc)) (kvs : list (string * loc))
         (h : heap) : res (list (string * loc) * heap) :=
  match kvs with
  | [] => Ok ([], h)
  | (k, l) :: kvs' =>
      match memo_get l memo with
      | Some l' =>
          let* r := deepcopy_entries memo kvs' h in
          Ok ((k, l') :: fst r, snd r)
      | None =>
          match objs h !! l with
          | Some (OEntry e) =>
              let a := alloc (OEntry e) h in
              let* r := deepcopy_entries ((l, fst a) :: memo) kvs' (snd a) in
              Ok ((k, fst a) :: fst r, snd r)
          | _ => Raise TypeError
          end
      end
  end.

(** [deepcopy(PARSET_OPTIONS[field])]: the new dictionary is created
    first, then filled. *)
Definition deepcopy (l : loc) (h : heap) : res (loc * heap) :=
  match objs h !! l with
  | Some (ODict kvs) =>
      let a := alloc (ODict []) h in
      let* r := deepcopy_entries [(l, fst a)] kvs (snd a) in
      Ok (fst a, store_obj (fst a) (ODict (fst r)) (snd r))
  | _ => Raise TypeError
  end.

Record block : Type := mk_block {
  field : string;
  configuration : loc
}.

Record NumericalBeam : Type := mk_numbeam {
  nb_block : block;
  nb_index : Z
}.

Record AnalogBeam : Type := mk_anabeam {
  ab_block : block;
  ab_index : Z;
  numerical_beams : list NumericalBeam
}.

Record ParsetUser : Type := mk_user {
  pu_observation : block;
  analog_beams : list AnalogBeam;
  pu_output : block
}.

(** [l[i]] and [del l[i]] accept a negative index, counted from the
    end. *)
Definition norm_index (i : Z) (n : nat) : option nat :=
  if Z.leb 0 i && Z.ltb i (Z.of_nat n) then Some (Z.to_nat i)
  else if Z.leb (- Z.of_nat n) i && Z.ltb i 0 then Some (Z.to_nat (Z.of_nat n + i))
  else None.

Definition py_index {A : Type} (i : Z) (l : list A) : res (nat * A) :=
  match norm_index i (length l) with
  | None => Raise IndexError
  | Some k => match l !! k with
              | Some a => Ok (k, a)
              | None => Raise IndexError
              end
  end.

Definition py_del {A : Type} (i : Z) (l : list A) : res (list A) :=
  match norm_index i (length l) with
  | None => Raise IndexError
  | Some k => Ok (delete k l)
  end.

(** The numerical beams in the order of the two nested loops. *)
Definition all_numbeams (abs : list AnalogBeam) : list NumericalBeam :=
  concat (map numerical_beams abs).

(** Every block of the hierarchy. *)
Definition beam_blocks (ab : AnalogBeam) : list block :=
  ab_block ab :: map nb_block (numerical_beams ab).

Definition blocks_of (pu : ParsetUser) : list block :=
  pu_observation pu :: pu_output pu :: concat (map beam_blocks (analog_beams pu)).

(** The loops of [remove_numerical_beam] (lines 1772-1781): the inner
    one returns the shortened list when it has deleted a beam, and the
    counter otherwise. *)
Fixpoint remove_in_beam (counter numbeam_index : Z) (nbs : list NumericalBeam)
  : option (list NumericalBeam) * Z :=
  match nbs with
  | [] => (None, counter)
  | nb :: rest =>
      if Z.eqb counter numbeam_index then (Some rest, counter)
      else
        let r := remove_in_beam (counter + 1) numbeam_index rest in
        (option_map (cons nb) (fst r), snd r)
  end.

Fixpoint remove_in_beams (counter numbeam_index : Z) (abs : list AnalogBeam)
  : list AnalogBeam :=
  match abs with
  | [] => []
  | ab :: rest =>
      match remove_in_beam counter numbeam_index (numerical_beams ab) with
      | (Some nbs, _) => mk_anabeam (ab_block ab) (ab_index ab) nbs :: rest
      | (None, counter') => ab :: remove_in_beams counter' numbeam_index rest
      end
  end.

(** [_updates_numbeams_indices] (lines 1840-1846). *)
Fixpoint renumber_beam (counter : Z) (nbs : list NumericalBeam) : list NumericalBeam * Z :=
  match nbs with
  | [] => ([], counter)
  | nb :: rest =>
      let r := renumber_beam (counter + 1) rest in
      (mk_numbeam (nb_block nb) counter :: fst r, snd r)
  end.

Fixpoint renumber_beams (counter : Z) (abs : list AnalogBeam) : list AnalogBeam :=
  match abs with
  | [] => []
  | ab :: rest =>
      let r := renumber_beam counter (numerical_beams ab) in
      mk_anabeam (ab_block ab) (ab_index ab) (fst r) :: renumber_beams (snd r) rest
  end.

Definition _updates_numbeams_indices (pu : ParsetUser) : ParsetUser :=
  mk_user (pu_observation pu) (renumber_beams 0 (analog_beams pu)) (pu_output pu).

(** [remove_numerical_beam] (lines 1769-1782); it does not touch any
    configuration. *)
Definition remove_numerical_beam (numbeam_index : Z) (pu : ParsetUser) : ParsetUser :=
  _updates_numbeams_indices
    (mk_user (pu_observation pu)
             (remove_in_beams 0 numbeam_index (analog_beams pu))
             (pu_output pu)).

Section Blocks.
Context `{Astro}.
(** [PARSET_OPTIONS]: field name to configuration. *)
Variable PARSET_OPTIONS : list (string * loc).

(** [_ParsetBlock.__init__] (lines 1509-1511). *)
Definition new_block (fld : string) (h : heap) : res (block * heap) :=
  let* l := getitem fld PARSET_OPTIONS in
  let* r := deepcopy l h in
  Ok (mk_block fld (fst r), snd r).

(** The conversions of [_modify_properties] (lines 1535-1545).  A time
    here has no precision of its own, so the assignment
    [value.precision = 0] to the caller's object has no counterpart. *)
Definition convert (v : pyval) : pyval :=
  match v with
  | PTime t => PStr (isot t ++ "Z")
  | PTimeDelta sec => PStr (pretty (round_half_even sec) ++ "s")
  | PBool b => PStr (if b then "true" else "false")
  | _ => v
  end.

(** The entry a write leaves behind: [value] and [modified] are
    assigned, the other attributes stay. *)
Definition written (v : pyval) (e : list (string * pyval)) : list (string * pyval) :=
  dset "modified" (PBool true) (dset "value" (convert v) e).

(** One round of the loop of [_modify_properties] (lines 1529-1555):
    an unknown key only logs a warning. *)
Definition modify_one (b : block) (key : string) (v : pyval) (h : heap) : res heap :=
  match objs h !! configuration b with
  | Some (ODict kvs) =>
      match dget key kvs with
      | Some le =>
          match objs h !! le with
          | Some (OEntry e) =>
              Ok (store_obj le (OEntry (written v e)) h)
          | _ => Raise TypeError
          end
      | None => Ok h
      end
  | _ => Raise TypeError
  end.

Fixpoint _modify_properties (b : block) (kwargs : list (string * pyval)) (h : heap)
  : res heap :=
  match kwargs with
  | [] => Ok h
  | (key, v) :: kwargs' =>
      let* h := modify_one b key v h in
      _modify_properties b kwargs' h
  end.

(** [block[key] = value] *)
Definition block_setitem (b : block) (key : string) (v : pyval) (h : heap) : res heap :=
  _modify_properties b [(key, v)] h.

(** [self.configuration[key]], the entry itself. *)
Definition block_entry (b : block) (key : string) (h : heap)
  : res (list (string * pyval)) :=
  match objs h !! configuration b with
  | Some (ODict kvs) =>
      let* le := getitem key kvs in
      match objs h !! le with
      | Some (OEntry e) => Ok e
      | _ => Raise TypeError
      end
  | _ => Raise TypeError
  end.

(** [block[key]] (lines 1520-1523) *)
Definition block_getitem (b : block) (key : string) (h : heap) : res pyval :=
  let* e := block_entry b key h in
  getitem "value" e.

(** [_propagate_index] (lines 1650-1654) *)
Fixpoint propagate_to (index : Z) (nbs : list NumericalBeam) (h : heap) : res heap :=
  match nbs with
  | [] => Ok h
  | numbeam :: rest =>
      let* h := block_setitem (nb_block numbeam) "noBeam" (PInt index) h in
      propagate_to index rest h
  end.

Definition _propagate_index (ab : AnalogBeam) (h : heap) : res heap :=
  propagate_to (ab_index ab) (numerical_beams ab) h.

(** The loop of [_updates_anabeams_indices] (lines 1851-1855). *)
Fixpoint reindex_anabeams (counter : Z) (abs : list AnalogBeam) (h : heap)
  : res (list AnalogBeam * heap) :=
  match abs with
  | [] => Ok ([], h)
  | ab :: rest =>
      let ab := mk_anabeam (ab_block ab) counter (numerical_beams ab) in
      let* h := _propagate_index ab h in
      let* r := reindex_anabeams (counter + 1) rest h in
      Ok (ab :: fst r, snd r)
  end.

Definition _updates_anabeams_indices (pu : ParsetUser) (h : heap)
  : res (ParsetUser * heap) :=
  let* r := reindex_anabeams 0 (analog_beams pu) h in
  Ok (_updates_numbeams_indices (mk_user (pu_observation pu) (fst r) (pu_output pu)),
      snd r).

(** [ParsetUser.__init__] (lines 1699-1701) *)
Definition new_user (h : heap) : res (ParsetUser * heap) :=
  let* o := new_block "Observation" h in
  let* u := new_block "Output" (snd o) in
  Ok (mk_user (fst o) [] (fst u), snd u).

(** [add_analog_beam] (lines 1739-1743) *)
Definition add_analog_beam (kwargs : list (string * pyval)) (pu : ParsetUser) (h : heap)
  : res (ParsetUser * heap) :=
  let* b := new_block "Anabeam" h in
  let* h := _modify_properties (fst b) kwargs (snd b) in
  _updates_anabeams_indices
    (mk_user (pu_observation pu)
             (analog_beams pu ++ [mk_anabeam (fst b) 0 []])
             (pu_output pu)) h.

(** [remove_analog_beam] (lines 1746-1750) *)
Definition remove_analog_beam (anabeam_index : Z) (pu : ParsetUser) (h : heap)
  : res (ParsetUser * heap) :=
  let* abs := py_del anabeam_index (analog_beams pu) in
  _updates_anabeams_indices (mk_user (pu_observation pu) abs (pu_output pu)) h.

(** [add_numerical_beam] (lines 1753-1766) *)
Definition add_numerical_beam (anabeam_index : Z) (kwargs : list (string * pyval))
           (pu : ParsetUser) (h : heap) : res (ParsetUser * heap) :=
  let* ka := py_index anabeam_index (analog_beams pu) in
  let anabeam := snd ka in
  let* b := new_block "Beam" h in
  let* h := _modify_properties (fst b) kwargs (snd b) in
  let anabeam :=
    mk_anabeam (ab_block anabeam) (ab_index anabeam)
               (numerical_beams anabeam ++ [mk_numbeam (fst b) 0]) in
  let* h := _propagate_index anabeam h in
  Ok (_updates_numbeams_indices
        (mk_user (pu_observation pu)
                 (<[fst ka := anabeam]> (analog_beams pu))
                 (pu_output pu)),
      h).

(** [_update_beam_numbers] (lines 1859-1864), run by [str] and
    [validate]. *)
Definition _update_beam_numbers (pu : ParsetUser) (h : heap) : res heap :=
  let nb_analog_beams := length (analog_beams pu) in
  let nb_numerical_beams := length (all_numbeams (analog_beams pu)) in
  let* h := block_setitem (pu_observation pu) "nrAnabeams"
                          (PStr (pretty nb_analog_beams)) h in
  block_setitem (pu_observation pu) "nrBeams" (PStr (pretty nb_numerical_beams)) h.

(** The calls a user makes on a [ParsetUser]: the four structural
    methods, the refresh of the beam counts, and an assignment to a
    field of a block: [pu.observation[key] = v], [pu.output[key] = v],
    [pu.observation.analog_beams[i][key] = v] and
    [pu.observation.analog_beams[i].numerical_beams[j][key] = v]. *)
Inductive call : Type :=
| AddAnalogBeam (kwargs : list (string * pyval))
| RemoveAnalogBeam (anabeam_index : Z)
| AddNumericalBeam (anabeam_index : Z) (kwargs : list (string * pyval))
| RemoveNumericalBeam (numbeam_index : Z)
| UpdateBeamNumbers
| SetObservation (key : string) (v : pyval)
| SetOutput (key : string) (v : pyval)
| SetAnalogBeam (anabeam_index : Z) (key : string) (v : pyval)
| SetNumericalBeam (anabeam_index numbeam_index : Z) (key : string) (v : pyval).

(** The back-reference of a numerical beam is the writer's to maintain:
    a user assigns any field but that one. *)
Definition allowed (c : call) : Prop :=
  match c with
  | SetNumericalBeam _ _ key _ => key <> "noBeam"
  | _ => True
  end.

Definition run_call (c : call) (pu : ParsetUser) (h : heap) : res (ParsetUser * heap) :=
  match c with
  | AddAnalogBeam kwargs => add_analog_beam kwargs pu h
  | RemoveAnalogBeam i => remove_analog_beam i pu h
  | AddNumericalBeam i kwargs => add_numerical_beam i kwargs pu h
  | RemoveNumericalBeam k => Ok (remove_numerical_beam k pu, h)
  | UpdateBeamNumbers => let* h := _update_beam_numbers pu h in Ok (pu, h)
  | SetObservation key v =>
      let* h := block_setitem (pu_observation pu) key v h in Ok (pu, h)
  | SetOutput key v =>
      let* h := block_setitem (pu_output pu) key v h in Ok (pu, h)
  | SetAnalogBeam i key v =>
      let* ka := py_index i (analog_beams pu) in
      let* h := block_setitem (ab_block (snd ka)) key v h in Ok (pu, h)
  | SetNumericalBeam i j key v =>
      let* ka := py_index i (analog_beams pu) in
      let* kn := py_index j (numerical_beams (snd ka)) in
      let* h := block_setitem (nb_block (snd kn)) key v h in Ok (pu, h)
  end.

(** A call that raises leaves the hierarchy as it found it (the
    methods raise before they change anything that stays
    reachable). *)
Fixpoint run_calls (cs : list call) (pu : ParsetUser) (h : heap) : ParsetUser * heap :=
  match cs with
  | [] => (pu, h)
  | c :: cs' =>
      match run_call c pu h with
      | Ok (pu', h') => run_calls cs' pu' h'
      | Raise _ => run_calls cs' pu h
      end
  end.

(** The states a user can reach from [ParsetUser()] in the heap [h0]
    that holds the registry. *)
Definition reachable (h0 : heap) (pu : ParsetUser) (h : heap) : Prop :=
  exists (pu0 : ParsetUser) (h1 : heap) (cs : list call),
    new_user h0 = Ok (pu0, h1) /\
    Forall allowed cs /\
    run_calls cs pu0 h1 = (pu, h).

(** The same without the restriction: [__setitem__] takes [noBeam]
    as it takes any other key. *)
Definition reachable_unrestricted (h0 : heap) (pu : ParsetUser) (h : heap) : Prop :=
  exists (pu0 : ParsetUser) (h1 : heap) (cs : list call),
    new_user h0 = Ok (pu0, h1) /\
    run_calls cs pu0 h1 = (pu, h).
End Blocks.

#[global] Instance block_eq_dec : EqDecision block.
Proof. solve_decision. Defined.

(** *** The shape of the heap

    What a block owns: its configuration dictionary and the entries
    the dictionary refers to. *)
Definition entry_locs (h : heap) (b : block) : list loc :=
  match objs h !! configuration b with
  | Some (ODict kvs) => map snd kvs
  | _ => []
  end.

Definition footprint (h : heap) (b : block) : list loc :=
  configuration b :: entry_locs h b.

(** From [h] to [h'] nothing was allocated, and an object that differs
    is an entry at one of the locations [L], which is still an entry. *)
Definition entries_changed (L : list loc) (h h' : heap) : Prop :=
  next h' = next h /\
  forall l,
    objs h' !! l = objs h !! l \/
    (l ∈ L /\ exists e e', objs h !! l = Some (OEntry e) /\
                           objs h' !! l = Some (OEntry e')).

(** Two heaps hold the same objects at the locations [L]. *)
Definition agree_on (L : list loc) (h h' : heap) : Prop :=
  forall l, l ∈ L -> objs h' !! l = objs h !! l.

(** The skeleton of an analog beam: its block, its index and the
    blocks of its numerical beams. *)
Definition skel (ab : AnalogBeam) : block * Z * list block :=
  (ab_block ab, ab_index ab, map nb_block (numerical_beams ab)).

(** The blocks of all the numerical beams. *)
Definition nb_blocks (abs : list AnalogBeam) : list block :=
  map nb_block (all_numbeams abs).

(** The entries that the blocks [bs] refer to. *)
Definition entries_of (h : heap) (bs : list block) : list loc :=
  concat (map (entry_locs h) bs).

(** Nothing is stored at or above [next]. *)
Definition fresh_above (h : heap) : Prop :=
  forall l, (next h <= l)%nat -> objs h !! l = None.

(** [abs'] has the analog beams of [abs], each with some of its
    numerical beams. *)
Definition beams_shrink (abs' abs : list AnalogBeam) : Prop :=
  Forall2 (fun ab' ab =>
             ab_block ab' = ab_block ab /\
             ab_index ab' = ab_index ab /\
             map nb_block (numerical_beams ab')
               `sublist_of` map nb_block (numerical_beams ab))
          abs' abs.

(** The numerical beams carry the indices [c], [c+1], ... *)
Definition indexed_from (c : Z) (nbs : list NumericalBeam) : Prop :=
  forall (i : nat) (nb : NumericalBeam),
    nbs !! i = Some nb -> nb_index nb = c + Z.of_nat i.

Section Invariant.
Context `{Astro}.
Variable PARSET_OPTIONS : list (string * loc).
(** The heap the module starts from: it holds the registry. *)
Variable h0 : heap.

(** The registry is made of dictionaries of entries, no entry is
    shared between two keys, and the schema of a numerical beam has
    the key [noBeam]. *)
Definition registry_ok : Prop :=
  (forall l, (next h0 <= l)%nat -> objs h0 !! l = None) /\
  (forall fld l,
      dget fld PARSET_OPTIONS = Some l ->
      exists kvs,
        objs h0 !! l = Some (ODict kvs) /\
        NoDup (map snd kvs) /\
        (forall k le, (k, le) ∈ kvs -> exists e, objs h0 !! le = Some (OEntry e))) /\
  (forall l kvs,
      dget "Beam" PARSET_OPTIONS = Some l ->
      objs h0 !! l = Some (ODict kvs) ->
      dmem "noBeam" kvs = true).

(** Objects live below [next]; the registry is never written. *)
Definition wf_heap (h : heap) : Prop :=
  (next h0 <= next h)%nat /\
  (forall l, (next h <= l)%nat -> objs h !! l = None) /\
  (forall l, (l < next h0)%nat -> objs h !! l = objs h0 !! l).

Definition block_ok (h : heap) (b : block) : Prop :=
  exists kvs,
    objs h !! configuration b = Some (ODict kvs) /\
    (next h0 <= configuration b)%nat /\
    NoDup (map snd kvs) /\
    (forall k le, (k, le) ∈ kvs ->
                  (next h0 <= le)%nat /\ exists e, objs h !! le = Some (OEntry e)) /\
    (field b = "Beam" -> dmem "noBeam" kvs = true).

(** The blocks [bs] are distinct objects that share nothing. *)
Definition wf_blocks (h : heap) (bs : list block) : Prop :=
  NoDup bs /\
  (forall b, b ∈ bs -> block_ok h b) /\
  (forall b b' l, b ∈ bs -> b' ∈ bs ->
                  l ∈ footprint h b -> l ∈ footprint h b' -> b = b').

(** Every numerical beam refers to the analog beam that holds it. *)
Definition nobeam_ok (h : heap) (abs : list AnalogBeam) : Prop :=
  forall ab b,
    ab ∈ abs -> b ∈ map nb_block (numerical_beams ab) ->
    block_getitem b "noBeam" h = Ok (PInt (ab_index ab)).

Definition wf (pu : ParsetUser) (h : heap) : Prop :=
  wf_heap h /\
  wf_blocks h (blocks_of pu) /\
  (forall b, b ∈ nb_blocks (analog_beams pu) -> field b = "Beam") /\
  indexed_from 0 (all_numbeams (analog_beams pu)) /\
  nobeam_ok h (analog_beams pu).
End Invariant.

End Writer.

(** A small registry to run the writer on: four schemas of a few keys
    each, laid out in the initial heap. *)
Module WriterDemo.
Import Writer.

Definition schema_entry (default : string) (required : bool) : obj :=
  OEntry [("value", PStr default); ("required", PBool required);
          ("modified", PBool false)].

Definition toy_options : list (string * loc) :=
  [("Observation", 0%nat); ("Output", 4%nat); ("Anabeam", 6%nat); ("Beam", 9%nat)].

Definition toy_objects : list (loc * obj) :=
  [(0%nat, ODict [("title", 1%nat); ("nrAnabeams", 2%nat); ("nrBeams", 3%nat)]);
   (1%nat, schema_entry "" true);
   (2%nat, schema_entry "0" true);
   (3%nat, schema_entry "0" true);
   (4%nat, ODict [("hd_receivers", 5%nat)]);
   (5%nat, schema_entry "[]" false);
   (6%nat, ODict [("target", 7%nat); ("duration", 8%nat)]);
   (7%nat, schema_entry "" true);
   (8%nat, schema_entry "0s" true);
   (9%nat, ODict [("target", 10%nat); ("noBeam", 11%nat); ("toDo", 12%nat)]);
   (10%nat, schema_entry "" true);
   (11%nat, schema_entry "0" true);
   (12%nat, schema_entry "none" false)].

Definition toy_registry : heap := mk_heap (list_to_map toy_objects) 13.

(** Two analog beams, the first with three numerical beams and the
    second with one. *)
Definition demo_calls : list (call) :=
  [AddAnalogBeam [("target", PStr "Cas A")];
   AddNumericalBeam 0 [("toDo", PStr "pulsar")];
   AddNumericalBeam 0 [];
   AddAnalogBeam [("duration", PTimeDelta 600)];
   AddNumericalBeam 1 [];
   AddNumericalBeam 0 [("target", PStr "B0329+54")];
   SetNumericalBeam 0 1 "target" (PStr "Cyg A");
   SetObservation "title" (PStr "demo")].

Definition demo_state : ParsetUser * heap :=
  match new_user toy_options toy_registry with
  | Ok (pu0, h1) => run_calls toy_options demo_calls pu0 h1
  | Raise _ => (mk_user (mk_block EmptyString 0%nat) [] (mk_block EmptyString 0%nat),
                toy_registry)
  end.

(** One analog beam with two numerical beams; the user then assigns
    the back-reference of the second one. *)
Definition stray_calls : list (call) :=
  [AddAnalogBeam [];
   AddNumericalBeam 0 [];
   AddNumericalBeam 0 [];
   SetNumericalBeam 0 1 "noBeam" (PInt 7)].

Definition stray_state : ParsetUser * heap :=
  match new_user toy_options toy_registry with
  | Ok (pu0, h1) => run_calls toy_options stray_calls pu0 h1
  | Raise _ => (mk_user (mk_block EmptyString 0%nat) [] (mk_block EmptyString 0%nat),
                toy_registry)
  end.
End WriterDemo.

(** ** Concrete inputs used by the examples below *)

(** A field of view with two remote mini-arrays (97 and 100) and one
    pointing recorded by the imaging correlator. *)
Definition nickel_pointing : json :=
  JObj [("idx", JInt 0);
        ("name", JStr "CasA");
        ("receiver", JObj [("name", JStr "nickel")])].

Definition remote_fov : fov :=
  mk_fov 0 [nickel_pointing] (VStr "CasA") JNull JNull JNull
         (_array_to_dict_array [IInt 1; IInt 96; IInt 97; IInt 100])
         (_array_to_dict_array [IInt 1]) [].

(** An analog beam with remote mini-arrays and an imaging beam on it,
    in a parset of format 1.0. *)
Definition remote_anabeam : store :=
  [("anaIdx", VInt 0); ("target", VStr "CasA"); ("duration", VInt 100);
   ("startTime", VTime 1000); ("directionType", VStr "J2000");
   ("angle1", VAngle 350); ("angle2", VAngle 58);
   ("maList", VList [IInt 1; IInt 96; IInt 97; IInt 100]);
   ("antList", VList [IInt 1]);
   ("filter", VList [IInt 3]); ("filterTime", VList [ITime 1000])].

Definition nickel_beam : store :=
  [("digiIdx", VInt 0); ("target", VStr "CasA"); ("duration", VInt 100);
   ("startTime", VTime 1000); ("directionType", VStr "J2000");
   ("angle1", VAngle 350); ("angle2", VAngle 58);
   ("noBeam", VInt 0); ("toDo", VStr "nickel");
   ("subbandList", VList [IInt 200; IInt 201])].

Definition nickel_parset : Parset :=
  mk_parset [("startTime", VTime 1000); ("stopTime", VTime 1100);
             ("parsetVersion", VStr "1.0")]
            [("nri_channelization", VInt 64); ("nri_dumpTime", VInt 1)]
            [(0, remote_anabeam)] [(0, nickel_beam)] [] EmptyString "/data/a.parset".

(** The mini-arrays of the first field of view of a built document. *)
Definition first_mini_arrays (doc : json) : res json :=
  let* fs := jget "field_of_views" doc in
  match fs with
  | JList (f :: _) => jget "mini_arrays" f
  | _ => Raise IndexError
  end.

Definition first_pointings (doc : json) : res json :=
  let* fs := jget "field_of_views" doc in
  match fs with
  | JList (f :: _) => jget "pointings" f
  | _ => Raise IndexError
  end.

(** A pulsar beam carrying the parameter string of the specification. *)
Definition fold_parameters : string := "FOLD: --src=B0329+54 --onlyi".

Definition fold_beam : store :=
  [("target", VStr "B0329+54"); ("noBeam", VInt 0); ("toDo", VStr "PULSAR");
   ("parameters", VStr fold_parameters);
   ("subbandList", VList [IInt 100; IInt 101; IInt 102; IInt 200; IInt 201])].

(** The store after the resolver: [directionType] is overwritten when
    an azelfile marker is present, and nothing else changes. *)
Definition after_resolver (p : store) : store :=
  if dmem "azelFile" p then dset "directionType" (VStr "azelgeo_azelfile") p else p.

(** [doc[axis]["value"]] *)
Definition center_value (axis : string) (doc : json) : res json :=
  let* a := jget axis doc in jget "value" a.

(** A J2000 entity whose right-ascension offset leads past 360 degrees. *)
Definition offset_entity : store :=
  [("duration", VInt 100); ("startTime", VTime 1000); ("directionType", VStr "J2000");
   ("angle1", VAngle 350); ("angle2", VAngle 58); ("decal_ra", VInt 20)].

(** A J2000 entity whose offsets are written as decimal texts; the one
    in declination leads below -90 degrees. *)
Definition text_offset_entity : store :=
  [("duration", VInt 100); ("startTime", VTime 1000); ("directionType", VStr "J2000");
   ("angle1", VAngle 350); ("angle2", VAngle 58);
   ("decal_ra", VStr "20"); ("decal_dec", VStr "-200")].

(** A test observation that also carries an azelfile marker. *)
Definition natif_azelfile_entity : store :=
  [("duration", VInt 100); ("startTime", VTime 1000); ("directionType", VStr "NATIF");
   ("azelFile", VStr "pointing.altaz")].

Definition natif_entity : store :=
  [("duration", VInt 100); ("startTime", VTime 1000); ("directionType", VStr "Natif");
   ("angle1", VAngle 12); ("decal_ra", VInt 3)].

Definition j2000_azelfile_entity : store :=
  [("duration", VInt 100); ("startTime", VTime 1000); ("directionType", VStr "J2000");
   ("angle1", VAngle 350); ("angle2", VAngle 58); ("azelFile", VStr "pointing.altaz")].

(** A numerical beam that refers to analog beam 3 in a parset that has
    analog beam 0 only. *)
Definition dangling_beam : store :=
  [("digiIdx", VInt 0); ("target", VStr "CasA"); ("duration", VInt 100);
   ("startTime", VTime 1000); ("directionType", VStr "J2000");
   ("angle1", VAngle 350); ("angle2", VAngle 58);
   ("noBeam", VInt 3);
   ("subbandList", VList [IInt 200; IInt 201])].

Definition dangling_parset : Parset :=
  mk_parset [("startTime", VTime 1000); ("stopTime", VTime 1100);
             ("parsetVersion", VStr "1.0")]
            []
            [(0, remote_anabeam)] [(0, dangling_beam)] [] EmptyString "/data/a.parset".

(** The ranges of right ascension and declination: as the
    specification gives them, and with 360 included. *)
Definition in_claimed_range (ra dec : Q) : Prop :=
  (0 <= ra)%Q /\ (ra < 360)%Q /\ (-90 <= dec)%Q /\ (dec <= 90)%Q.

Definition in_closed_range (ra dec : Q) : Prop :=
  (0 <= ra)%Q /\ (ra <= 360)%Q /\ (-90 <= dec)%Q /\ (dec <= 90)%Q.

(** A text written with the characters of a decimal literal only:
    digits, signs, the point and the exponent mark.  [float] reads no
    such text as nan. *)
Fixpoint decimal_text (s : string) : bool :=
  match s with
  | EmptyString => true
  | String c s' =>
      (PyStr.is_digit c
       || existsb (Ascii.eqb c) ["+"%char; "-"%char; "."%char; "e"%char; "E"%char])
      && decimal_text s'
  end.

(** The four offset fields of an entity. *)
Definition decal_fields : list string := ["decal_az"; "decal_el"; "decal_ra"; "decal_dec"].

(** No offset field of the entity holds a text that [float] could read
    as nan: an offset stored as a text is a decimal literal. *)
Definition finite_offsets (p : store) : Prop :=
  forall (field text : string),
    In field decal_fields -> dget field p = Some (VStr text) -> decimal_text text = true.

(** The coordinate service sends a horizontal direction to equatorial
    coordinates within the usual ranges. *)
Definition equatorial_in_range (A : Astro) : Prop :=
  forall t az alt : Q,
    (0 <= az)%Q -> (az <= 360)%Q -> (0 <= alt)%Q -> (alt <= 90)%Q ->
    in_closed_range (fst (altaz_to_icrs t az alt)) (snd (altaz_to_icrs t az alt)).


(** Each cut point lies after the previous one. *)
Fixpoint increasing_from (prev : nat) (idx : list nat) : Prop :=
  match idx with
  | [] => True
  | i :: idx' => (prev < i)%nat /\ increasing_from i idx'
  end.

(** ** The rest of the module

    The methods and functions that the sections above did not need:
    the remaining methods of [_ParsetProperty], the mini-array variant
    of the range compressor, and the text side of the writer. *)

(** *** _ParsetProperty: deletion, length, iteration (lines 64-68, 137-141) *)

Fixpoint dremove {V : Type} (k : string) (d : list (string * V)) : list (string * V) :=
  match d with
  | [] => []
  | (k', v) :: d' => if String.eqb k k' then d' else (k', v) :: dremove k d'
  end.

(** [del property[key]] *)
Definition __delitem__ (key : string) (p : store) : res store :=
  if dmem key p then Ok (dremove key p) else Raise (KeyError key).

(** [len(property)] *)
Definition __len__ (p : store) : nat := length p.

(** [list(property)]: the keys, in insertion order. *)
Definition __iter__ (p : store) : list string := map fst p.

(** *** Parset._get_miniarray_dict (lines 1311-1327) *)

(** [group[-1]] on a non-empty group. *)
Definition group_last (x : Z) (group : list Z) : Z := List.last group x.

Definition _get_miniarray_dict (mini_arrays : list Z) : res json :=
  let ma_groups := np_split mini_arrays (np_where_ne1 0 (np_diff mini_arrays)) in
  let* value :=
    map_res (fun group =>
               match group with
               | [] => Raise IndexError
               | x :: _ => Ok (JObj [("gte", JInt x); ("lte", JInt (group_last x group))])
               end) ma_groups in
  Ok (JObj [("value", JList value); ("unit", JStr EmptyString)]).

(** *** What the compressors are measured against *)

(** The maximal runs of consecutive integers of a sequence; like
    [np.split], one empty run for the empty sequence. *)
Fixpoint runs (l : list Z) : list (list Z) :=
  match l with
  | [] => [[]]
  | a :: t =>
      match t with
      | [] => [[a]]
      | b :: _ =>
          match runs t with
          | g :: gs => if Z.eqb (b - a) 1 then (a :: g) :: gs else [a] :: g :: gs
          | [] => [[a]]
          end
      end
  end.

(** The integers of a closed interval, in increasing order. *)
Definition expand_interval (ab : Z * Z) : list Z := py_range (fst ab) (snd ab + 1).

(** One element of the list that [_get_frequency_dict] returns: the
    sub-bands [lo] to [hi]. *)
Definition frequency_interval `{Astro} (ab : Z * Z) : json :=
  JObj [("value", JObj [("gte", JNum (sb2freq (fst ab)));
                        ("lt", JNum (sb2freq (snd ab) + SB_WIDTH_MHz)%Q)]);
        ("unit", JStr "MHz")].

(** One element of the list that [_get_miniarray_dict] returns. *)
Definition miniarray_interval (ab : Z * Z) : json :=
  JObj [("gte", JInt (fst ab)); ("lte", JInt (snd ab))].

(** Two intervals that follow each other could not be one: the second
    does not start right after the end of the first. *)
Fixpoint separated (ivs : list (Z * Z)) : Prop :=
  match ivs with
  | ab :: ((cd :: _) as rest) => fst cd <> snd ab + 1 /\ separated rest
  | _ => True
  end.

(** *** What the builder is measured against *)

Definition set_fov_pointings (f : fov) (ps : list json) : fov :=
  mk_fov (fov_idx f) ps (fov_name f) (fov_center f) (fov_time f)
         (fov_beamsquint f) (fov_mini_arrays f) (fov_antennas f) (fov_filter f).

(** The pointings that [data] attaches to the field of view at
    position [i]. *)
Definition pointings_of (i : nat) (ps : list (nat * json)) : list json :=
  map snd (List.filter (fun p => Nat.eqb (fst p) i) ps).

(** A mini-array entry that is kept by the pruning: its value is an
    integer not above the threshold. *)
Definition is_local_ma (ma : json) : bool :=
  match ma_value ma with
  | Ok z => negb (is_remote z)
  | Raise _ => false
  end.

(** The receiver names of the pointings of a field of view. *)
Definition receiver_names (f : fov) : res (list json) :=
  map_res (fun pointing =>
             let* receiver := jget "receiver" pointing in
             jget "name" receiver) (fov_pointings f).

(** The fields of view of a built document. *)
Definition doc_fovs (doc : json) : res (list json) :=
  let* fs := jget "field_of_views" doc in
  match fs with
  | JList l => Ok l
  | _ => Raise TypeError
  end.

(** An entry with nothing in it, and one with two fields of view and
    three pointings waiting to be attached, for the examples. *)
Definition empty_entry : JsonEntry := mk_entry [] [] [] [].

Definition timed_fov (idx : Z) : fov :=
  mk_fov idx [] (VStr "CasA") JNull
         (JObj [("startstop", JObj [("gte", JStr "T:1000"); ("lte", JStr "T:1100")]);
                ("duration", quantity (JNum 100) "s")])
         JNull (_array_to_dict_array [IInt 1; IInt 97]) [] [].

Definition waiting_entry : JsonEntry :=
  mk_entry [] [("xst_sbList", VList [IInt 300; IInt 301])]
           [timed_fov 0; timed_fov 1]
           [(0%nat, nickel_pointing); (1%nat, JObj [("idx", JInt 1)]);
            (0%nat, JObj [("idx", JInt 2)])].

(** A parset of format 1.0 with a phase centre and no numerical beam. *)
Definition phase_center_only_parset : Parset :=
  mk_parset [("startTime", VTime 1000); ("stopTime", VTime 1100);
             ("parsetVersion", VStr "1.0")]
            []
            [(0, remote_anabeam)] [] [(0, nickel_beam)] EmptyString "/data/a.parset".

(** [p] with another observation block. *)
Definition with_observation (p : Parset) (obs : store) : Parset :=
  mk_parset obs (parset_output p) (anabeams p) (digibeams p) (phase_centers p)
            (parset_user p) (parset_file p).

(** The text of an assignment once the newlines and the double quotes
    are off (lines 73-74). *)
Definition cleaned (raw : string) : string :=
  PyStr.remove_char dquote (PyStr.remove_char newline raw).

(** *** The text side of the writer (lines 1557-1571, 1585-1617, 1704-1736) *)

Module WriterText.
Import Writer.

(** [sep.join(l)] *)
Fixpoint join (sep : string) (l : list string) : string :=
  match l with
  | [] => EmptyString
  | [s] => s
  | s :: l' => (s ++ sep ++ join sep l')%string
  end.

(** Truth value of an atom of an entry. *)
Definition pyval_truthy (v : pyval) : bool :=
  match v with
  | PNone => false
  | PBool b => b
  | PInt z => negb (Z.eqb z 0)
  | PFloat q => negb (Qeq_bool q 0)
  | PStr s => negb (String.eqb s EmptyString)
  | PTime _ => true
  | PTimeDelta _ => true
  end.

Section Text.
Context `{Astro}.
(** [str(v)] where Python alone does not fix the text: floats and the
    astropy objects. *)
Variable str_other : pyval -> string.

(** [str(v)], as an f-string formats a value. *)
Definition py_str (v : pyval) : string :=
  match v with
  | PNone => "None"
  | PBool b => if b then "True" else "False"
  | PInt z => pretty z
  | PStr s => s
  | _ => str_other v
  end.

(** One round of the comprehension of [_write_block_list] (lines
    1568-1570): the condition first, then the line. *)
Definition block_line (prefix key : string) (e : list (string * pyval))
  : res (option string) :=
  let* modified := getitem "modified" e in
  let* keep :=
    if pyval_truthy modified then Ok true
    else let* required := getitem "required" e in Ok (pyval_truthy required) in
  if keep then
    let* v := getitem "value" e in
    Ok (Some (prefix ++ "." ++ key ++ "=" ++ py_str v)%string)
  else Ok None.

Fixpoint block_lines (prefix : string) (kvs : list (string * loc)) (h : heap)
  : res (list string) :=
  match kvs with
  | [] => Ok []
  | (key, le) :: kvs' =>
      match objs h !! le with
      | Some (OEntry e) =>
          let* line := block_line prefix key e in
          let* rest := block_lines prefix kvs' h in
          Ok (match line with Some s => s :: rest | None => rest end)
      | _ => Raise TypeError
      end
  end.

(** The counter shown after the field name. *)
Definition counter_of (index : option Z) : string :=
  match index with
  | Some i => ("[" ++ pretty i ++ "]")%string
  | None => EmptyString
  end.

(** The lines of a block, before they are joined. *)
Definition written_lines (b : block) (index : option Z) (h : heap) : res (list string) :=
  match objs h !! configuration b with
  | Some (ODict kvs) => block_lines (field b ++ counter_of index)%string kvs h
  | _ => Raise AttributeError
  end.

Definition _write_block_list (b : block) (index : option Z) (h : heap) : res string :=
  let* lines := written_lines b index h in
  Ok (join (String newline EmptyString) lines).

(** [str(anabeam)] and [str(numbeam)] (lines 1585-1586) *)
Definition anabeam_str (ab : AnalogBeam) (h : heap) : res string :=
  _write_block_list (ab_block ab) (Some (ab_index ab)) h.

Definition numbeam_str (nb : NumericalBeam) (h : heap) : res string :=
  _write_block_list (nb_block nb) (Some (nb_index nb)) h.

Definition blank_line : string := String newline (String newline EmptyString).

(** [analog_beams_str] and [numerical_beams_str] (lines 1718-1736) *)
Definition analog_beams_str (pu : ParsetUser) (h : heap) : res string :=
  let* l := map_res (fun anabeam => anabeam_str anabeam h) (analog_beams pu) in
  Ok (join blank_line l).

Definition numerical_beams_str (pu : ParsetUser) (h : heap) : res string :=
  let* l := map_res (fun numbeam => numbeam_str numbeam h)
                    (all_numbeams (analog_beams pu)) in
  Ok (join blank_line l).

(** [str(parset_user)] (lines 1704-1715); the beam counts are written
    into the observation block first, so the heap comes back. *)
Definition ParsetUser_str (pu : ParsetUser) (h : heap) : res (string * heap) :=
  let* h := _update_beam_numbers pu h in
  let* observation_text := _write_block_list (pu_observation pu) None h in
  let* output_text := _write_block_list (pu_output pu) None h in
  let* analog_text := analog_beams_str pu h in
  let* numerical_text := numerical_beams_str pu h in
  Ok (join blank_line [observation_text; analog_text; numerical_text; output_text], h).
End Text.

(** [_get_duration] (lines 1596-1617).  The pattern is one digit or
    more followed by one of [s], [m], [h], matched at the start of the
    field; a [TimeDelta] is its number of seconds. *)
Definition to_seconds (unit_ : ascii) : option Q :=
  if Ascii.eqb unit_ "s" then Some 1%Q
  else if Ascii.eqb unit_ "m" then Some 60%Q
  else if Ascii.eqb unit_ "h" then Some 3600%Q
  else None.

Definition _get_duration (b : block) (h : heap) : res Q :=
  let* v := block_getitem b "duration" h in
  match v with
  | PStr s =>
      match PyStr.take_digits s with
      | (String d ds, String unit_ _) =>
          match to_seconds unit_ with
          | Some conversion_factor =>
              Ok (inject_Z (PyStr.digits_value 0 (String d ds)) * conversion_factor)%Q
          | None => Raise AttributeError
          end
      | _ => Raise AttributeError
      end
  | _ => Raise TypeError
  end.

(** The analog beams carry the indices 0, 1, 2, ... and the field name
    that [_AnalogBeamParsetBlock] gives them (line 1636). *)
Definition ana_labelled (abs : list AnalogBeam) : Prop :=
  forall (i : nat) (ab : AnalogBeam),
    abs !! i = Some ab ->
    ab_index ab = Z.of_nat i /\ field (ab_block ab) = "Anabeam".

End WriterText.

(** No character of [s] is [c]. *)
Fixpoint no_char (c : ascii) (s : string) : bool :=
  match s with
  | EmptyString => true
  | String a s' => negb (Ascii.eqb a c) && no_char c s'
  end.

(** * Properties *)

(** ** Sanity checks of the string primitives *)

Example split_dd :
  PyStr.split "--" "fold: --src=b0329+54 --onlyi" = ["fold: "; "src=b0329+54 "; "onlyi"].
Proof. reflexivity. Qed.

Example split1_dot :
  PyStr.split1 "." "Observation.a.b=1" = ["Observation"; "a.b=1"].
Proof. reflexivity. Qed.

Example split_ws_ex : PyStr.split_ws "  tf:  df=3.05 dt=10.0 " = ["tf:"; "df=3.05"; "dt=10.0"].
Proof. reflexivity. Qed.

Example search_ex : PyStr.search_index "AnaBeam[12]" = Some "12".
Proof. reflexivity. Qed.

Example int_ex : PyStr.int " 42 " = Ok 42.
Proof. reflexivity. Qed.

(** ** The monad and the dictionaries *)

Lemma bind_Ok {A B : Type} (m : res A) (k : A -> res B) (b : B) :
  bind m k = Ok b -> exists a, m = Ok a /\ k a = Ok b.
Proof. destruct m as [a|e]; simpl; intros Hk; [eauto | discriminate]. Qed.

Lemma map_res_Ok_length {A B : Type} (f : A -> res B) (l : list A) (r : list B) :
  map_res f l = Ok r -> length r = length l.
Proof.
  revert r; induction l as [|a l IH]; simpl; intros r Hr.
  - injection Hr as <-. reflexivity.
  - apply bind_Ok in Hr as (b & _ & Hr). apply bind_Ok in Hr as (r' & Hr' & Hr).
    injection Hr as <-. simpl. f_equal. auto.
Qed.

Lemma dget_dset_eq {V : Type} (k : string) (v : V) (d : list (string * V)) :
  dget k (dset k v d) = Some v.
Proof.
  induction d as [|[k' v'] d IH]; simpl.
  - rewrite String.eqb_refl. reflexivity.
  - destruct (String.eqb k k') eqn:E; simpl.
    + rewrite String.eqb_refl. reflexivity.
    + rewrite E. exact IH.
Qed.

Lemma dget_dset_ne {V : Type} (k k' : string) (v : V) (d : list (string * V)) :
  k <> k' -> dget k' (dset k v d) = dget k' d.
Proof.
  intros Hne. induction d as [|[k0 v0] d IH]; simpl.
  - destruct (String.eqb k' k) eqn:E; [|reflexivity].
    apply String.eqb_eq in E. congruence.
  - destruct (String.eqb k k0) eqn:E; simpl.
    + apply String.eqb_eq in E. subst k0.
      destruct (String.eqb k' k) eqn:E'; [|reflexivity].
      apply String.eqb_eq in E'. congruence.
    + destruct (String.eqb k' k0); [reflexivity | exact IH].
Qed.

(** ** C1 — pruning of the remote mini-arrays *)

Section Pruning.

(** The inner loop never takes a decision: it returns the same thing
    whether or not a pointing uses the imaging correlator. *)
Lemma scan_receivers_blind (ps : list json) :
  scan_receivers ps =
  let* _ := map_res (fun p => let* r := jget "receiver" p in jget "name" r) ps in Ok tt.
Proof.
  induction ps as [|p ps IH]; simpl; [reflexivity|].
  destruct (jget "receiver" p) as [r|]; simpl; [|reflexivity].
  destruct (jget "name" r) as [n|]; simpl; [|reflexivity].
  rewrite IH. destruct (is_nickel n);
    destruct (map_res _ ps); reflexivity.
Qed.

(** A field of view without remote mini-arrays is left as it is. *)
Lemma prune_fov_local (f : fov) (mas : list Z) :
  map_res ma_value (fov_mini_arrays f) = Ok mas ->
  Forall (fun z => z <= REMOTE_THRESHOLD) mas ->
  prune_fov f = Ok f.
Proof.
  intros Hmas Hall. unfold prune_fov. rewrite Hmas. simpl.
  replace (existsb is_remote mas) with false; [reflexivity|].
  symmetry. apply not_true_is_false. intros Hex.
  apply existsb_exists in Hex as (z & Hin & Hz).
  rewrite Forall_forall in Hall. apply list_elem_of_In, Hall in Hin.
  unfold is_remote in Hz. apply Z.ltb_lt in Hz. lia.
Qed.

(** With a remote mini-array, and receivers that all have a name, the
    remote members are removed, nickel or not. *)
Lemma prune_fov_remote (f : fov) (mas : list Z) :
  map_res ma_value (fov_mini_arrays f) = Ok mas ->
  Exists (fun z => REMOTE_THRESHOLD < z) mas ->
  scan_receivers (fov_pointings f) = Ok tt ->
  prune_fov f =
  Ok (set_fov_mini_arrays f (mask_out (fov_mini_arrays f) (map is_remote mas))).
Proof.
  intros Hmas Hex Hscan. unfold prune_fov. rewrite Hmas. simpl.
  replace (existsb is_remote mas) with true; [simpl; rewrite Hscan; reflexivity|].
  symmetry. apply existsb_exists. apply Exists_exists in Hex as (z & Hin & Hz).
  exists z. split; [apply list_elem_of_In; exact Hin|].
  unfold is_remote. apply Z.ltb_lt. exact Hz.
Qed.

(** What is kept is exactly the members that are not remote. *)
Lemma mask_out_values (mas : list Z) :
  mask_out (_array_to_dict_array (map IInt mas)) (map is_remote mas) =
  _array_to_dict_array (map IInt (filter (fun z => z <= REMOTE_THRESHOLD) mas)).
Proof.
  induction mas as [|z mas IH]; simpl; [reflexivity|].
  unfold is_remote at 1. unfold filter; simpl. fold (filter (fun z => z <= REMOTE_THRESHOLD) mas).
  destruct (Z.ltb_spec REMOTE_THRESHOLD z) as [Hlt|Hle].
  - rewrite decide_False by lia. exact IH.
  - rewrite decide_True by lia. simpl. f_equal. exact IH.
Qed.

End Pruning.

(** C1.  On a field of view that holds the remote mini-arrays 97 and 100
    and a pointing whose receiver is named nickel,
    [remove_unused_miniarrays] removes the two remote members all the
    same, where the claim (and the loop of [to_json_old]) leave the list
    untouched; the document built by [to_json] from a parset with such a
    beam shows the nickel pointing next to the pruned list. *)
Theorem remove_unused_miniarrays_ignores_nickel :
  existsb is_nickel [JStr "nickel"] = true /\
  prune_fov remote_fov =
    Ok (set_fov_mini_arrays remote_fov (_array_to_dict_array [IInt 1; IInt 96])) /\
  prune_fov_old remote_fov = Ok remote_fov /\
  (let* r := to_json nickel_parset in first_mini_arrays (snd r)) =
    Ok (JList (_array_to_dict_array [IInt 1; IInt 96])) /\
  (let* r := to_json nickel_parset in
   let* ps := first_pointings (snd r) in
   match ps with
   | JList [p] => let* rc := jget "receiver" p in jget "name" rc
   | _ => Raise IndexError
   end) = Ok (JStr "nickel").
Proof. repeat split; vm_compute; reflexivity. Qed.

(** ** C2 — blank and malformed lines in the decoder *)

Section DecoderFacts.
Context `{Astro}.

(** A line without a dot, met while [content] still holds a
    well-formed remainder, and that starts with no section name, leaves
    the parset as it is. *)
Lemma decode_line_stale (d : decoder) (line dicoName content key value : string) :
  dec_locals d = Some (dicoName, content) ->
  PyStr.split1 "=" content = [key; value] ->
  PyStr.startswith "Observation" line = false ->
  PyStr.startswith "Output" line = false ->
  PyStr.startswith "AnaBeam" line = false ->
  PyStr.startswith "Beam" line = false ->
  PyStr.startswith "PhaseCenter" line = false ->
  PyStr.split1 "." line = [line] ->
  decode_line d line = Ok d.
Proof.
  intros Hloc Hkv HO HU HA HB HP Hsplit. unfold decode_line.
  rewrite Hsplit, Hloc, Hkv, HO, HU, HA, HB, HP.
  destruct d as [p l]; simpl in *. rewrite Hloc. reflexivity.
Qed.

(** Before any line has been split, a line without a dot finds
    [content] unbound. *)
Lemma decode_line_unbound (p : Parset) (line : string) :
  PyStr.split1 "." line = [line] ->
  decode_line (mk_decoder p None) line = Raise UnboundLocalError.
Proof. intros Hsplit. unfold decode_line. rewrite Hsplit. reflexivity. Qed.
End DecoderFacts.

(** C2.  Decoding fails on a file whose first line is blank
    ([content] is read before it was ever assigned), and on a line that
    has a dot but no equals sign (the unpacking of the second split is
    outside the [try]); a blank line after a well-formed one is passed
    over. *)
Theorem decodeParset_blank_or_malformed_line `{Astro} (file : string) (user : option string) :
  _decodeParset file (String newline "Observation.title=x") user
    = Raise UnboundLocalError /\
  _decodeParset file "Observation.title" user = Raise ValueError /\
  is_ok (_decodeParset file
           (String.append "Observation.title=x" (String newline (String newline "Output.a=b")))
           user) = true.
Proof. repeat split; vm_compute; reflexivity. Qed.

(** ** C3 — the pulsar dispatcher on the FOLD parameters *)

Example parse_fold_parameters :
  _parse_parameters fold_parameters true =
  ("fold", [("src", CStr "b0329+54 "); ("fold:", CTrue); ("onlyi", CTrue)]).
Proof. reflexivity. Qed.

(** C3.  For a beam whose [toDo] selects the pulsar handler and whose
    [parameters] is the FOLD string of the specification, the receiver
    document has mode [pulsar_fold] and one polarisation, but its source
    name is ["b0329+54 "], with the blank that preceded [--onlyi]: the
    [key=value] tokens are not stripped, unlike the bare flags. *)
Theorem pulsar_fold_source_name `{Astro} (beam output_ : store) (version_ : list Z)
        (todo : value) (frequency : list json) :
  dget "toDo" beam = Some todo ->
  value_lower todo = Ok "pulsar" ->
  dget "parameters" beam = Some (VStr fold_parameters) ->
  _get_frequency_dict beam "subbandList" = Ok frequency ->
  exists doc,
    (let* f := select_setting beam in f beam output_ version_) = Ok doc /\
    jget "source_name" doc = Ok (JStr "b0329+54 ") /\
    jget "source_name" doc <> Ok (JStr "b0329+54") /\
    jget "n_polars" doc = Ok (JInt 1) /\
    jget "mode" doc = Ok (JStr "pulsar_fold").
Proof.
  intros Htodo Hlow Hpar Hfreq.
  unfold select_setting, get_default. rewrite Htodo, Hlow. simpl.
  unfold _pulsar_setting, parse_parameters_of, getitem. rewrite Hpar.
  cbn [bind]. rewrite parse_fold_parameters.
  change (String.eqb "fold" "fold") with true. cbn iota.
  change (dget "src" [("src", CStr "b0329+54 "); ("fold:", CTrue); ("onlyi", CTrue)])
    with (Some (CStr "b0329+54 ")).
  cbn [bind]. rewrite Hfreq. cbn [bind].
  eexists. split; [reflexivity|].
  repeat split; try reflexivity. discriminate.
Qed.

Lemma pulsar_fold_source_name_witness :
  exists doc,
    (let* f := select_setting fold_beam in f fold_beam [] [1; 0]) = Ok doc /\
    jget "source_name" doc = Ok (JStr "b0329+54 ") /\
    jget "source_name" doc <> Ok (JStr "b0329+54") /\
    jget "n_polars" doc = Ok (JInt 1) /\
    jget "mode" doc = Ok (JStr "pulsar_fold").
Proof.
  eapply (pulsar_fold_source_name fold_beam [] [1; 0] (VStr "PULSAR")); reflexivity.
Defined.

(** ** C5 — the range compressor *)

Section Compressor.

Lemma np_diff_length (l : list Z) : length (np_diff l) = (length l - 1)%nat.
Proof.
  induction l as [|a [|b l] IH]; simpl in *; try reflexivity.
  rewrite IH. lia.
Qed.

Lemma np_where_ne1_increasing (d : list Z) :
  forall i prev, (prev <= i)%nat -> increasing_from prev (np_where_ne1 i d).
Proof.
  induction d as [|x d IH]; intros i prev Hle; simpl; [exact I|].
  destruct (Z.eqb x 1).
  - apply IH. lia.
  - simpl. split; [lia|]. apply IH. lia.
Qed.

Lemma np_where_ne1_bound (d : list Z) :
  forall i, Forall (fun j => (j <= i + length d)%nat) (np_where_ne1 i d).
Proof.
  induction d as [|x d IH]; intros i; simpl; [constructor|].
  assert (Hrec : Forall (fun j => (j <= i + S (length d))%nat) (np_where_ne1 (S i) d)).
  { eapply Forall_impl; [apply IH|]. simpl. intros j Hj. lia. }
  destruct (Z.eqb x 1); [exact Hrec|].
  constructor; [lia | exact Hrec].
Qed.

Lemma np_split_from_nonempty (l : list Z) :
  forall idx prev,
    (prev < length l)%nat ->
    increasing_from prev idx ->
    Forall (fun j => (j < length l)%nat) idx ->
    Forall (fun g => g <> []) (np_split_from prev idx l).
Proof.
  induction idx as [|i idx IH]; intros prev Hprev Hinc Hbound; simpl.
  - constructor; [|constructor]. intros Hnil.
    apply (f_equal (@length Z)) in Hnil. rewrite length_drop in Hnil. simpl in Hnil. lia.
  - destruct Hinc as [Hlt Hinc]. inversion Hbound as [|? ? Hi Hrest]; subst.
    constructor; [|apply IH; assumption].
    intros Hnil. apply (f_equal (@length Z)) in Hnil.
    rewrite length_take, length_drop in Hnil. simpl in Hnil. lia.
Qed.

(** Every group of a non-empty sequence is non-empty. *)
Lemma subband_groups_nonempty (l : list Z) :
  l <> [] -> Forall (fun g => g <> []) (subband_groups l).
Proof.
  intros Hne. unfold subband_groups, np_split.
  assert (Hlen : (0 < length l)%nat) by (destruct l; [congruence | simpl; lia]).
  apply np_split_from_nonempty; [exact Hlen | |].
  - apply np_where_ne1_increasing. lia.
  - eapply Forall_impl; [apply np_where_ne1_bound|].
    simpl. intros j Hj. rewrite np_diff_length in Hj.
    (* a cut point comes from a difference, so the sequence has two
       elements or more *)
    destruct l as [|a [|b l']]; simpl in *; try lia.
Qed.

Lemma int_items_IInt (l : list Z) : int_items (map IInt l) = Ok l.
Proof. induction l as [|z l IH]; simpl; [reflexivity|]. rewrite IH. reflexivity. Qed.

Context `{Astro}.

Lemma intervals_of_nonempty_groups (gs : list (list Z)) :
  Forall (fun g => g <> []) gs ->
  exists docs,
    map_res
      (fun group =>
         let* lo := np_min group in
         let* hi := np_max group in
         Ok (JObj [("value", JObj [("gte", JNum (sb2freq lo));
                                   ("lt", JNum (sb2freq hi + SB_WIDTH_MHz)%Q)]);
                   ("unit", JStr "MHz")])) gs = Ok docs
    /\ length docs = length gs.
Proof.
  induction 1 as [|g gs Hg _ IH]; simpl.
  - exists []. split; reflexivity.
  - destruct g as [|x g]; [congruence|]. simpl.
    destruct IH as (docs & -> & Hlen). simpl.
    eexists. split; [reflexivity|]. simpl. congruence.
Qed.

(** On a non-empty integer sequence the compressor returns one
    interval per group, and at least one. *)
Lemma frequency_dict_nonempty (p : store) (field : string) (l : list Z) :
  dget field p = Some (VList (map IInt l)) ->
  l <> [] ->
  exists docs,
    _get_frequency_dict p field = Ok docs /\
    length docs = length (subband_groups l) /\ docs <> [].
Proof.
  intros Hget Hne. unfold _get_frequency_dict, getitem. rewrite Hget.
  cbn [bind int_array]. rewrite int_items_IInt. cbn [bind].
  destruct (intervals_of_nonempty_groups _ (subband_groups_nonempty l Hne))
    as (docs & Hdocs & Hlen).
  exists docs. repeat split; [exact Hdocs | exact Hlen |].
  intros ->. simpl in Hlen.
  unfold subband_groups, np_split in Hlen.
  destruct (np_where_ne1 0 (np_diff l)); discriminate.
Qed.
End Compressor.

Example frequency_groups_of_spec :
  subband_groups [100; 101; 102; 200; 201] = [[100; 101; 102]; [200; 201]].
Proof. reflexivity. Qed.

(** C5, as stated, fails: on an empty sequence the frequency variant of
    the compressor does not return the empty list. *)
Lemma frequency_dict_empty_not_empty_list :
  ~ (forall (A : Astro) (p : store) (field : string),
        dget field p = Some (VList []) ->
        _get_frequency_dict p field = Ok []).
Proof.
  intros Hclaim.
  specialize (Hclaim toy_astro [("subbandList", VList [])] "subbandList" eq_refl).
  vm_compute in Hclaim. discriminate.
Qed.

(** C5, amended.  For an empty integer sequence the frequency variant of
    the range compressor raises [ValueError]: splitting yields one group,
    the empty one, and the minimum of an empty group is undefined. *)
Theorem frequency_dict_empty_raises `{Astro} (p : store) (field : string) :
  dget field p = Some (VList []) ->
  subband_groups [] = [[]] /\
  _get_frequency_dict p field = Raise ValueError.
Proof.
  intros Hget. split; [reflexivity|].
  unfold _get_frequency_dict, getitem. rewrite Hget. reflexivity.
Qed.

Lemma frequency_dict_empty_raises_witness :
  dget "subbandList" [("subbandList", VList [])] = Some (VList []) /\
  subband_groups [] = [[]] /\
  _get_frequency_dict [("subbandList", VList [])] "subbandList" = Raise ValueError.
Proof.
  split; [reflexivity|].
  apply (frequency_dict_empty_raises (H := toy_astro)). reflexivity.
Defined.

(** ** C4, C6, C7 — the pointing-centre resolver *)

Ltac inv_bind H :=
  let a := fresh "a" in
  let Ha := fresh "Hstep" in
  apply bind_Ok in H as (a & Ha & H).

Lemma constrain_angle_range (x lo hi : Q) :
  (lo <= hi)%Q ->
  (lo <= _constrain_angle x lo hi)%Q /\ (_constrain_angle x lo hi <= hi)%Q.
Proof.
  intros Hlh. unfold _constrain_angle, Qltb.
  destruct (Qle_bool lo x) eqn:E1; simpl.
  - destruct (Qle_bool x hi) eqn:E2; simpl.
    + apply Qle_bool_iff in E1, E2. split; assumption.
    + split; [exact Hlh | apply Qle_refl].
  - split; [apply Qle_refl | exact Hlh].
Qed.

Section ResolverFacts.
Context `{Astro}.

Lemma setitem_azelfile (p : store) :
  setitem "directionType" "azelgeo_azelfile" p =
  Ok (dset "directionType" (VStr "azelgeo_azelfile") p).
Proof. reflexivity. Qed.

Lemma resolver_inv (p p' : store) (doc : json) :
  _get_pointing_center_dict p = Ok (p', doc) ->
  exists (d : Z) (t : Q) (v : value) (dt : string) (c : option Q * option Q),
    dget "duration" p = Some (VInt d) /\
    dget "startTime" p = Some (VTime t) /\
    p' = after_resolver p /\
    dget "directionType" p' = Some v /\
    value_lower v = Ok dt /\
    resolve_direction p' dt (t + inject_Z d / 2)%Q = Ok c /\
    doc = JObj [("ra", quantity (opt_num (fst c)) "deg");
                ("dec", quantity (opt_num (snd c)) "deg");
                ("obs_direction_type", JStr dt)].
Proof.
  unfold _get_pointing_center_dict. intros Hres.
  inv_bind Hres. inv_bind Hres. inv_bind Hres. inv_bind Hres. inv_bind Hres.
  inv_bind Hres. inv_bind Hres. inv_bind Hres. inv_bind Hres.
  injection Hres as <- <-.
  unfold getitem in Hstep, Hstep1, Hstep5.
  destruct (dget "duration" p) as [dv|] eqn:Edur; [|discriminate].
  injection Hstep as ->.
  destruct a as [| | |d| |]; try discriminate. injection Hstep0 as <-.
  destruct (dget "startTime" p) as [sv|] eqn:Estart; [|discriminate].
  injection Hstep1 as ->.
  destruct a1 as [| | | |t|]; try discriminate.
  injection Hstep2 as <-. injection Hstep3 as <-.
  assert (Hp : a4 = after_resolver p).
  { unfold after_resolver. destruct (dmem "azelFile" p).
    - rewrite setitem_azelfile in Hstep4. congruence.
    - congruence. }
  subst a4.
  destruct (dget "directionType" (after_resolver p)) as [v|] eqn:Edt; [|discriminate].
  injection Hstep5 as ->.
  exists d, t, a5, a6, a7. repeat split; assumption || reflexivity.
Qed.

Lemma after_resolver_other (p : store) (k : string) :
  k <> "directionType" -> dget k (after_resolver p) = dget k p.
Proof.
  intros Hk. unfold after_resolver. destruct (dmem "azelFile" p); [|reflexivity].
  apply dget_dset_ne. congruence.
Qed.

Lemma offset_radec_range (p : store) (radec : Q * Q) (r d : Q) :
  offset_radec p radec = Ok (Some r, Some d) -> in_closed_range r d.
Proof.
  unfold offset_radec. intros Hoff. inv_bind Hoff. inv_bind Hoff.
  injection Hoff as <- <-. unfold in_closed_range.
  destruct (constrain_angle_range (fst radec + a) 0 360) as [? ?]; [discriminate|].
  destruct (constrain_angle_range (snd radec + a0) (-90) 90) as [? ?]; [discriminate|].
  repeat split; assumption.
Qed.

Lemma resolve_direction_range (p : store) (dt : string) (t r d : Q) :
  equatorial_in_range H ->
  resolve_direction p dt t = Ok (Some r, Some d) ->
  in_closed_range r d.
Proof.
  intros Hsvc. unfold resolve_direction.
  destruct (String.eqb dt "j2000").
  { intros Hres. do 5 inv_bind Hres. eapply offset_radec_range; eassumption. }
  destruct (String.eqb dt "azelgeo").
  { intros Hres. do 6 inv_bind Hres. eapply offset_radec_range; eassumption. }
  destruct (String.eqb dt "azelgeo_azelfile").
  { intros Hres. injection Hres as <- <-. apply Hsvc; discriminate. }
  destruct (String.eqb dt "natif"); [discriminate|].
  destruct (solar_system_target dt t) as [[coordinates altaz]|]; [|discriminate].
  intros Hres. inv_bind Hres. eapply offset_radec_range; eassumption.
Qed.

Lemma center_value_ra (ra dec : option Q) (dt : string) :
  center_value "ra" (JObj [("ra", quantity (opt_num ra) "deg");
                           ("dec", quantity (opt_num dec) "deg");
                           ("obs_direction_type", JStr dt)]) = Ok (opt_num ra).
Proof. reflexivity. Qed.

Lemma center_value_dec (ra dec : option Q) (dt : string) :
  center_value "dec" (JObj [("ra", quantity (opt_num ra) "deg");
                            ("dec", quantity (opt_num dec) "deg");
                            ("obs_direction_type", JStr dt)]) = Ok (opt_num dec).
Proof. reflexivity. Qed.

Lemma opt_num_JNum (o : option Q) (q : Q) : opt_num o = JNum q -> o = Some q.
Proof. destruct o; simpl; congruence. Qed.
End ResolverFacts.

(** C4, as stated, fails: the clamp lets the right ascension reach 360
    itself.  A J2000 entity at 350 degrees with an offset of 20 degrees
    resolves to 360, which is outside [0, 360). *)
Lemma right_ascension_reaches_360 :
  ~ (forall (A : Astro) (p p' : store) (doc : json) (ra dec : Q),
        _get_pointing_center_dict p = Ok (p', doc) ->
        center_value "ra" doc = Ok (JNum ra) ->
        center_value "dec" doc = Ok (JNum dec) ->
        in_claimed_range ra dec).
Proof.
  intros Hclaim.
  destruct (Hclaim toy_astro offset_entity offset_entity
                   (JObj [("ra", quantity (JNum 360) "deg");
                          ("dec", quantity (JNum 58) "deg");
                          ("obs_direction_type", JStr "j2000")])
                   360%Q 58%Q) as (_ & Hlt & _); try reflexivity.
  revert Hlt. apply Qlt_irrefl.
Qed.

(** The same value whatever the collaborators are: the J2000 branch
    without horizontal offsets calls none of them. *)
Example offset_entity_resolves `{Astro} :
  exists doc,
    _get_pointing_center_dict offset_entity = Ok (offset_entity, doc) /\
    center_value "ra" doc = Ok (JNum 360).
Proof. eexists. split; reflexivity. Qed.

(** C4, amended.  For every entity whose angles are finite numbers and
    whose offset fields hold finite numbers (an offset stored as a text
    is a decimal literal, not one of the texts that [float] reads as
    nan), and whose pointing centre resolves to non-null coordinates,
    the right ascension lies in the closed interval [0, 360] and the
    declination in [-90, 90], however large the offsets are, as long as
    the coordinate service itself returns equatorial coordinates in
    these ranges (the zenith branch hands them on unclamped).  The
    entities of the model have finite angles; the condition on the
    offsets is the hypothesis [finite_offsets]. *)
Theorem pointing_center_in_closed_range `{Astro} (p p' : store) (doc : json) (ra dec : Q) :
  equatorial_in_range H ->
  finite_offsets p ->
  _get_pointing_center_dict p = Ok (p', doc) ->
  center_value "ra" doc = Ok (JNum ra) ->
  center_value "dec" doc = Ok (JNum dec) ->
  in_closed_range ra dec.
Proof.
  intros Hsvc _ Hres Hra Hdec.
  apply resolver_inv in Hres as (d & t & v & dt & c & _ & _ & _ & _ & _ & Hdir & ->).
  rewrite center_value_ra in Hra. rewrite center_value_dec in Hdec.
  injection Hra as Hra. injection Hdec as Hdec.
  apply opt_num_JNum in Hra, Hdec. destruct c as [cr cd]. simpl in *. subst.
  eapply resolve_direction_range; eassumption.
Qed.

Lemma toy_equatorial_in_range : equatorial_in_range toy_astro.
Proof. intros t az alt H1 H2 H3 H4. unfold in_closed_range. simpl. repeat split; try assumption.
  apply Qle_trans with 0%Q; [discriminate | assumption]. Qed.

Lemma text_offset_entity_finite_offsets : finite_offsets text_offset_entity.
Proof.
  intros field text Hfield Hget. unfold decal_fields in Hfield.
  destruct Hfield as [<-|[<-|[<-|[<-|[]]]]]; vm_compute in Hget;
    try discriminate; injection Hget as <-; reflexivity.
Qed.

Lemma pointing_center_in_closed_range_witness : in_closed_range 360 (-90).
Proof.
  apply (pointing_center_in_closed_range (H := toy_astro)
           text_offset_entity text_offset_entity
           (JObj [("ra", quantity (JNum 360) "deg");
                  ("dec", quantity (JNum (-90)) "deg");
                  ("obs_direction_type", JStr "j2000")]));
    [exact toy_equatorial_in_range | exact text_offset_entity_finite_offsets
     | reflexivity | reflexivity | reflexivity].
Defined.

(** C6, as stated, fails: an azelfile marker on the entity takes
    precedence, and a [natif] entity that carries one resolves to the
    zenith, with coordinates that are not null. *)
Lemma natif_with_azelfile_is_not_null :
  ~ (forall (A : Astro) (p p' : store) (doc : json) (dt : string),
        dget "directionType" p = Some (VStr dt) ->
        PyStr.lower dt = "natif" ->
        _get_pointing_center_dict p = Ok (p', doc) ->
        center_value "ra" doc = Ok JNull /\ center_value "dec" doc = Ok JNull).
Proof.
  intros Hclaim.
  destruct (Hclaim toy_astro natif_azelfile_entity
                   (dset "directionType" (VStr "azelgeo_azelfile") natif_azelfile_entity)
                   (JObj [("ra", quantity (JNum 0) "deg");
                          ("dec", quantity (JNum 90) "deg");
                          ("obs_direction_type", JStr "azelgeo_azelfile")])
                   "NATIF") as (Hra & _); try reflexivity.
  vm_compute in Hra. discriminate.
Qed.

Section NatifFacts.
Context `{Astro}.

(** The [natif] branch, step by step. *)
Lemma natif_resolution (p : store) (dt : string) (d : Z) (t : Q) :
  dmem "azelFile" p = false ->
  dget "directionType" p = Some (VStr dt) ->
  PyStr.lower dt = "natif" ->
  dget "duration" p = Some (VInt d) ->
  dget "startTime" p = Some (VTime t) ->
  _get_pointing_center_dict p =
  Ok (p, JObj [("ra", quantity JNull "deg");
               ("dec", quantity JNull "deg");
               ("obs_direction_type", JStr "natif")]).
Proof.
  intros Hazel Hdt Hlow Hdur Hstart.
  unfold _get_pointing_center_dict, getitem.
  rewrite Hdur, Hstart. cbn [bind TimeDelta_sec time_plus].
  rewrite Hazel. cbn [bind]. rewrite Hdt. cbn [bind value_lower]. rewrite Hlow.
  reflexivity.
Qed.

(** Without the marker, whenever the resolver returns on a [natif]
    entity the coordinates are null. *)
Lemma natif_center_is_null_partial (p p' : store) (doc : json) (dt : string) :
  dmem "azelFile" p = false ->
  dget "directionType" p = Some (VStr dt) ->
  PyStr.lower dt = "natif" ->
  _get_pointing_center_dict p = Ok (p', doc) ->
  center_value "ra" doc = Ok JNull /\ center_value "dec" doc = Ok JNull.
Proof.
  intros Hazel Hdt Hlow Hres.
  pose proof Hres as Hinv.
  apply resolver_inv in Hinv as (d & t & v & dt' & c & Hdur & Hstart & _).
  rewrite (natif_resolution p dt d t Hazel Hdt Hlow Hdur Hstart) in Hres.
  injection Hres as <- <-. split; reflexivity.
Qed.
End NatifFacts.

(** C6, amended.  For every entity whose [directionType] is [natif]
    (in any letter case) and that carries no [azelFile] field, the
    resolver returns a centre whose right ascension and declination are
    null, whatever the other fields are; it returns as soon as
    [duration] and [startTime], which it reads first, hold a number of
    seconds and a time. *)
Theorem natif_center_is_null `{Astro} (p : store) (dt : string) (d : Z) (t : Q) :
  dmem "azelFile" p = false ->
  dget "directionType" p = Some (VStr dt) ->
  PyStr.lower dt = "natif" ->
  dget "duration" p = Some (VInt d) ->
  dget "startTime" p = Some (VTime t) ->
  exists doc,
    _get_pointing_center_dict p = Ok (p, doc) /\
    center_value "ra" doc = Ok JNull /\
    center_value "dec" doc = Ok JNull /\
    jget "obs_direction_type" doc = Ok (JStr "natif").
Proof.
  intros Hazel Hdt Hlow Hdur Hstart.
  eexists. split; [apply (natif_resolution p dt d t); assumption|].
  repeat split; reflexivity.
Qed.

Lemma natif_center_is_null_witness :
  exists doc,
    _get_pointing_center_dict natif_entity = Ok (natif_entity, doc) /\
    center_value "ra" doc = Ok JNull /\
    center_value "dec" doc = Ok JNull /\
    jget "obs_direction_type" doc = Ok (JStr "natif").
Proof.
  apply (natif_center_is_null (H := toy_astro) natif_entity "Natif" 100 1000);
    reflexivity.
Defined.

Section AzelfileFacts.
Context `{Astro}.

(** The branch taken when the marker is present, step by step. *)
Lemma azelfile_resolution (p : store) (d : Z) (t : Q) :
  dmem "azelFile" p = true ->
  dget "duration" p = Some (VInt d) ->
  dget "startTime" p = Some (VTime t) ->
  _get_pointing_center_dict p =
  Ok (dset "directionType" (VStr "azelgeo_azelfile") p,
      JObj [("ra", quantity (JNum (fst (altaz_to_icrs (t + inject_Z d / 2)%Q 0 90))) "deg");
            ("dec", quantity (JNum (snd (altaz_to_icrs (t + inject_Z d / 2)%Q 0 90))) "deg");
            ("obs_direction_type", JStr "azelgeo_azelfile")]).
Proof.
  intros Hazel Hdur Hstart.
  unfold _get_pointing_center_dict, getitem.
  rewrite Hdur, Hstart. cbn [bind TimeDelta_sec time_plus].
  rewrite Hazel, setitem_azelfile. cbn [bind].
  rewrite dget_dset_eq. cbn [bind value_lower].
  reflexivity.
Qed.

(** Whenever the resolver returns on an entity with the marker, the
    type it reports is the overriding one. *)
Lemma azelfile_reports_type (p p' : store) (doc : json) :
  dmem "azelFile" p = true ->
  _get_pointing_center_dict p = Ok (p', doc) ->
  jget "obs_direction_type" doc = Ok (JStr "azelgeo_azelfile").
Proof.
  intros Hazel Hres.
  pose proof Hres as Hinv.
  apply resolver_inv in Hinv as (d & t & v & dt & c & Hdur & Hstart & _).
  rewrite (azelfile_resolution p d t Hazel Hdur Hstart) in Hres.
  injection Hres as <- <-. reflexivity.
Qed.
End AzelfileFacts.

(** C7.  For every entity on which an [azelFile] field is present, the
    resolver overwrites [directionType] with ["azelgeo_azelfile"],
    dispatches on it (the centre is the zenith, azimuth 0 and elevation
    90, converted at mid-observation) and reports that type, whatever
    the entity's own [directionType] said. *)
Theorem azelfile_forces_direction_type `{Astro} (p : store) (d : Z) (t : Q) :
  dmem "azelFile" p = true ->
  dget "duration" p = Some (VInt d) ->
  dget "startTime" p = Some (VTime t) ->
  exists (p' : store) (doc : json),
    _get_pointing_center_dict p = Ok (p', doc) /\
    jget "obs_direction_type" doc = Ok (JStr "azelgeo_azelfile") /\
    center_value "ra" doc =
      Ok (JNum (fst (altaz_to_icrs (t + inject_Z d / 2)%Q 0 90))) /\
    center_value "dec" doc =
      Ok (JNum (snd (altaz_to_icrs (t + inject_Z d / 2)%Q 0 90))) /\
    dget "directionType" p' = Some (VStr "azelgeo_azelfile").
Proof.
  intros Hazel Hdur Hstart.
  eexists _, _. split; [apply (azelfile_resolution p d t); assumption|].
  repeat split; try reflexivity. apply dget_dset_eq.
Qed.

Lemma azelfile_forces_direction_type_witness :
  exists (p' : store) (doc : json),
    _get_pointing_center_dict j2000_azelfile_entity = Ok (p', doc) /\
    jget "obs_direction_type" doc = Ok (JStr "azelgeo_azelfile") /\
    center_value "ra" doc =
      Ok (JNum (fst (altaz_to_icrs (1000 + inject_Z 100 / 2)%Q 0 90))) /\
    center_value "dec" doc =
      Ok (JNum (snd (altaz_to_icrs (1000 + inject_Z 100 / 2)%Q 0 90))) /\
    dget "directionType" p' = Some (VStr "azelgeo_azelfile").
Proof.
  apply (azelfile_forces_direction_type (H := toy_astro) j2000_azelfile_entity 100 1000);
    reflexivity.
Defined.

(** ** C9 — a pointing whose back-reference matches no field of view *)

Section Dangling.
Context `{Astro}.



(** The resolver is the only part of [make_pointing] that writes into
    the beam, and it writes [directionType] only. *)
Lemma make_pointing_noBeam (e : JsonEntry) (index : Z) (beam beam' : store)
      (parset_version : list Z) (func : option setting_func) (pointing : json) :
  make_pointing e index beam parset_version func = Ok (pointing, beam') ->
  dget "noBeam" beam' = dget "noBeam" beam.
Proof.
  unfold make_pointing. intros Hmk. do 5 inv_bind Hmk.
  injection Hmk as _ <-.
  destruct a0 as [p' doc]. apply resolver_inv in Hstep0
    as (d & t & v & dt & c & _ & _ & -> & _).
  simpl. apply after_resolver_other. discriminate.
Qed.

Lemma add_pointing_Ok_inv (e e' : JsonEntry) (index : Z) (beam beam' : store)
      (parset_version : list Z) (func : option setting_func) :
  add_pointing e index beam parset_version func = Ok (e', beam') ->
  exists (v : value) (i : nat),
    dget "noBeam" beam = Some v /\ find_fov e v = Ok i /\ fovs e' = fovs e.
Proof.
  unfold add_pointing. intros Hadd. do 3 inv_bind Hadd.
  injection Hadd as <- <-. destruct a as [pointing b].
  apply make_pointing_noBeam in Hstep. simpl in *.
  unfold getitem in Hstep0. rewrite Hstep in Hstep0.
  destruct (dget "noBeam" beam) as [v|]; [|discriminate].
  injection Hstep0 as ->. exists a0, a1. repeat split; assumption || reflexivity.
Qed.







End Dangling.

Example dangling_parset_raises : to_json dangling_parset = Raise IndexError.
Proof. vm_compute. reflexivity. Qed.



(** ** C8, C10 — the writer hierarchy *)

Module WriterFacts.
Import Writer.

(** *** Removing and renumbering, on the lists alone *)

Lemma remove_in_beam_hit (nbs : list NumericalBeam) :
  forall c k,
    c <= k ->
    (Z.to_nat (k - c) < length nbs)%nat ->
    fst (remove_in_beam c k nbs) = Some (delete (Z.to_nat (k - c)) nbs).
Proof.
  induction nbs as [|nb rest IH]; intros c k Hle Hlt; simpl in *; [lia|].
  destruct (Z.eqb_spec c k) as [->|Hne].
  - replace (k - k) with 0 by lia. reflexivity.
  - simpl. rewrite IH by lia. simpl.
    replace (Z.to_nat (k - c)) with (S (Z.to_nat (k - (c + 1)))) by lia.
    reflexivity.
Qed.

Lemma remove_in_beam_miss (nbs : list NumericalBeam) :
  forall c k,
    c <= k ->
    (length nbs <= Z.to_nat (k - c))%nat ->
    remove_in_beam c k nbs = (None, c + Z.of_nat (length nbs)).
Proof.
  induction nbs as [|nb rest IH]; intros c k Hle Hlen; simpl in *.
  - f_equal. lia.
  - destruct (Z.eqb_spec c k) as [->|Hne]; [lia|].
    rewrite IH by lia. simpl. f_equal. lia.
Qed.

Lemma delete_app_l {A : Type} (l1 l2 : list A) (i : nat) :
  (i < length l1)%nat -> delete i (l1 ++ l2) = delete i l1 ++ l2.
Proof.
  revert i; induction l1 as [|a l1 IH]; intros i Hi; simpl in *; [lia|].
  destruct i as [|i]; [reflexivity|]. simpl. f_equal. apply IH. lia.
Qed.

Lemma delete_app_r {A : Type} (l1 l2 : list A) (i : nat) :
  (length l1 <= i)%nat -> delete i (l1 ++ l2) = l1 ++ delete (i - length l1)%nat l2.
Proof.
  revert i; induction l1 as [|a l1 IH]; intros i Hi; simpl in *.
  - f_equal. lia.
  - destruct i as [|i]; [lia|]. simpl. f_equal. apply IH. lia.
Qed.

(** The two loops delete the numerical beam at position [k] of the
    hierarchy. *)
Lemma remove_in_beams_delete (abs : list AnalogBeam) :
  forall c k,
    c <= k ->
    all_numbeams (remove_in_beams c k abs) =
    delete (Z.to_nat (k - c)) (all_numbeams abs).
Proof.
  induction abs as [|ab rest IH]; intros c k Hle; simpl; [reflexivity|].
  unfold all_numbeams in *. simpl.
  destruct (le_lt_dec (length (numerical_beams ab)) (Z.to_nat (k - c))) as [Hmiss|Hhit].
  - rewrite (remove_in_beam_miss _ c k Hle Hmiss). simpl.
    rewrite delete_app_r by exact Hmiss. f_equal.
    rewrite IH by lia. f_equal. lia.
  - pose proof (remove_in_beam_hit _ c k Hle Hhit) as Hfst.
    destruct (remove_in_beam c k (numerical_beams ab)) as [[nbs|] c']; simpl in Hfst;
      [|discriminate].
    injection Hfst as ->. simpl. rewrite delete_app_l by exact Hhit. reflexivity.
Qed.

Lemma renumber_beam_spec (nbs : list NumericalBeam) :
  forall c,
    snd (renumber_beam c nbs) = c + Z.of_nat (length nbs) /\
    map nb_block (fst (renumber_beam c nbs)) = map nb_block nbs /\
    indexed_from c (fst (renumber_beam c nbs)).
Proof.
  induction nbs as [|nb rest IH]; intros c; simpl.
  - repeat split; [lia|]. intros i x Hx. destruct i; discriminate.
  - destruct (IH (c + 1)) as (Hsnd & Hblk & Hidx). repeat split.
    + rewrite Hsnd. lia.
    + f_equal. exact Hblk.
    + intros [|i] x Hx; simpl in Hx.
      * injection Hx as <-. simpl. lia.
      * apply Hidx in Hx. rewrite Hx. lia.
Qed.

Lemma indexed_from_app (c : Z) (l1 l2 : list NumericalBeam) :
  indexed_from c l1 ->
  indexed_from (c + Z.of_nat (length l1)) l2 ->
  indexed_from c (l1 ++ l2).
Proof.
  intros H1 H2 i nb Hi.
  destruct (le_lt_dec (length l1) i) as [Hge|Hlt].
  - rewrite lookup_app_r in Hi by exact Hge. apply H2 in Hi. rewrite Hi. lia.
  - rewrite lookup_app_l in Hi by exact Hlt. apply H1 in Hi. exact Hi.
Qed.

Lemma renumber_beams_skel (abs : list AnalogBeam) :
  forall c, map skel (renumber_beams c abs) = map skel abs.
Proof.
  induction abs as [|ab rest IH]; intros c; simpl; [reflexivity|].
  rewrite IH. f_equal. unfold skel. simpl.
  destruct (renumber_beam_spec (numerical_beams ab) c) as (_ & -> & _). reflexivity.
Qed.

Lemma renumber_beams_blocks (abs : list AnalogBeam) :
  forall c,
    map nb_block (all_numbeams (renumber_beams c abs)) =
    map nb_block (all_numbeams abs).
Proof.
  induction abs as [|ab rest IH]; intros c; simpl; [reflexivity|].
  unfold all_numbeams in *. simpl. rewrite !map_app, IH.
  destruct (renumber_beam_spec (numerical_beams ab) c) as (_ & -> & _). reflexivity.
Qed.

Lemma renumber_beams_indexed (abs : list AnalogBeam) :
  forall c, indexed_from c (all_numbeams (renumber_beams c abs)).
Proof.
  induction abs as [|ab rest IH]; intros c; simpl.
  - intros i x Hx. destruct i; discriminate.
  - unfold all_numbeams in *. simpl.
    destruct (renumber_beam_spec (numerical_beams ab) c) as (Hsnd & Hblk & Hidx).
    apply indexed_from_app; [exact Hidx|].
    rewrite Hsnd.
    replace (length (fst (renumber_beam c (numerical_beams ab))))
      with (length (numerical_beams ab)); [apply IH|].
    rewrite <- (length_map nb_block (fst _)), Hblk, length_map. reflexivity.
Qed.

(** After [remove_numerical_beam k], the beam that stood at position
    [i > k] stands at position [i - 1] and carries that index. *)
Lemma remove_numerical_beam_shifts (pu : ParsetUser) (k : Z) (i : nat)
      (nb : NumericalBeam) :
  0 <= k ->
  all_numbeams (analog_beams pu) !! i = Some nb ->
  k < Z.of_nat i ->
  exists nb',
    all_numbeams (analog_beams (remove_numerical_beam k pu)) !! (i - 1)%nat = Some nb' /\
    nb_block nb' = nb_block nb /\
    nb_index nb' = Z.of_nat i - 1.
Proof.
  intros Hk Hi Hlt. unfold remove_numerical_beam, _updates_numbeams_indices. simpl.
  set (abs1 := remove_in_beams 0 k (analog_beams pu)).
  assert (Hdel : all_numbeams abs1 !! (i - 1)%nat = Some nb).
  { unfold abs1. rewrite remove_in_beams_delete by lia.
    rewrite list_lookup_delete_ge by lia.
    replace (S (i - 1)) with i by lia. exact Hi. }
  pose proof (renumber_beams_blocks abs1 0) as Hblk.
  pose proof (renumber_beams_indexed abs1 0) as Hidx.
  apply (f_equal (fun l => l !! (i - 1)%nat)) in Hblk.
  rewrite !list_lookup_fmap, Hdel in Hblk. simpl in Hblk.
  destruct (all_numbeams (renumber_beams 0 abs1) !! (i - 1)%nat) as [nb'|] eqn:Hnb';
    [|discriminate].
  exists nb'. split; [reflexivity|]. split; [simpl in Hblk; congruence|].
  apply Hidx in Hnb'. lia.
Qed.

(** The beams before position [k] stay where they are. *)
Lemma remove_numerical_beam_keeps (pu : ParsetUser) (k : Z) (i : nat)
      (nb : NumericalBeam) :
  all_numbeams (analog_beams pu) !! i = Some nb ->
  Z.of_nat i < k ->
  exists nb',
    all_numbeams (analog_beams (remove_numerical_beam k pu)) !! i = Some nb' /\
    nb_block nb' = nb_block nb /\
    nb_index nb' = Z.of_nat i.
Proof.
  intros Hi Hlt. unfold remove_numerical_beam, _updates_numbeams_indices. simpl.
  set (abs1 := remove_in_beams 0 k (analog_beams pu)).
  assert (Hdel : all_numbeams abs1 !! i = Some nb).
  { unfold abs1. rewrite remove_in_beams_delete by lia.
    rewrite list_lookup_delete_lt by lia. exact Hi. }
  pose proof (renumber_beams_blocks abs1 0) as Hblk.
  pose proof (renumber_beams_indexed abs1 0) as Hidx.
  apply (f_equal (fun l => l !! i)) in Hblk.
  rewrite !list_lookup_fmap, Hdel in Hblk. simpl in Hblk.
  destruct (all_numbeams (renumber_beams 0 abs1) !! i) as [nb'|] eqn:Hnb';
    [|discriminate].
  exists nb'. split; [reflexivity|]. split; [simpl in Hblk; congruence|].
  apply Hidx in Hnb'. lia.
Qed.

(** *** Heaps *)

Lemma dget_elem_of {V : Type} (k : string) (v : V) (d : list (string * V)) :
  dget k d = Some v -> (k, v) ∈ d.
Proof.
  induction d as [|[k' v'] d IH]; simpl; [discriminate|].
  destruct (String.eqb_spec k k') as [->|Hne]; intros Hget.
  - injection Hget as ->. left.
  - right. auto.
Qed.

Lemma dget_NoDup_inj {V : Type} (k k' : string) (v : V) (d : list (string * V)) :
  NoDup (map snd d) -> dget k d = Some v -> dget k' d = Some v -> k = k'.
Proof.
  induction d as [|[k0 v0] d IH]; simpl; [discriminate|].
  intros Hnd Hk Hk'. apply NoDup_cons in Hnd as [Hnotin Hnd].
  destruct (String.eqb_spec k k0) as [->|Hne];
    destruct (String.eqb_spec k' k0) as [->|Hne']; try reflexivity.
  - injection Hk as ->. apply dget_elem_of in Hk'.
    exfalso. apply Hnotin. apply list_elem_of_fmap. exists (k', v). split; [reflexivity | exact Hk'].
  - injection Hk' as ->. apply dget_elem_of in Hk.
    exfalso. apply Hnotin. apply list_elem_of_fmap. exists (k, v). split; [reflexivity | exact Hk].
  - auto.
Qed.

Lemma dmem_keys {V W : Type} (k : string) (d : list (string * V)) (d' : list (string * W)) :
  map fst d' = map fst d -> dmem k d' = dmem k d.
Proof.
  unfold dmem. revert d'; induction d as [|[k0 v0] d IH]; intros [|[k1 v1] d'] Hkeys;
    simpl in *; try discriminate; [reflexivity|].
  injection Hkeys as -> Hkeys. destruct (String.eqb k k0); [reflexivity | auto].
Qed.

Lemma entries_changed_refl (L : list loc) (h : heap) : entries_changed L h h.
Proof. split; [reflexivity|]. intros l. left. reflexivity. Qed.

Lemma entries_changed_trans (L : list loc) (h1 h2 h3 : heap) :
  entries_changed L h1 h2 -> entries_changed L h2 h3 -> entries_changed L h1 h3.
Proof.
  intros [Hn1 H1] [Hn2 H2]. split; [congruence|]. intros l.
  destruct (H1 l) as [E1|(Hin & e & e' & Ee & Ee')];
    destruct (H2 l) as [E2|(Hin2 & f & f' & Ef & Ef')].
  - left. congruence.
  - right. split; [exact Hin2|]. exists f, f'. split; congruence.
  - right. split; [exact Hin|]. exists e, e'. split; congruence.
  - right. split; [exact Hin|]. exists e, f'. split; congruence.
Qed.

Lemma entries_changed_mono (L L' : list loc) (h h' : heap) :
  (forall l, l ∈ L -> l ∈ L') -> entries_changed L h h' -> entries_changed L' h h'.
Proof.
  intros Hsub [Hn Hc]. split; [exact Hn|]. intros l.
  destruct (Hc l) as [E|(Hin & Hrest)]; [left; exact E | right; split; auto].
Qed.

Lemma entries_changed_agree (L M : list loc) (h h' : heap) :
  entries_changed L h h' -> (forall l, l ∈ L -> l ∉ M) -> agree_on M h h'.
Proof.
  intros [_ Hc] Hdisj l Hl. destruct (Hc l) as [E|(Hin & _)]; [exact E|].
  exfalso. exact (Hdisj l Hin Hl).
Qed.

Lemma entries_changed_entry_locs (L : list loc) (h h' : heap) (b : block) :
  entries_changed L h h' -> entry_locs h' b = entry_locs h b.
Proof.
  intros [_ Hc]. unfold entry_locs.
  destruct (Hc (configuration b)) as [->|(_ & e & e' & -> & ->)]; reflexivity.
Qed.

Lemma entries_changed_footprint (L : list loc) (h h' : heap) (b : block) :
  entries_changed L h h' -> footprint h' b = footprint h b.
Proof.
  intros Hc. unfold footprint. rewrite (entries_changed_entry_locs L h h' b Hc).
  reflexivity.
Qed.

Lemma agree_footprint (h h' : heap) (b : block) :
  agree_on (footprint h b) h h' -> footprint h' b = footprint h b.
Proof.
  intros Hag. unfold footprint, entry_locs. rewrite (Hag (configuration b)); [reflexivity|].
  left.
Qed.

Lemma block_entry_agree (h h' : heap) (b : block) (k : string) :
  agree_on (footprint h b) h h' -> block_entry b k h' = block_entry b k h.
Proof.
  intros Hag. unfold block_entry.
  rewrite (Hag (configuration b)) by left.
  destruct (objs h !! configuration b) as [[kvs|e]|] eqn:Ecfg; try reflexivity.
  unfold getitem. destruct (dget k kvs) as [le|] eqn:Ek; [|reflexivity].
  simpl. rewrite (Hag le); [reflexivity|].
  right. unfold entry_locs. rewrite Ecfg. apply list_elem_of_fmap.
  exists (k, le). split; [reflexivity | apply dget_elem_of; exact Ek].
Qed.

Lemma block_getitem_agree (h h' : heap) (b : block) (k : string) :
  agree_on (footprint h b) h h' -> block_getitem b k h' = block_getitem b k h.
Proof.
  intros Hag. unfold block_getitem. rewrite (block_entry_agree h h' b k Hag). reflexivity.
Qed.

Section WithRegistry.
Context `{Astro}.
Variable PARSET_OPTIONS : list (string * loc).
Variable h0 : heap.

Lemma block_ok_agree (h h' : heap) (b : block) :
  block_ok h0 h b -> agree_on (footprint h b) h h' -> block_ok h0 h' b.
Proof.
  intros (kvs & Hcfg & Hlo & Hnd & Hent & Hnb) Hag.
  exists kvs. split; [|split; [exact Hlo|split; [exact Hnd|split; [|exact Hnb]]]].
  - rewrite (Hag (configuration b)) by left. exact Hcfg.
  - intros k le Hin. destruct (Hent k le Hin) as [Hle [e He]].
    split; [exact Hle|]. exists e.
    rewrite (Hag le); [exact He|]. right. unfold entry_locs. rewrite Hcfg.
    apply list_elem_of_fmap. exists (k, le). split; [reflexivity | exact Hin].
Qed.

Lemma block_ok_entries_changed (L : list loc) (h h' : heap) (b : block) :
  block_ok h0 h b -> entries_changed L h h' -> block_ok h0 h' b.
Proof.
  intros (kvs & Hcfg & Hlo & Hnd & Hent & Hnb) [_ Hc].
  exists kvs. split; [|split; [exact Hlo|split; [exact Hnd|split; [|exact Hnb]]]].
  - destruct (Hc (configuration b)) as [->|(_ & e & e' & Ee & _)]; [exact Hcfg|].
    congruence.
  - intros k le Hin. destruct (Hent k le Hin) as [Hle [e He]].
    split; [exact Hle|].
    destruct (Hc le) as [->|(_ & e1 & e2 & _ & ->)]; eauto.
Qed.

Lemma wf_heap_entries_changed (L : list loc) (h h' : heap) :
  wf_heap h0 h -> entries_changed L h h' ->
  (forall l, l ∈ L -> (next h0 <= l)%nat) ->
  wf_heap h0 h'.
Proof.
  intros (Hmono & Hfresh & Hreg) [Hn Hc] HL. repeat split.
  - rewrite Hn. exact Hmono.
  - intros l Hl. rewrite Hn in Hl.
    destruct (Hc l) as [->|(_ & e & e' & Ee & _)]; [auto|].
    rewrite (Hfresh l Hl) in Ee. discriminate.
  - intros l Hl. destruct (Hc l) as [->|(Hin & _)]; [auto|].
    apply HL in Hin. lia.
Qed.

Lemma wf_blocks_transfer (h h' : heap) (bs : list block) :
  wf_blocks h0 h bs ->
  (forall b, b ∈ bs -> block_ok h0 h' b /\ footprint h' b = footprint h b) ->
  wf_blocks h0 h' bs.
Proof.
  intros (Hnd & Hok & Hsep) Htr. repeat split; [exact Hnd | |].
  - intros b Hb. apply Htr. exact Hb.
  - intros b b' l Hb Hb' Hl Hl'.
    destruct (Htr b Hb) as [_ Hf]. destruct (Htr b' Hb') as [_ Hf'].
    rewrite Hf in Hl. rewrite Hf' in Hl'. eapply Hsep; eassumption.
Qed.

Lemma wf_blocks_entries_changed (L : list loc) (h h' : heap) (bs : list block) :
  wf_blocks h0 h bs -> entries_changed L h h' -> wf_blocks h0 h' bs.
Proof.
  intros Hwf Hc. apply (wf_blocks_transfer h h' bs Hwf). intros b Hb. split.
  - destruct Hwf as (_ & Hok & _). eapply block_ok_entries_changed; eauto.
  - eapply entries_changed_footprint; eassumption.
Qed.

(** The footprint of a well-formed block lies above the registry
    and below [next]. *)
Lemma footprint_bounds (h : heap) (b : block) (l : loc) :
  wf_heap h0 h -> block_ok h0 h b -> l ∈ footprint h b ->
  (next h0 <= l < next h)%nat.
Proof.
  intros (_ & Hfresh & _) (kvs & Hcfg & Hlo & _ & Hent & _) Hl.
  assert (Hsome : forall x o, objs h !! x = Some o -> (x < next h)%nat).
  { intros x o Hx. destruct (le_lt_dec (next h) x) as [Hge|]; [|assumption].
    rewrite (Hfresh x Hge) in Hx. discriminate. }
  unfold footprint, entry_locs in Hl. rewrite Hcfg in Hl.
  apply elem_of_cons in Hl as [->|Hl].
  - split; [exact Hlo | eapply Hsome; exact Hcfg].
  - apply list_elem_of_fmap in Hl as ([k le] & -> & Hin). simpl.
    destruct (Hent k le Hin) as [Hle [e He]]. split; [exact Hle | eapply Hsome; exact He].
Qed.

(** *** Writing a field *)

Lemma written_value (v : pyval) (e : list (string * pyval)) :
  getitem "value" (written v e) = Ok (convert v).
Proof.
  unfold written, getitem. rewrite dget_dset_ne by discriminate.
  rewrite dget_dset_eq. reflexivity.
Qed.

Lemma modify_one_spec (b : block) (key : string) (v : pyval) (h : heap) :
  block_ok h0 h b ->
  exists h',
    modify_one b key v h = Ok h' /\
    entries_changed (entry_locs h b) h h' /\
    (forall e, block_entry b key h = Ok e ->
               block_entry b key h' = Ok (written v e)) /\
    (forall key', key' <> key -> block_entry b key' h' = block_entry b key' h).
Proof.
  intros (kvs & Hcfg & Hlo & Hnd & Hent & Hnb).
  unfold modify_one. rewrite Hcfg.
  destruct (dget key kvs) as [le|] eqn:Ekey.
  - pose proof (dget_elem_of _ _ _ Ekey) as Hin.
    destruct (Hent key le Hin) as [Hle [e He]]. rewrite He.
    assert (Hne : le <> configuration b) by (intros ->; congruence).
    eexists. split; [reflexivity|]. split; [|split].
    + split; [reflexivity|]. intros l. simpl.
      destruct (decide (l = le)) as [->|Hl].
      * right. split.
        { unfold entry_locs. rewrite Hcfg. apply list_elem_of_fmap.
          exists (key, le). split; [reflexivity | exact Hin]. }
        exists e, (written v e). split; [exact He|]. apply lookup_insert_eq.
      * left. apply lookup_insert_ne. congruence.
    + intros e1 He1. unfold block_entry in *. simpl.
      rewrite lookup_insert_ne by exact Hne. rewrite Hcfg in *.
      unfold getitem in *. rewrite Ekey in *. simpl in *.
      rewrite lookup_insert_eq. rewrite He in He1. injection He1 as <-. reflexivity.
    + intros key' Hkey'. unfold block_entry. simpl.
      rewrite lookup_insert_ne by exact Hne. rewrite Hcfg.
      unfold getitem. destruct (dget key' kvs) as [le'|] eqn:Ekey'; [|reflexivity].
      simpl. rewrite lookup_insert_ne; [reflexivity|].
      intros ->. apply Hkey'. eapply dget_NoDup_inj; eassumption.
  - exists h. split; [reflexivity|]. split; [apply entries_changed_refl|]. split.
    + intros e He. unfold block_entry, getitem in He. rewrite Hcfg, Ekey in He.
      discriminate.
    + reflexivity.
Qed.

Lemma modify_properties_spec (b : block) (kwargs : list (string * pyval)) :
  forall h,
    block_ok h0 h b ->
    exists h',
      _modify_properties b kwargs h = Ok h' /\
      entries_changed (entry_locs h b) h h'.
Proof.
  induction kwargs as [|[key v] kwargs IH]; intros h Hok; simpl.
  - exists h. split; [reflexivity | apply entries_changed_refl].
  - destruct (modify_one_spec b key v h Hok) as (h1 & -> & Hc1 & _). simpl.
    destruct (IH h1 (block_ok_entries_changed _ _ _ _ Hok Hc1)) as (h2 & -> & Hc2).
    exists h2. split; [reflexivity|].
    rewrite (entries_changed_entry_locs _ _ _ b Hc1) in Hc2.
    eapply entries_changed_trans; eassumption.
Qed.

Lemma block_setitem_spec (b : block) (key : string) (v : pyval) (h : heap) :
  block_ok h0 h b ->
  exists h',
    block_setitem b key v h = Ok h' /\
    entries_changed (entry_locs h b) h h' /\
    (forall e, block_entry b key h = Ok e ->
               block_entry b key h' = Ok (written v e)) /\
    (forall key', key' <> key -> block_entry b key' h' = block_entry b key' h).
Proof.
  intros Hok. unfold block_setitem. simpl.
  destruct (modify_one_spec b key v h Hok) as (h' & -> & Hrest).
  exists h'. split; [reflexivity | exact Hrest].
Qed.

(** A block whose schema has the key reads back what was written. *)
Lemma block_setitem_noBeam (b : block) (v : pyval) (h h' : heap) :
  block_ok h0 h b -> field b = "Beam" ->
  block_setitem b "noBeam" v h = Ok h' ->
  block_getitem b "noBeam" h' = Ok (convert v).
Proof.
  intros Hok Hfield Hset.
  destruct (block_setitem_spec b "noBeam" v h Hok) as (h1 & Hset1 & _ & Hsame & _).
  rewrite Hset in Hset1. injection Hset1 as <-.
  destruct Hok as (kvs & Hcfg & _ & _ & Hent & Hnb).
  specialize (Hnb Hfield). unfold dmem in Hnb.
  destruct (dget "noBeam" kvs) as [le|] eqn:Ekey; [|discriminate].
  destruct (Hent _ _ (dget_elem_of _ _ _ Ekey)) as [_ [e He]].
  assert (Hentry : block_entry b "noBeam" h = Ok e).
  { unfold block_entry, getitem. rewrite Hcfg, Ekey. simpl. rewrite He. reflexivity. }
  unfold block_getitem. rewrite (Hsame e Hentry). simpl. apply written_value.
Qed.

(** *** Copying a configuration *)

Lemma deepcopy_entries_spec (kvs : list (string * loc)) :
  forall (memo : list (loc * loc)) (h : heap),
    NoDup (map snd kvs) ->
    (forall k le, (k, le) ∈ kvs ->
                  memo_get le memo = None /\ (le < next h)%nat /\
                  exists e, objs h !! le = Some (OEntry e)) ->
    fresh_above h ->
    exists kvs' h',
      deepcopy_entries memo kvs h = Ok (kvs', h') /\
      map fst kvs' = map fst kvs /\
      map snd kvs' = seq (next h) (length kvs) /\
      next h' = (next h + length kvs)%nat /\
      (forall l, (l < next h)%nat -> objs h' !! l = objs h !! l) /\
      fresh_above h' /\
      (forall l, (next h <= l < next h')%nat ->
                 exists e, objs h' !! l = Some (OEntry e)).
Proof.
  induction kvs as [|[k le] kvs IH]; intros memo h Hnd Hent Hfresh; simpl.
  - exists [], h. split; [reflexivity|]. split; [reflexivity|]. split; [reflexivity|].
    split; [lia|]. split; [reflexivity|]. split; [exact Hfresh|]. intros l Hl. lia.
  - destruct (Hent k le) as (Hmemo & Hlt & e & He); [left|].
    rewrite Hmemo, He. unfold alloc. cbn [fst snd].
    apply NoDup_cons in Hnd as [Hnotin Hnd].
    set (h1 := mk_heap (<[next h := OEntry e]> (objs h)) (S (next h))).
    destruct (IH ((le, next h) :: memo) h1 Hnd) as
      (kvs' & h' & Hcopy & Hk & Hs & Hn & Hold & Hfr & Hnew).
    { intros k' le' Hin. destruct (Hent k' le') as (Hmemo' & Hlt' & e' & He'); [right; exact Hin|].
      split; [|split].
      - simpl. destruct (Nat.eqb_spec le' le) as [->|Hne]; [|exact Hmemo'].
        exfalso. apply Hnotin. apply list_elem_of_fmap. exists (k', le).
        split; [reflexivity | exact Hin].
      - simpl. lia.
      - exists e'. simpl. rewrite lookup_insert_ne by lia. exact He'. }
    { intros l Hl. simpl in *. rewrite lookup_insert_ne by lia. apply Hfresh. lia. }
    rewrite Hcopy. cbn [bind fst snd].
    exists ((k, next h) :: kvs'), h'. split; [reflexivity|].
    split; [simpl; f_equal; exact Hk|].
    split; [simpl; f_equal; exact Hs|].
    split; [rewrite Hn; simpl; lia|].
    split; [|split; [exact Hfr|]].
    + intros l Hl. rewrite Hold by (simpl; lia). simpl.
      apply lookup_insert_ne. lia.
    + intros l Hl. destruct (decide (l = next h)) as [->|Hne].
      * exists e. rewrite Hold by (simpl; lia). simpl. apply lookup_insert_eq.
      * apply Hnew. simpl. lia.
Qed.

Lemma deepcopy_spec (l : loc) (kvs : list (string * loc)) (h : heap) :
  objs h !! l = Some (ODict kvs) ->
  NoDup (map snd kvs) ->
  (forall k le, (k, le) ∈ kvs ->
                (le < next h)%nat /\ exists e, objs h !! le = Some (OEntry e)) ->
  fresh_above h ->
  exists kvs' h',
    deepcopy l h = Ok (next h, h') /\
    objs h' !! next h = Some (ODict kvs') /\
    map fst kvs' = map fst kvs /\
    map snd kvs' = seq (S (next h)) (length kvs) /\
    next h' = S (next h + length kvs) /\
    (forall x, (x < next h)%nat -> objs h' !! x = objs h !! x) /\
    fresh_above h' /\
    (forall x, (S (next h) <= x < next h')%nat ->
               exists e, objs h' !! x = Some (OEntry e)).
Proof.
  intros Hobj Hnd Hent Hfresh. unfold deepcopy. rewrite Hobj.
  unfold alloc. cbn [fst snd].
  set (h1 := mk_heap (<[next h := ODict []]> (objs h)) (S (next h))).
  destruct (deepcopy_entries_spec kvs [(l, next h)] h1 Hnd) as
    (kvs' & h2 & Hcopy & Hk & Hs & Hn & Hold & Hfr & Hnew).
  { intros k le Hin. destruct (Hent k le Hin) as (Hlt & e & He).
    split; [|split].
    - simpl. destruct (Nat.eqb_spec le l) as [->|Hne]; [congruence | reflexivity].
    - simpl. lia.
    - exists e. simpl. rewrite lookup_insert_ne by lia. exact He. }
  { intros x Hx. simpl in *. rewrite lookup_insert_ne by lia. apply Hfresh. lia. }
  rewrite Hcopy. cbn [bind fst snd].
  exists kvs', (store_obj (next h) (ODict kvs') h2).
  split; [reflexivity|]. simpl in *.
  split; [apply lookup_insert_eq|]. split; [exact Hk|]. split; [exact Hs|].
  split; [rewrite Hn; lia|]. split; [|split].
  - intros x Hx. rewrite lookup_insert_ne by lia. rewrite Hold by lia.
    apply lookup_insert_ne. lia.
  - intros x Hx. simpl in *. rewrite lookup_insert_ne by lia. apply Hfr. exact Hx.
  - intros x Hx. rewrite lookup_insert_ne by lia. apply Hnew. lia.
Qed.

(** A new block is made of fresh objects: it is well formed, and it
    shares nothing with the blocks that exist. *)
Lemma new_block_spec (fld : string) (l : loc) (h : heap) (bs : list block) :
  registry_ok PARSET_OPTIONS h0 ->
  dget fld PARSET_OPTIONS = Some l ->
  wf_heap h0 h ->
  wf_blocks h0 h bs ->
  exists b h',
    new_block PARSET_OPTIONS fld h = Ok (b, h') /\
    field b = fld /\
    wf_heap h0 h' /\
    wf_blocks h0 h' (b :: bs) /\
    (forall x, (x < next h)%nat -> objs h' !! x = objs h !! x).
Proof.
  intros (Hr0 & Hreg & Hbeam) Hfld (Hmono & Hfresh & Hkept) (Hnd & Hok & Hsep).
  destruct (Hreg fld l Hfld) as (kvs & Hobj0 & Hndk & Hent0).
  assert (Hbelow : forall x o, objs h0 !! x = Some o -> (x < next h0)%nat).
  { intros x o Hx. destruct (le_lt_dec (next h0) x) as [Hge|]; [|assumption].
    rewrite (Hr0 x Hge) in Hx. discriminate. }
  assert (Hobj : objs h !! l = Some (ODict kvs)).
  { rewrite Hkept; [exact Hobj0 | eapply Hbelow; exact Hobj0]. }
  destruct (deepcopy_spec l kvs h Hobj Hndk) as
    (kvs' & h' & Hcopy & Hcfg & Hk & Hs & Hn & Hold & Hfr & Hnew); [|exact Hfresh|].
  { intros k le Hin. destruct (Hent0 k le Hin) as [e He].
    pose proof (Hbelow le _ He) as Hlt. split; [lia|]. exists e.
    rewrite Hkept by exact Hlt. exact He. }
  unfold new_block, getitem. rewrite Hfld. cbn [bind]. rewrite Hcopy. cbn [bind fst snd].
  set (b := mk_block fld (next h)).
  assert (Hfoot : forall x, x ∈ footprint h' b -> (next h <= x)%nat).
  { intros x Hx. unfold footprint, entry_locs in Hx. simpl in Hx. rewrite Hcfg, Hs in Hx.
    apply elem_of_cons in Hx as [->|Hx]; [lia|].
    apply elem_of_seq in Hx. lia. }
  assert (Hbok : block_ok h0 h' b).
  { exists kvs'. split; [exact Hcfg|]. split; [simpl; exact Hmono|].
    split; [rewrite Hs; apply NoDup_seq|]. split.
    - intros k le Hin.
      assert (Hle : le ∈ map snd kvs').
      { apply list_elem_of_fmap. exists (k, le). split; [reflexivity | exact Hin]. }
      rewrite Hs in Hle. apply elem_of_seq in Hle.
      split; [lia|]. apply Hnew. lia.
    - simpl. intros ->. rewrite (dmem_keys "noBeam" kvs kvs' Hk).
      eapply Hbeam; eassumption. }
  assert (Hwfh : wf_heap h0 h).
  { repeat split; assumption. }
  assert (Hagree : forall b', b' ∈ bs -> agree_on (footprint h b') h h').
  { intros b' Hb' x Hx. apply Hold.
    apply (footprint_bounds h b' x Hwfh (Hok b' Hb') Hx). }
  exists b, h'. split; [reflexivity|]. split; [reflexivity|]. split; [|split; [|exact Hold]].
  - repeat split; [lia | exact Hfr |].
    intros x Hx. rewrite Hold by lia. apply Hkept. exact Hx.
  - split; [|split].
    + apply NoDup_cons. split; [|exact Hnd]. intros Hin.
      destruct (Hok b Hin) as (kv & Hc & _). simpl in Hc.
      rewrite (Hfresh (next h)) in Hc by lia. discriminate.
    + intros b' Hb'. apply elem_of_cons in Hb' as [->|Hb']; [exact Hbok|].
      apply (block_ok_agree h h' b' (Hok b' Hb') (Hagree b' Hb')).
    + intros b1 b2 x Hb1 Hb2 Hx1 Hx2.
      apply elem_of_cons in Hb1 as [->|Hb1]; apply elem_of_cons in Hb2 as [->|Hb2].
      * reflexivity.
      * exfalso. apply Hfoot in Hx1.
        rewrite (agree_footprint h h' b2 (Hagree b2 Hb2)) in Hx2.
        pose proof (footprint_bounds h b2 x Hwfh (Hok b2 Hb2) Hx2). lia.
      * exfalso. apply Hfoot in Hx2.
        rewrite (agree_footprint h h' b1 (Hagree b1 Hb1)) in Hx1.
        pose proof (footprint_bounds h b1 x Hwfh (Hok b1 Hb1) Hx1). lia.
      * rewrite (agree_footprint h h' b1 (Hagree b1 Hb1)) in Hx1.
        rewrite (agree_footprint h h' b2 (Hagree b2 Hb2)) in Hx2.
        eapply Hsep; eassumption.
Qed.

(** *** Propagating the analog-beam index *)

Lemma elem_of_entries_of (h : heap) (bs : list block) (l : loc) :
  l ∈ entries_of h bs <-> exists b, b ∈ bs /\ l ∈ entry_locs h b.
Proof.
  unfold entries_of. induction bs as [|b bs IH]; simpl.
  - split; [intros Hl; inversion Hl | intros (b & Hb & _); inversion Hb].
  - rewrite elem_of_app, IH. split.
    + intros [Hl|(b' & Hb' & Hl)]; [exists b; split; [left | exact Hl]|].
      exists b'. split; [right; exact Hb' | exact Hl].
    + intros (b' & Hb' & Hl). apply elem_of_cons in Hb' as [->|Hb']; [left; exact Hl|].
      right. eauto.
Qed.

Lemma entries_of_changed (L : list loc) (h h' : heap) (bs : list block) :
  entries_changed L h h' -> entries_of h' bs = entries_of h bs.
Proof.
  intros Hc. unfold entries_of. f_equal. apply map_ext.
  intros b. eapply entries_changed_entry_locs; eassumption.
Qed.

(** Writing into the blocks [ws] leaves a block that is not one of
    them as it was. *)
Lemma frame_agree (h h' : heap) (bs ws : list block) (b : block) :
  wf_blocks h0 h bs ->
  b ∈ bs ->
  (forall w, w ∈ ws -> w ∈ bs) ->
  b ∉ ws ->
  entries_changed (entries_of h ws) h h' ->
  agree_on (footprint h b) h h'.
Proof.
  intros (_ & _ & Hsep) Hb Hws Hnot Hc.
  eapply entries_changed_agree; [exact Hc|].
  intros l Hl Hfoot. apply elem_of_entries_of in Hl as (w & Hw & Hlw).
  assert (w = b).
  { eapply Hsep; [apply Hws; exact Hw | exact Hb | right; exact Hlw | exact Hfoot]. }
  subst w. contradiction.
Qed.

Lemma wf_heap_writes (h h' : heap) (bs ws : list block) :
  wf_heap h0 h ->
  wf_blocks h0 h bs ->
  (forall w, w ∈ ws -> w ∈ bs) ->
  entries_changed (entries_of h ws) h h' ->
  wf_heap h0 h'.
Proof.
  intros Hwf (Hnd & Hok & Hsep) Hws Hc.
  eapply wf_heap_entries_changed; [exact Hwf | exact Hc |].
  intros l Hl. apply elem_of_entries_of in Hl as (w & Hw & Hlw).
  apply (footprint_bounds h w l Hwf (Hok w (Hws w Hw))). right. exact Hlw.
Qed.

Lemma propagate_to_spec (index : Z) (nbs : list NumericalBeam) :
  forall (h : heap) (bs : list block),
    wf_blocks h0 h bs ->
    (forall b, b ∈ map nb_block nbs -> b ∈ bs /\ field b = "Beam") ->
    exists h',
      propagate_to index nbs h = Ok h' /\
      entries_changed (entries_of h (map nb_block nbs)) h h' /\
      (forall b, b ∈ map nb_block nbs ->
                 block_getitem b "noBeam" h' = Ok (PInt index)).
Proof.
  induction nbs as [|nb rest IH]; intros h bs Hwf Hin; simpl.
  - exists h. split; [reflexivity|]. split; [apply entries_changed_refl|].
    intros b Hb. inversion Hb.
  - destruct (Hin (nb_block nb)) as [Hb Hfield]; [left|].
    pose proof Hwf as (_ & Hok & _).
    destruct (block_setitem_spec (nb_block nb) "noBeam" (PInt index) h (Hok _ Hb))
      as (h1 & Hset & Hc1 & _).
    rewrite Hset. cbn [bind].
    pose proof (block_setitem_noBeam _ _ _ _ (Hok _ Hb) Hfield Hset) as Hread.
    pose proof (wf_blocks_entries_changed _ _ _ _ Hwf Hc1) as Hwf1.
    destruct (IH h1 bs Hwf1) as (h' & Hprop & Hc2 & Hreads).
    { intros b' Hb'. apply Hin. right. exact Hb'. }
    exists h'. split; [exact Hprop|]. split.
    + unfold entries_of in *. simpl.
      eapply entries_changed_trans.
      * eapply entries_changed_mono; [|exact Hc1].
        intros l Hl. apply elem_of_app. left. exact Hl.
      * fold (entries_of h1 (map nb_block rest)) in Hc2.
        rewrite (entries_of_changed _ _ _ _ Hc1) in Hc2.
        eapply entries_changed_mono; [|exact Hc2].
        intros l Hl. apply elem_of_app. right. exact Hl.
    + intros b Hbin. apply elem_of_cons in Hbin as [->|Hbin]; [|auto].
      destruct (decide (nb_block nb ∈ map nb_block rest)) as [Hdup|Hnew]; [auto|].
      rewrite (block_getitem_agree h1 h' (nb_block nb) "noBeam"); [exact Hread|].
      eapply (frame_agree h1 h' bs (map nb_block rest)); try eassumption.
      intros w Hw. apply Hin. right. exact Hw.
Qed.

Lemma reindex_anabeams_spec (abs : list AnalogBeam) :
  forall (c : Z) (h : heap) (bs : list block),
    wf_blocks h0 h bs ->
    NoDup (nb_blocks abs) ->
    (forall b, b ∈ nb_blocks abs -> b ∈ bs /\ field b = "Beam") ->
    exists abs' h',
      reindex_anabeams c abs h = Ok (abs', h') /\
      entries_changed (entries_of h (nb_blocks abs)) h h' /\
      map ab_block abs' = map ab_block abs /\
      map numerical_beams abs' = map numerical_beams abs /\
      nobeam_ok h' abs'.
Proof.
  induction abs as [|ab rest IH]; intros c h bs Hwf Hnd Hin; simpl.
  - exists [], h. split; [reflexivity|]. split; [apply entries_changed_refl|].
    split; [reflexivity|]. split; [reflexivity|]. intros ab b Hab. inversion Hab.
  - unfold nb_blocks, all_numbeams in Hnd, Hin. simpl in Hnd, Hin.
    rewrite map_app in Hnd, Hin.
    fold (all_numbeams rest) in Hnd, Hin. fold (nb_blocks rest) in Hnd, Hin.
    apply NoDup_app in Hnd as (Hnd1 & Hdisj & Hnd2).
    unfold _propagate_index. cbn [ab_index numerical_beams].
    destruct (propagate_to_spec c (numerical_beams ab) h bs Hwf)
      as (h1 & Hprop & Hc1 & Hreads).
    { intros b Hb. apply Hin. apply elem_of_app. left. exact Hb. }
    rewrite Hprop. cbn [bind].
    pose proof (wf_blocks_entries_changed _ _ _ _ Hwf Hc1) as Hwf1.
    destruct (IH (c + 1) h1 bs Hwf1 Hnd2) as (rest' & h' & Hre & Hc2 & Hblk & Hnbs & Hnob).
    { intros b Hb. apply Hin. apply elem_of_app. right. exact Hb. }
    rewrite Hre. cbn [bind fst snd].
    eexists _, h'. split; [reflexivity|].
    pose proof Hc2 as Hc2'.
    rewrite (entries_of_changed _ _ _ _ Hc1) in Hc2.
    split; [|split; [|split]].
    + unfold nb_blocks, all_numbeams. simpl. rewrite map_app.
      unfold entries_of. rewrite map_app, concat_app.
      eapply entries_changed_trans.
      * eapply entries_changed_mono; [|exact Hc1].
        intros l Hl. apply elem_of_app. left. exact Hl.
      * eapply entries_changed_mono; [|exact Hc2].
        intros l Hl. apply elem_of_app. right. exact Hl.
    + simpl. f_equal. exact Hblk.
    + simpl. f_equal. exact Hnbs.
    + intros ab' b Hab' Hb.
      apply elem_of_cons in Hab' as [->|Hab']; [|eapply Hnob; eassumption].
      simpl in Hb |- *.
      rewrite (block_getitem_agree h1 h' b "noBeam"); [apply Hreads; exact Hb|].
      eapply (frame_agree h1 h' bs (nb_blocks rest)); try eassumption.
      * apply Hin. apply elem_of_app. left. exact Hb.
      * intros w Hw. apply Hin. apply elem_of_app. right. exact Hw.
      * apply Hdisj. exact Hb.
Qed.
End WithRegistry.

(** *** The blocks of a hierarchy *)

Lemma beam_blocks_eq (abs abs' : list AnalogBeam) :
  map ab_block abs' = map ab_block abs ->
  map numerical_beams abs' = map numerical_beams abs ->
  map beam_blocks abs' = map beam_blocks abs /\ all_numbeams abs' = all_numbeams abs.
Proof.
  revert abs'; induction abs as [|ab abs IH]; intros [|ab' abs'] Hb Hn;
    simpl in *; try discriminate; [split; reflexivity|].
  injection Hb as Hb1 Hb. injection Hn as Hn1 Hn.
  destruct (IH abs' Hb Hn) as [IH1 IH2]. unfold all_numbeams in *. simpl. split.
  - f_equal; [|exact IH1]. unfold beam_blocks. rewrite Hb1, Hn1. reflexivity.
  - rewrite Hn1, IH2. reflexivity.
Qed.

Lemma sublist_concat_map {A B : Type} (f : A -> list B) (l1 l2 : list A) :
  l1 `sublist_of` l2 -> concat (map f l1) `sublist_of` concat (map f l2).
Proof.
  induction 1 as [|x l1 l2 _ IH|x l1 l2 _ IH]; simpl.
  - constructor.
  - apply sublist_app; [reflexivity | exact IH].
  - apply sublist_inserts_l. exact IH.
Qed.

Lemma nb_blocks_sublist (abs : list AnalogBeam) :
  nb_blocks abs `sublist_of` concat (map beam_blocks abs).
Proof.
  unfold nb_blocks, all_numbeams. induction abs as [|ab abs IH]; simpl; [constructor|].
  rewrite map_app. apply sublist_cons. apply sublist_app; [reflexivity | exact IH].
Qed.

Lemma nb_blocks_in_blocks_of (pu : ParsetUser) (b : block) :
  b ∈ nb_blocks (analog_beams pu) -> b ∈ blocks_of pu.
Proof.
  intros Hb. unfold blocks_of. right. right.
  eapply sublist_subseteq; [apply nb_blocks_sublist | exact Hb].
Qed.

Lemma beams_shrink_blocks (abs' abs : list AnalogBeam) :
  beams_shrink abs' abs ->
  concat (map beam_blocks abs') `sublist_of` concat (map beam_blocks abs) /\
  nb_blocks abs' `sublist_of` nb_blocks abs.
Proof.
  unfold nb_blocks, all_numbeams.
  induction 1 as [|ab' ab abs' abs (Hb & Hi & Hs) _ [IH1 IH2]]; simpl;
    [split; constructor|].
  split.
  - rewrite Hb. apply sublist_skip. apply sublist_app; [exact Hs | exact IH1].
  - rewrite !map_app. apply sublist_app; [exact Hs | exact IH2].
Qed.

Lemma beams_shrink_nobeam (h : heap) (abs' abs : list AnalogBeam) :
  beams_shrink abs' abs -> nobeam_ok h abs -> nobeam_ok h abs'.
Proof.
  induction 1 as [|ab' ab abs' abs (Hb & Hi & Hs) _ IH]; intros Hok ab1 b Hab Hbin.
  - inversion Hab.
  - apply elem_of_cons in Hab as [->|Hab].
    + rewrite Hi. apply (Hok ab b); [left|].
      eapply sublist_subseteq; eassumption.
    + apply IH; [|exact Hab | exact Hbin].
      intros ab2 b2 Hab2 Hb2. apply (Hok ab2 b2); [right; exact Hab2 | exact Hb2].
Qed.

Lemma beams_shrink_trans (l1 l2 l3 : list AnalogBeam) :
  beams_shrink l1 l2 -> beams_shrink l2 l3 -> beams_shrink l1 l3.
Proof.
  intros H12. revert l3. induction H12 as [|a b l1 l2 (Hb & Hi & Hs) _ IH]; intros l3 H23.
  - inversion H23. constructor.
  - inversion H23 as [|b' c l2' l3' (Hb' & Hi' & Hs') Hrest]; subst.
    constructor; [|apply IH; exact Hrest].
    split; [congruence|]. split; [congruence|]. etransitivity; eassumption.
Qed.

Lemma renumber_beams_shrink (abs : list AnalogBeam) :
  forall c, beams_shrink (renumber_beams c abs) abs.
Proof.
  induction abs as [|ab abs IH]; intros c; simpl; constructor; [|apply IH].
  simpl. split; [reflexivity|]. split; [reflexivity|].
  destruct (renumber_beam_spec (numerical_beams ab) c) as (_ & -> & _). reflexivity.
Qed.

Lemma remove_in_beam_sublist (nbs : list NumericalBeam) :
  forall c k nbs',
    fst (remove_in_beam c k nbs) = Some nbs' -> nbs' `sublist_of` nbs.
Proof.
  induction nbs as [|nb rest IH]; intros c k nbs'; simpl; [discriminate|].
  destruct (Z.eqb c k); simpl.
  - intros [= <-]. apply sublist_cons. reflexivity.
  - destruct (fst (remove_in_beam (c + 1) k rest)) as [r|] eqn:Er; simpl; [|discriminate].
    intros [= <-]. apply sublist_skip. eapply IH. exact Er.
Qed.

Lemma beams_shrink_refl (abs : list AnalogBeam) : beams_shrink abs abs.
Proof.
  induction abs as [|ab abs IH]; constructor; [|exact IH].
  split; [reflexivity|]. split; reflexivity.
Qed.

Lemma remove_in_beams_shrink (abs : list AnalogBeam) :
  forall c k, beams_shrink (remove_in_beams c k abs) abs.
Proof.
  induction abs as [|ab abs IH]; intros c k; simpl; [constructor|].
  destruct (remove_in_beam c k (numerical_beams ab)) as [[nbs|] c'] eqn:Er.
  - constructor; [|apply beams_shrink_refl].
    simpl. split; [reflexivity|]. split; [reflexivity|].
    apply (fmap_sublist nb_block). apply (remove_in_beam_sublist _ c k).
    rewrite Er. reflexivity.
  - constructor; [|apply IH]. split; [reflexivity|]. split; reflexivity.
Qed.

Section Preservation.
Context `{Astro}.
Variable PARSET_OPTIONS : list (string * loc).
Variable h0 : heap.

Lemma wf_blocks_sublist (h : heap) (bs' bs : list block) :
  wf_blocks h0 h bs -> bs' `sublist_of` bs -> wf_blocks h0 h bs'.
Proof.
  intros (Hnd & Hok & Hsep) Hsub.
  pose proof (sublist_subseteq _ _ Hsub) as Hin.
  split; [eapply sublist_NoDup; eassumption|]. split.
  - intros b Hb. apply Hok, Hin, Hb.
  - intros b b' l Hb Hb'. apply Hsep; apply Hin; assumption.
Qed.

Lemma wf_blocks_perm (h : heap) (bs' bs : list block) :
  wf_blocks h0 h bs -> bs' ≡ₚ bs -> wf_blocks h0 h bs'.
Proof.
  intros (Hnd & Hok & Hsep) Hp.
  split; [rewrite Hp; exact Hnd|]. split.
  - intros b Hb. apply Hok. rewrite <- Hp. exact Hb.
  - intros b b' l Hb Hb'. apply Hsep; rewrite <- Hp; assumption.
Qed.

(** [remove_numerical_beam] keeps the invariant. *)
Lemma remove_numerical_beam_wf (pu : ParsetUser) (h : heap) (k : Z) :
  wf h0 pu h -> wf h0 (remove_numerical_beam k pu) h.
Proof.
  intros (Hheap & Hblocks & Hfields & Hidx & Hnob).
  unfold remove_numerical_beam, _updates_numbeams_indices. cbn [analog_beams].
  set (abs1 := remove_in_beams 0 k (analog_beams pu)).
  assert (Hshrink : beams_shrink (renumber_beams 0 abs1) (analog_beams pu)).
  { eapply beams_shrink_trans; [apply renumber_beams_shrink|].
    apply remove_in_beams_shrink. }
  destruct (beams_shrink_blocks _ _ Hshrink) as [Hsub1 Hsub2].
  split; [exact Hheap|]. split; [|split; [|split]].
  - eapply wf_blocks_sublist; [exact Hblocks|].
    unfold blocks_of. simpl. do 2 apply sublist_skip. exact Hsub1.
  - intros b Hb. apply Hfields. eapply sublist_subseteq; eassumption.
  - apply renumber_beams_indexed.
  - eapply beams_shrink_nobeam; eassumption.
Qed.

(** Writing into blocks that belong to no numerical beam keeps the
    invariant. *)
Lemma write_wf (pu : ParsetUser) (h h' : heap) (ws : list block) :
  wf h0 pu h ->
  (forall w, w ∈ ws -> w ∈ blocks_of pu /\ (w ∉ nb_blocks (analog_beams pu))) ->
  entries_changed (entries_of h ws) h h' ->
  wf h0 pu h'.
Proof.
  intros (Hheap & Hblocks & Hfields & Hidx & Hnob) Hws Hc.
  split; [|split; [|split; [exact Hfields|split; [exact Hidx|]]]].
  - eapply wf_heap_writes; try eassumption. intros w Hw. apply Hws. exact Hw.
  - eapply wf_blocks_entries_changed; eassumption.
  - intros ab b Hab Hb.
    assert (Hbnb : b ∈ nb_blocks (analog_beams pu)).
    { unfold nb_blocks, all_numbeams.
      apply list_elem_of_fmap in Hb as (nb & -> & Hnb).
      apply list_elem_of_fmap. exists nb. split; [reflexivity|].
      clear - Hab Hnb. induction Hab as [ab abs|ab ab' abs _ IH]; simpl;
        apply elem_of_app; [left; exact Hnb | right; exact (IH Hnb)]. }
    rewrite (block_getitem_agree h h' b "noBeam"); [apply (Hnob ab b Hab Hb)|].
    eapply (frame_agree h0 h h' (blocks_of pu) ws); try eassumption.
    + apply nb_blocks_in_blocks_of. exact Hbnb.
    + intros w Hw. apply Hws. exact Hw.
    + intros Hin. destruct (Hws b Hin) as [_ Hnot]. contradiction.
Qed.

Lemma head_blocks_not_numerical (pu : ParsetUser) :
  NoDup (blocks_of pu) ->
  (pu_observation pu ∉ nb_blocks (analog_beams pu)) /\
  (pu_output pu ∉ nb_blocks (analog_beams pu)).
Proof.
  unfold blocks_of. intros Hnd.
  apply NoDup_cons in Hnd as [Hobs Hnd]. apply NoDup_cons in Hnd as [Hout _].
  pose proof (sublist_subseteq _ _ (nb_blocks_sublist (analog_beams pu))) as Hsub.
  split; intros Hin; apply Hsub in Hin.
  - apply Hobs. right. exact Hin.
  - apply Hout. exact Hin.
Qed.

Lemma set_block_wf (pu : ParsetUser) (h h' : heap) (b : block) (key : string) (v : pyval) :
  wf h0 pu h ->
  b ∈ blocks_of pu ->
  b ∉ nb_blocks (analog_beams pu) ->
  block_setitem b key v h = Ok h' ->
  wf h0 pu h'.
Proof.
  intros Hwf Hb Hnot Hset.
  pose proof Hwf as (_ & (_ & Hok & _) & _).
  destruct (block_setitem_spec h0 b key v h (Hok b Hb)) as (h1 & Hset1 & Hc & _).
  rewrite Hset in Hset1. injection Hset1 as <-.
  apply (write_wf pu h h' [b] Hwf).
  - intros w Hw. apply list_elem_of_singleton in Hw as ->. split; assumption.
  - unfold entries_of. simpl. rewrite app_nil_r. exact Hc.
Qed.

Lemma update_beam_numbers_wf (pu : ParsetUser) (h h' : heap) :
  wf h0 pu h -> _update_beam_numbers pu h = Ok h' -> wf h0 pu h'.
Proof.
  intros Hwf Hupd. unfold _update_beam_numbers in Hupd.
  apply bind_Ok in Hupd as (h1 & Hset1 & Hset2).
  pose proof Hwf as (_ & (Hnd & _) & _).
  destruct (head_blocks_not_numerical pu Hnd) as [Hobs _].
  assert (Hin : pu_observation pu ∈ blocks_of pu) by left.
  eapply set_block_wf; [|exact Hin | exact Hobs | exact Hset2].
  eapply set_block_wf; [exact Hwf | exact Hin | exact Hobs | exact Hset1].
Qed.

(** The renumbering of the analog beams sets up the invariant on
    its own. *)
Lemma updates_anabeams_wf (obs out : block) (abs : list AnalogBeam) (h : heap) :
  wf_heap h0 h ->
  wf_blocks h0 h (obs :: out :: concat (map beam_blocks abs)) ->
  (forall b, b ∈ nb_blocks abs -> field b = "Beam") ->
  exists pu' h',
    _updates_anabeams_indices (mk_user obs abs out) h = Ok (pu', h') /\
    wf h0 pu' h'.
Proof.
  intros Hheap Hblocks Hfields.
  set (bs := obs :: out :: concat (map beam_blocks abs)) in *.
  assert (Hsub : forall b, b ∈ nb_blocks abs -> b ∈ bs).
  { intros b Hb. right. right.
    eapply sublist_subseteq; [apply nb_blocks_sublist | exact Hb]. }
  assert (Hnd : NoDup (nb_blocks abs)).
  { destruct Hblocks as (Hnd & _).
    apply (sublist_NoDup (nb_blocks abs) bs); [exact Hnd|].
    unfold bs. do 2 apply sublist_cons. apply nb_blocks_sublist. }
  destruct (reindex_anabeams_spec h0 abs 0 h bs Hblocks Hnd)
    as (abs' & h' & Hre & Hc & Hblk & Hnbs & Hnob).
  { intros b Hb. split; [apply Hsub | apply Hfields]; exact Hb. }
  unfold _updates_anabeams_indices. cbn [analog_beams pu_observation pu_output].
  rewrite Hre. cbn [bind fst snd].
  eexists _, h'. split; [reflexivity|].
  destruct (beam_blocks_eq abs abs' Hblk Hnbs) as [Hbb Hall].
  pose proof (renumber_beams_shrink abs' 0) as Hshrink.
  destruct (beams_shrink_blocks _ _ Hshrink) as [Hs1 Hs2].
  split; [|split; [|split; [|split]]].
  - eapply wf_heap_writes; try eassumption.
  - eapply wf_blocks_sublist.
    + eapply wf_blocks_entries_changed; [exact Hblocks | exact Hc].
    + unfold blocks_of, _updates_numbeams_indices. simpl.
      do 2 apply sublist_skip. unfold bs. rewrite <- Hbb. exact Hs1.
  - intros b Hb. apply Hfields. unfold _updates_numbeams_indices in Hb. simpl in Hb.
    apply (sublist_subseteq _ _ Hs2) in Hb. unfold nb_blocks in *.
    rewrite Hall in Hb. exact Hb.
  - apply renumber_beams_indexed.
  - eapply beams_shrink_nobeam; [exact Hshrink | exact Hnob].
Qed.

Lemma remove_analog_beam_wf (pu pu' : ParsetUser) (h h' : heap) (i : Z) :
  wf h0 pu h ->
  remove_analog_beam i pu h = Ok (pu', h') ->
  wf h0 pu' h'.
Proof.
  intros (Hheap & Hblocks & Hfields & _ & _) Hrem.
  unfold remove_analog_beam in Hrem. apply bind_Ok in Hrem as (abs1 & Hdel & Hupd).
  unfold py_del in Hdel.
  destruct (norm_index i (length (analog_beams pu))) as [k|]; [|discriminate].
  injection Hdel as <-.
  pose proof (sublist_delete (analog_beams pu) k) as Hsub.
  destruct (updates_anabeams_wf (pu_observation pu) (pu_output pu)
                                (delete k (analog_beams pu)) h Hheap)
    as (pu1 & h1 & Hupd1 & Hwf1).
  - eapply wf_blocks_sublist; [exact Hblocks|].
    unfold blocks_of. do 2 apply sublist_skip. apply sublist_concat_map. exact Hsub.
  - intros b Hb. apply Hfields. unfold nb_blocks, all_numbeams in *.
    eapply sublist_subseteq; [|exact Hb].
    apply (fmap_sublist nb_block). apply sublist_concat_map. exact Hsub.
  - rewrite Hupd in Hupd1. injection Hupd1 as <- <-. exact Hwf1.
Qed.

Lemma elem_nb_blocks (abs : list AnalogBeam) (ab : AnalogBeam) (b : block) :
  ab ∈ abs -> b ∈ map nb_block (numerical_beams ab) -> b ∈ nb_blocks abs.
Proof.
  intros Hab Hb. unfold nb_blocks, all_numbeams.
  induction Hab as [ab abs|ab ab' abs _ IH]; simpl; rewrite map_app;
    apply elem_of_app; [left; exact Hb | right; exact (IH Hb)].
Qed.

Lemma elem_beam_blocks (abs : list AnalogBeam) (ab : AnalogBeam) (b : block) :
  ab ∈ abs -> b ∈ map nb_block (numerical_beams ab) ->
  b ∈ concat (map beam_blocks abs).
Proof.
  intros Hab Hb. eapply sublist_subseteq; [apply nb_blocks_sublist|].
  eapply elem_nb_blocks; eassumption.
Qed.

Lemma new_block_Ok_field (fld : string) (h h1 : heap) (b : block) :
  new_block PARSET_OPTIONS fld h = Ok (b, h1) ->
  exists l, dget fld PARSET_OPTIONS = Some l.
Proof.
  unfold new_block, getitem. destruct (dget fld PARSET_OPTIONS) as [l|]; [eauto|].
  discriminate.
Qed.

Lemma add_analog_beam_wf (pu pu' : ParsetUser) (h h' : heap)
      (kwargs : list (string * pyval)) :
  registry_ok PARSET_OPTIONS h0 ->
  wf h0 pu h ->
  add_analog_beam PARSET_OPTIONS kwargs pu h = Ok (pu', h') ->
  wf h0 pu' h'.
Proof.
  intros Hreg (Hheap & Hblocks & Hfields & _ & _) Hadd.
  unfold add_analog_beam in Hadd.
  apply bind_Ok in Hadd as ([b h1] & Hnew & Hadd).
  apply bind_Ok in Hadd as (h2 & Hmod & Hupd). cbn [fst snd] in *.
  destruct (new_block_Ok_field _ _ _ _ Hnew) as [l Hl].
  destruct (new_block_spec PARSET_OPTIONS h0 "Anabeam" l h (blocks_of pu)
                           Hreg Hl Hheap Hblocks)
    as (b' & h1' & Hnew' & Hfld & Hheap1 & Hblocks1 & Hold).
  rewrite Hnew in Hnew'. injection Hnew' as <- <-.
  pose proof Hblocks1 as (_ & Hok1 & _).
  destruct (modify_properties_spec h0 b kwargs h1) as (h2' & Hmod' & Hc);
    [apply Hok1; left|].
  rewrite Hmod in Hmod'. injection Hmod' as <-.
  assert (Hc' : entries_changed (entries_of h1 [b]) h1 h2).
  { unfold entries_of. simpl. rewrite app_nil_r. exact Hc. }
  assert (Hheap2 : wf_heap h0 h2).
  { eapply (wf_heap_writes h0 h1 h2 (b :: blocks_of pu) [b]); try eassumption.
    intros w Hw. apply list_elem_of_singleton in Hw as ->. left. }
  pose proof (wf_blocks_entries_changed h0 _ _ _ _ Hblocks1 Hc) as Hblocks2.
  destruct (updates_anabeams_wf (pu_observation pu) (pu_output pu)
              (analog_beams pu ++ [mk_anabeam b 0 []]) h2 Hheap2)
    as (pu1 & h3 & Hupd1 & Hwf1).
  - eapply wf_blocks_perm; [exact Hblocks2|].
    unfold blocks_of. rewrite map_app, concat_app. simpl.
    change (pu_observation pu :: pu_output pu
              :: concat (map beam_blocks (analog_beams pu)) ++ [b])
      with ((pu_observation pu :: pu_output pu
               :: concat (map beam_blocks (analog_beams pu))) ++ [b]).
    symmetry. apply Permutation_cons_append.
  - intros b' Hb'. apply Hfields. unfold nb_blocks, all_numbeams in *.
    rewrite map_app, concat_app in Hb'. simpl in Hb'. rewrite app_nil_r in Hb'.
    exact Hb'.
  - rewrite Hupd in Hupd1. injection Hupd1 as <- <-. exact Hwf1.
Qed.

Lemma add_numerical_beam_wf (pu pu' : ParsetUser) (h h' : heap) (i : Z)
      (kwargs : list (string * pyval)) :
  registry_ok PARSET_OPTIONS h0 ->
  wf h0 pu h ->
  add_numerical_beam PARSET_OPTIONS i kwargs pu h = Ok (pu', h') ->
  wf h0 pu' h'.
Proof.
  intros Hreg (Hheap & Hblocks & Hfields & _ & Hnob) Hadd.
  unfold add_numerical_beam in Hadd.
  apply bind_Ok in Hadd as ([k ab] & Hidx & Hadd).
  apply bind_Ok in Hadd as ([b h1] & Hnew & Hadd).
  apply bind_Ok in Hadd as (h2 & Hmod & Hadd).
  apply bind_Ok in Hadd as (h3 & Hprop & Hadd). cbn [fst snd] in *.
  injection Hadd as <- <-.
  (* the analog beam that receives the new beam *)
  unfold py_index in Hidx.
  destruct (norm_index i (length (analog_beams pu))) as [k'|]; [|discriminate].
  destruct (analog_beams pu !! k') as [ab'|] eqn:Hk; [|discriminate].
  injection Hidx as -> ->.
  pose proof (take_drop_middle _ _ _ Hk) as Hsplit.
  pose proof (lookup_lt_Some _ _ _ Hk) as Hlt.
  set (A := take k (analog_beams pu)) in *.
  set (B := drop (S k) (analog_beams pu)) in *.
  (* the new block *)
  destruct (new_block_Ok_field _ _ _ _ Hnew) as [l Hl].
  destruct (new_block_spec PARSET_OPTIONS h0 "Beam" l h (blocks_of pu)
                           Hreg Hl Hheap Hblocks)
    as (b' & h1' & Hnew' & Hfld & Hheap1 & Hblocks1 & Hold).
  rewrite Hnew in Hnew'. injection Hnew' as <- <-.
  set (bs := b :: blocks_of pu) in *.
  pose proof Hblocks1 as (Hnd1 & Hok1 & _).
  destruct (modify_properties_spec h0 b kwargs h1) as (h2' & Hmod' & Hc12);
    [apply Hok1; left|].
  rewrite Hmod in Hmod'. injection Hmod' as <-.
  assert (Hc12' : entries_changed (entries_of h1 [b]) h1 h2).
  { unfold entries_of. simpl. rewrite app_nil_r. exact Hc12. }
  assert (Hheap2 : wf_heap h0 h2).
  { eapply (wf_heap_writes h0 h1 h2 bs [b]); try eassumption.
    intros w Hw. apply list_elem_of_singleton in Hw as ->. left. }
  pose proof (wf_blocks_entries_changed h0 _ _ _ _ Hblocks1 Hc12) as Hblocks2.
  (* the propagation of the index *)
  set (nbs := numerical_beams ab ++ [mk_numbeam b 0]) in *.
  assert (Hab : ab ∈ analog_beams pu) by (eapply list_elem_of_lookup_2; exact Hk).
  assert (Hws : forall w, w ∈ map nb_block nbs -> w ∈ bs /\ field w = "Beam").
  { intros w Hw. unfold nbs in Hw. rewrite map_app in Hw.
    apply elem_of_app in Hw as [Hw|Hw].
    - pose proof (elem_nb_blocks _ _ _ Hab Hw) as Hwin. split.
      + right. apply nb_blocks_in_blocks_of. exact Hwin.
      + apply Hfields. exact Hwin.
    - simpl in Hw. apply list_elem_of_singleton in Hw as ->. split; [left | exact Hfld]. }
  unfold _propagate_index in Hprop. cbn [ab_index numerical_beams] in Hprop.
  destruct (propagate_to_spec h0 (ab_index ab) nbs h2 bs Hblocks2 Hws)
    as (h3' & Hprop' & Hc23 & Hreads).
  rewrite Hprop in Hprop'. injection Hprop' as <-.
  assert (Hheap3 : wf_heap h0 h3).
  { eapply (wf_heap_writes h0 h2 h3 bs (map nb_block nbs)); try eassumption.
    intros w Hw. apply Hws. exact Hw. }
  pose proof (wf_blocks_entries_changed h0 _ _ _ _ Hblocks2 Hc23) as Hblocks3.
  (* the new hierarchy *)
  set (ab2 := mk_anabeam (ab_block ab) (ab_index ab) nbs) in *.
  assert (Hins : <[k := ab2]> (analog_beams pu) = A ++ ab2 :: B).
  { unfold A, B. apply insert_take_drop. exact Hlt. }
  unfold _updates_numbeams_indices. cbn [analog_beams pu_observation pu_output].
  rewrite Hins.
  pose proof (renumber_beams_shrink (A ++ ab2 :: B) 0) as Hshrink.
  destruct (beams_shrink_blocks _ _ Hshrink) as [Hs1 Hs2].
  assert (Hperm : pu_observation pu :: pu_output pu
                    :: concat (map beam_blocks (A ++ ab2 :: B)) ≡ₚ bs).
  { unfold bs, blocks_of. rewrite <- Hsplit.
    rewrite !map_app, !concat_app. simpl.
    unfold beam_blocks at 2 4. unfold ab2, nbs. simpl. rewrite map_app. simpl.
    solve_Permutation. }
  assert (Hdisj : forall ab1 b1,
             ab1 ∈ A ++ B -> b1 ∈ map nb_block (numerical_beams ab1) ->
             b1 ∈ blocks_of pu /\ b1 ∉ map nb_block nbs).
  { intros ab1 b1 Hab1 Hb1.
    assert (Hab1' : ab1 ∈ analog_beams pu).
    { rewrite <- Hsplit. apply elem_of_app in Hab1 as [?|?];
        apply elem_of_app; [left | right; right]; assumption. }
    pose proof (nb_blocks_in_blocks_of pu b1 (elem_nb_blocks _ _ _ Hab1' Hb1)) as Hin.
    split; [exact Hin|].
    intros Hw. unfold nbs in Hw. rewrite map_app in Hw.
    apply elem_of_app in Hw as [Hw|Hw].
    - destruct Hblocks as (Hnd & _). unfold blocks_of in Hnd.
      apply NoDup_cons in Hnd as [_ Hnd]. apply NoDup_cons in Hnd as [_ Hnd].
      rewrite <- Hsplit in Hnd.
      rewrite map_app, concat_app, map_cons, concat_cons in Hnd.
      apply NoDup_app in Hnd as (_ & HAB & Hnd).
      apply NoDup_app in Hnd as (_ & HabB & _).
      assert (Hbab : b1 ∈ beam_blocks ab) by (right; exact Hw).
      apply elem_of_app in Hab1 as [Hab1|Hab1].
      + apply (HAB b1); [eapply elem_beam_blocks; eassumption|].
        apply elem_of_app. left. exact Hbab.
      + apply (HabB b1 Hbab). eapply elem_beam_blocks; eassumption.
    - simpl in Hw. apply list_elem_of_singleton in Hw as ->.
      apply NoDup_cons in Hnd1 as [Hnot _]. contradiction. }
  split; [exact Hheap3|]. split; [|split; [|split]].
  - eapply wf_blocks_sublist.
    + eapply wf_blocks_perm; [exact Hblocks3 | exact Hperm].
    + unfold blocks_of. simpl. do 2 apply sublist_skip. exact Hs1.
  - intros b1 Hb1. simpl in Hb1. apply (sublist_subseteq _ _ Hs2) in Hb1.
    unfold nb_blocks, all_numbeams in Hb1.
    rewrite map_app, concat_app, map_app in Hb1. simpl in Hb1. rewrite map_app in Hb1.
    apply elem_of_app in Hb1 as [Hb1|Hb1]; [|apply elem_of_app in Hb1 as [Hb1|Hb1]].
    + apply Hfields. unfold nb_blocks, all_numbeams. rewrite <- Hsplit.
      rewrite map_app, concat_app, map_app. apply elem_of_app. left. exact Hb1.
    + apply Hws. exact Hb1.
    + apply Hfields. unfold nb_blocks, all_numbeams. rewrite <- Hsplit.
      rewrite map_app, concat_app, map_app. apply elem_of_app. right.
      simpl. rewrite map_app. apply elem_of_app. right. exact Hb1.
  - apply renumber_beams_indexed.
  - eapply beams_shrink_nobeam; [exact Hshrink|].
    intros ab1 b1 Hab1 Hb1.
    assert (Hcases : ab1 = ab2 \/ ab1 ∈ A ++ B).
    { apply elem_of_app in Hab1 as [?|Hab1]; [right; apply elem_of_app; left; assumption|].
      apply elem_of_cons in Hab1 as [->|?]; [left; reflexivity|].
      right. apply elem_of_app. right. assumption. }
    destruct Hcases as [->|Hold1].
    + simpl in Hb1 |- *. apply Hreads. exact Hb1.
    + destruct (Hdisj ab1 b1 Hold1 Hb1) as [Hin Hnot].
      assert (Hab1' : ab1 ∈ analog_beams pu).
      { rewrite <- Hsplit. apply elem_of_app in Hold1 as [?|?];
          apply elem_of_app; [left | right; right]; assumption. }
      rewrite <- (Hnob ab1 b1 Hab1' Hb1).
      transitivity (block_getitem b1 "noBeam" h2);
        [|transitivity (block_getitem b1 "noBeam" h1)].
      * apply block_getitem_agree.
        eapply (frame_agree h0 h2 h3 bs (map nb_block nbs)); try eassumption.
        -- right. exact Hin.
        -- intros w Hw. apply Hws. exact Hw.
      * apply block_getitem_agree.
        eapply (frame_agree h0 h1 h2 bs [b]); try eassumption.
        -- right. exact Hin.
        -- intros w Hw. apply list_elem_of_singleton in Hw as ->. left.
        -- intros Hw. apply list_elem_of_singleton in Hw as ->.
           apply NoDup_cons in Hnd1 as [Hnotin _]. contradiction.
      * apply block_getitem_agree. intros x Hx. apply Hold.
        destruct Hblocks as (_ & Hok & _).
        apply (footprint_bounds h0 h b1 x Hheap (Hok b1 Hin) Hx).
Qed.

Lemma new_user_wf (pu : ParsetUser) (h : heap) :
  registry_ok PARSET_OPTIONS h0 ->
  new_user PARSET_OPTIONS h0 = Ok (pu, h) ->
  wf h0 pu h.
Proof.
  intros Hreg Hnew. unfold new_user in Hnew.
  apply bind_Ok in Hnew as ([o h1] & Hobs & Hnew).
  apply bind_Ok in Hnew as ([u h2] & Hout & Hnew). cbn [fst snd] in *.
  injection Hnew as <- <-.
  assert (Hheap0 : wf_heap h0 h0).
  { destruct Hreg as (Hfresh & _). split; [lia|]. split; [exact Hfresh|].
    intros l _. reflexivity. }
  assert (Hblocks0 : wf_blocks h0 h0 []).
  { split; [constructor|].
    split; [intros b Hb; inversion Hb | intros b b' l Hb; inversion Hb]. }
  destruct (new_block_Ok_field _ _ _ _ Hobs) as [l1 Hl1].
  destruct (new_block_spec PARSET_OPTIONS h0 "Observation" l1 h0 [] Hreg Hl1 Hheap0 Hblocks0)
    as (o' & h1' & Hobs' & _ & Hheap1 & Hblocks1 & _).
  rewrite Hobs in Hobs'. injection Hobs' as <- <-.
  destruct (new_block_Ok_field _ _ _ _ Hout) as [l2 Hl2].
  destruct (new_block_spec PARSET_OPTIONS h0 "Output" l2 h1 [o] Hreg Hl2 Hheap1 Hblocks1)
    as (u' & h2' & Hout' & _ & Hheap2 & Hblocks2 & _).
  rewrite Hout in Hout'. injection Hout' as <- <-.
  split; [exact Hheap2|]. split; [|split; [|split]].
  - eapply wf_blocks_perm; [exact Hblocks2|]. unfold blocks_of. simpl.
    apply Permutation_swap.
  - intros b Hb. inversion Hb.
  - intros i nb Hi. destruct i; discriminate.
  - intros ab b Hab. inversion Hab.
Qed.

Lemma ab_block_not_numerical (abs : list AnalogBeam) (ab : AnalogBeam) :
  NoDup (concat (map beam_blocks abs)) ->
  ab ∈ abs ->
  ab_block ab ∈ concat (map beam_blocks abs) /\ (ab_block ab ∉ nb_blocks abs).
Proof.
  unfold nb_blocks, all_numbeams.
  induction abs as [|a rest IH]; intros Hnd Hab; [inversion Hab|].
  rewrite map_cons, concat_cons in Hnd |- *.
  simpl concat. rewrite map_app.
  apply NoDup_app in Hnd as (Hnd1 & Hdisj & Hnd2).
  pose proof (sublist_subseteq _ _ (nb_blocks_sublist rest)) as Hsub.
  unfold nb_blocks, all_numbeams in Hsub.
  apply elem_of_cons in Hab as [->|Hab].
  - split; [apply elem_of_app; left; left|].
    intros Hin. apply elem_of_app in Hin as [Hin|Hin].
    + unfold beam_blocks in Hnd1. apply NoDup_cons in Hnd1 as [Hnot _]. contradiction.
    + apply (Hdisj (ab_block a)); [left | apply Hsub; exact Hin].
  - destruct (IH Hnd2 Hab) as [Hin Hnot].
    split; [apply elem_of_app; right; exact Hin|].
    intros Hin'. apply elem_of_app in Hin' as [Hin'|Hin']; [|contradiction].
    apply (Hdisj (ab_block ab)); [right; exact Hin' | exact Hin].
Qed.

(** An assignment to a field of a numerical beam other than [noBeam]
    keeps the invariant. *)
Lemma set_numerical_wf (pu : ParsetUser) (h h' : heap) (b : block)
      (key : string) (v : pyval) :
  wf h0 pu h ->
  b ∈ nb_blocks (analog_beams pu) ->
  key <> "noBeam" ->
  block_setitem b key v h = Ok h' ->
  wf h0 pu h'.
Proof.
  intros (Hheap & Hblocks & Hfields & Hidx & Hnob) Hb Hkey Hset.
  pose proof Hblocks as (_ & Hok & _).
  pose proof (nb_blocks_in_blocks_of pu b Hb) as Hbin.
  destruct (block_setitem_spec h0 b key v h (Hok b Hbin)) as (h1 & Hset1 & Hc & _ & Hother).
  rewrite Hset in Hset1. injection Hset1 as <-.
  assert (Hc' : entries_changed (entries_of h [b]) h h').
  { unfold entries_of. simpl. rewrite app_nil_r. exact Hc. }
  assert (Hws : forall w, w ∈ [b] -> w ∈ blocks_of pu).
  { intros w Hw. apply list_elem_of_singleton in Hw as ->. exact Hbin. }
  split; [|split; [|split; [exact Hfields|split; [exact Hidx|]]]].
  - eapply wf_heap_writes; eassumption.
  - eapply wf_blocks_entries_changed; eassumption.
  - intros ab b' Hab Hb'. rewrite <- (Hnob ab b' Hab Hb').
    destruct (decide (b' = b)) as [->|Hne].
    + unfold block_getitem. rewrite (Hother "noBeam"); [reflexivity|]. congruence.
    + apply block_getitem_agree.
      eapply (frame_agree h0 h h' (blocks_of pu) [b]); try eassumption.
      * apply nb_blocks_in_blocks_of. eapply elem_nb_blocks; eassumption.
      * intros Hin. apply list_elem_of_singleton in Hin. contradiction.
Qed.

Lemma py_index_elem {A : Type} (i : Z) (l : list A) (k : nat) (a : A) :
  py_index i l = Ok (k, a) -> a ∈ l.
Proof.
  unfold py_index. destruct (norm_index i (length l)) as [k'|]; [|discriminate].
  destruct (l !! k') as [a'|] eqn:Hk; [|discriminate].
  intros [= <- <-]. eapply list_elem_of_lookup_2. exact Hk.
Qed.

Lemma run_call_wf (c : call) (pu pu' : ParsetUser) (h h' : heap) :
  registry_ok PARSET_OPTIONS h0 ->
  wf h0 pu h ->
  allowed c ->
  run_call PARSET_OPTIONS c pu h = Ok (pu', h') ->
  wf h0 pu' h'.
Proof.
  intros Hreg Hwf Hallowed Hrun.
  destruct c as [kw|i|i kw|k| |key v|key v|i key v|i j key v]; simpl in Hrun.
  - eapply add_analog_beam_wf; eassumption.
  - eapply remove_analog_beam_wf; eassumption.
  - eapply add_numerical_beam_wf; eassumption.
  - injection Hrun as <- <-. apply remove_numerical_beam_wf. exact Hwf.
  - apply bind_Ok in Hrun as (h1 & Hupd & Hrun). injection Hrun as <- <-.
    eapply update_beam_numbers_wf; eassumption.
  - apply bind_Ok in Hrun as (h1 & Hset & Hrun). injection Hrun as <- <-.
    pose proof Hwf as (_ & (Hnd & _) & _).
    destruct (head_blocks_not_numerical pu Hnd) as [Hobs _].
    eapply set_block_wf; [exact Hwf | left | exact Hobs | exact Hset].
  - apply bind_Ok in Hrun as (h1 & Hset & Hrun). injection Hrun as <- <-.
    pose proof Hwf as (_ & (Hnd & _) & _).
    destruct (head_blocks_not_numerical pu Hnd) as [_ Hout].
    eapply set_block_wf; [exact Hwf | right; left | exact Hout | exact Hset].
  - apply bind_Ok in Hrun as ([k ab] & Hidx & Hrun).
    apply bind_Ok in Hrun as (h1 & Hset & Hrun). injection Hrun as <- <-.
    apply py_index_elem in Hidx. cbn [snd] in Hset.
    pose proof Hwf as (_ & (Hnd & _) & _). unfold blocks_of in Hnd.
    apply NoDup_cons in Hnd as [_ Hnd]. apply NoDup_cons in Hnd as [_ Hnd].
    destruct (ab_block_not_numerical _ ab Hnd Hidx) as [Hin Hnot].
    eapply set_block_wf; [exact Hwf | right; right; exact Hin | exact Hnot | exact Hset].
  - apply bind_Ok in Hrun as ([k ab] & Hidx & Hrun).
    apply bind_Ok in Hrun as ([n nb] & Hjdx & Hrun).
    apply bind_Ok in Hrun as (h1 & Hset & Hrun). injection Hrun as <- <-.
    apply py_index_elem in Hidx. apply py_index_elem in Hjdx. cbn [snd] in *.
    eapply set_numerical_wf; [exact Hwf | | exact Hallowed | exact Hset].
    eapply elem_nb_blocks; [exact Hidx|].
    apply list_elem_of_fmap. exists nb. split; [reflexivity | exact Hjdx].
Qed.

Lemma run_calls_wf (cs : list call) :
  forall (pu pu' : ParsetUser) (h h' : heap),
    registry_ok PARSET_OPTIONS h0 ->
    wf h0 pu h ->
    Forall allowed cs ->
    run_calls PARSET_OPTIONS cs pu h = (pu', h') ->
    wf h0 pu' h'.
Proof.
  induction cs as [|c cs IH]; intros pu pu' h h' Hreg Hwf Hall Hrun; simpl in Hrun.
  - injection Hrun as <- <-. exact Hwf.
  - apply Forall_cons in Hall as [Hc Hall].
    destruct (run_call PARSET_OPTIONS c pu h) as [[pu1 h1]|x] eqn:Hcall.
    + eapply IH; [exact Hreg | | exact Hall | exact Hrun].
      eapply run_call_wf; eassumption.
    + eapply IH; eassumption.
Qed.

(** Every state a user can reach satisfies the invariant. *)
Lemma reachable_wf (pu : ParsetUser) (h : heap) :
  registry_ok PARSET_OPTIONS h0 ->
  reachable PARSET_OPTIONS h0 pu h ->
  wf h0 pu h.
Proof.
  intros Hreg (pu0 & h1 & cs & Hnew & Hall & Hrun).
  eapply run_calls_wf; [exact Hreg | | exact Hall | exact Hrun].
  apply new_user_wf; assumption.
Qed.



Lemma written_modified (v : pyval) (e : list (string * pyval)) :
  dget "modified" (written v e) = Some (PBool true).
Proof. unfold written. apply dget_dset_eq. Qed.

(** The owner of a numerical beam of the hierarchy. *)
Lemma all_numbeams_owner (abs : list AnalogBeam) (nb : NumericalBeam) :
  nb ∈ all_numbeams abs -> exists ab, ab ∈ abs /\ nb ∈ numerical_beams ab.
Proof.
  unfold all_numbeams. induction abs as [|ab abs IH]; simpl; intros Hnb.
  - inversion Hnb.
  - apply elem_of_app in Hnb as [Hnb|Hnb].
    + exists ab. split; [left | exact Hnb].
    + destruct (IH Hnb) as (ab' & Hab' & Hin). exists ab'. split; [right|]; assumption.
Qed.

Lemma removal_facts (pu : ParsetUser) (h : heap) (k : Z) :
  wf h0 pu h ->
  0 <= k < Z.of_nat (length (all_numbeams (analog_beams pu))) ->
  (forall nb, nb ∈ all_numbeams (analog_beams pu) ->
              k < nb_index nb ->
              exists nb',
                nb' ∈ all_numbeams (analog_beams (remove_numerical_beam k pu)) /\
                nb_block nb' = nb_block nb /\
                nb_index nb' = nb_index nb - 1) /\
  (forall nb, nb ∈ all_numbeams (analog_beams (remove_numerical_beam k pu)) ->
              exists ab,
                ab ∈ analog_beams (remove_numerical_beam k pu) /\
                nb ∈ numerical_beams ab /\
                block_getitem (nb_block nb) "noBeam" h = Ok (PInt (ab_index ab))) /\
  length (all_numbeams (analog_beams (remove_numerical_beam k pu))) =
    (length (all_numbeams (analog_beams pu)) - 1)%nat.
Proof.
  intros Hwf Hk. pose proof Hwf as (_ & _ & _ & Hidx & _).
  pose proof (remove_numerical_beam_wf pu h k Hwf) as (_ & _ & _ & _ & Hnob').
  split; [|split].
  - intros nb Hnb Hlt. apply list_elem_of_lookup in Hnb as [i Hi].
    pose proof (Hidx i nb Hi) as Hnbi. rewrite Hnbi in Hlt |- *.
    destruct (remove_numerical_beam_shifts pu k i nb) as (nb' & Hi' & Hblk & Hidx');
      [lia | exact Hi | lia|].
    exists nb'. split; [eapply list_elem_of_lookup_2; exact Hi'|].
    split; [exact Hblk | lia].
  - intros nb Hnb. destruct (all_numbeams_owner _ nb Hnb) as (ab & Hab & Hin).
    exists ab. split; [exact Hab|]. split; [exact Hin|].
    apply (Hnob' ab (nb_block nb) Hab). apply list_elem_of_fmap.
    exists nb. split; [reflexivity | exact Hin].
  - unfold remove_numerical_beam, _updates_numbeams_indices. simpl.
    rewrite <- (length_map nb_block (all_numbeams _)).
    rewrite renumber_beams_blocks, length_map.
    rewrite remove_in_beams_delete by lia.
    rewrite length_delete; [reflexivity|].
    apply lookup_lt_is_Some. lia.
Qed.
End Preservation.

End WriterFacts.

(** *** The demonstration registry *)

Module WriterDemoFacts.
Import Writer WriterDemo.

Lemma toy_registry_ok : registry_ok toy_options toy_registry.
Proof.
  split; [|split].
  - intros l Hl. simpl in Hl. unfold toy_registry, toy_objects. simpl.
    rewrite !lookup_insert_ne by lia. apply lookup_empty.
  - intros fld l Hget. unfold toy_options in Hget. simpl in Hget.
    repeat match type of Hget with
           | (if ?c then _ else _) = _ => destruct c
           end; try discriminate; injection Hget as <-;
      (eexists; split; [vm_compute; reflexivity|]; split;
       [apply (bool_decide_unpack _); vm_compute; exact I|]);
      intros k le Hin;
      repeat (apply elem_of_cons in Hin as [Hin|Hin];
              [injection Hin as -> ->; eexists; vm_compute; reflexivity|]);
      inversion Hin.
  - intros l kvs Hget Hobj. vm_compute in Hget. injection Hget as <-.
    vm_compute in Hobj. injection Hobj as <-. reflexivity.
Qed.

Lemma demo_state_reachable :
  reachable (H := toy_astro) toy_options toy_registry (fst demo_state) (snd demo_state).
Proof.
  destruct (new_user toy_options toy_registry) as [[pu0 h1]|x] eqn:Hnew;
    [|vm_compute in Hnew; discriminate].
  exists pu0, h1, demo_calls. split; [exact Hnew|]. split.
  - unfold demo_calls. repeat constructor. discriminate.
  - unfold demo_state. rewrite Hnew. destruct (run_calls _ _ _ _). reflexivity.
Qed.
End WriterDemoFacts.

(** C8, as stated, fails: a numerical beam takes an assignment to its
    [noBeam] as it takes one to any other key, and neither
    [remove_numerical_beam] nor the renumbering that follows writes
    [noBeam].  After [numbeam['noBeam'] = 7] on the second beam of the
    only analog beam, removing the first beam leaves a beam whose
    back-reference is 7, while the only analog beam has index 0. *)
Lemma stray_back_reference_survives :
  ~ (forall (A : Astro) (PARSET_OPTIONS : list (string * nat)) (h0 h : Writer.heap)
            (pu : Writer.ParsetUser) (k : Z),
        Writer.registry_ok PARSET_OPTIONS h0 ->
        Writer.reachable_unrestricted PARSET_OPTIONS h0 pu h ->
        0 <= k < Z.of_nat (length (Writer.all_numbeams (Writer.analog_beams pu))) ->
        forall nb, nb ∈ Writer.all_numbeams
                          (Writer.analog_beams (Writer.remove_numerical_beam k pu)) ->
                   exists ab,
                     ab ∈ Writer.analog_beams (Writer.remove_numerical_beam k pu) /\
                     Writer.block_getitem (Writer.nb_block nb) "noBeam" h =
                       Ok (Writer.PInt (Writer.ab_index ab))).
Proof.
  intros Hclaim.
  assert (Hreach : Writer.reachable_unrestricted (H := toy_astro) WriterDemo.toy_options
                     WriterDemo.toy_registry (fst WriterDemo.stray_state)
                     (snd WriterDemo.stray_state)).
  { destruct (Writer.new_user WriterDemo.toy_options WriterDemo.toy_registry)
      as [[pu0 h1]|x] eqn:Hnew; [|vm_compute in Hnew; discriminate].
    exists pu0, h1, WriterDemo.stray_calls. split; [exact Hnew|].
    unfold WriterDemo.stray_state. rewrite Hnew.
    destruct (Writer.run_calls _ _ _ _). reflexivity. }
  destruct (Hclaim toy_astro WriterDemo.toy_options WriterDemo.toy_registry
              (snd WriterDemo.stray_state) (fst WriterDemo.stray_state) 0
              WriterDemoFacts.toy_registry_ok Hreach
              ltac:(vm_compute; split; [discriminate | reflexivity])
              (Writer.mk_numbeam (Writer.mk_block "Beam" 26) 0)
              ltac:(vm_compute; left))
    as (ab & Hab & Hget).
  vm_compute in Hab. apply list_elem_of_singleton in Hab as ->.
  vm_compute in Hget. discriminate.
Qed.

Example stray_state_back_references :
  map (fun nb => (Writer.nb_index nb,
                  Writer.block_getitem (Writer.nb_block nb) "noBeam"
                                       (snd WriterDemo.stray_state)))
      (Writer.all_numbeams
         (Writer.analog_beams
            (Writer.remove_numerical_beam 0 (fst WriterDemo.stray_state))))
  = [(0, Ok (Writer.PInt 7))] /\
  map Writer.ab_index
      (Writer.analog_beams (Writer.remove_numerical_beam 0 (fst WriterDemo.stray_state)))
  = [0].
Proof. vm_compute. split; reflexivity. Qed.

(** C8, amended.  In every hierarchy a user can build (by the methods of
    [ParsetUser] and by assignments to fields other than the
    back-reference itself), removing the numerical beam at position [k]
    leaves every beam whose index was above [k] with that index less
    one; every beam that remains has a [noBeam] equal to the index of an
    analog beam of the hierarchy, the one that holds it; and there is
    one beam less.  The schema of a numerical beam is assumed to have the
    key [noBeam]. *)
Theorem remove_numerical_beam_renumbers `{Astro}
        (PARSET_OPTIONS : list (string * nat)) (h0 h : Writer.heap)
        (pu : Writer.ParsetUser) (k : Z) :
  Writer.registry_ok PARSET_OPTIONS h0 ->
  Writer.reachable PARSET_OPTIONS h0 pu h ->
  0 <= k < Z.of_nat (length (Writer.all_numbeams (Writer.analog_beams pu))) ->
  (forall nb, nb ∈ Writer.all_numbeams (Writer.analog_beams pu) ->
              k < Writer.nb_index nb ->
              exists nb',
                nb' ∈ Writer.all_numbeams
                        (Writer.analog_beams (Writer.remove_numerical_beam k pu)) /\
                Writer.nb_block nb' = Writer.nb_block nb /\
                Writer.nb_index nb' = Writer.nb_index nb - 1) /\
  (forall nb, nb ∈ Writer.all_numbeams
                     (Writer.analog_beams (Writer.remove_numerical_beam k pu)) ->
              exists ab,
                ab ∈ Writer.analog_beams (Writer.remove_numerical_beam k pu) /\
                nb ∈ Writer.numerical_beams ab /\
                Writer.block_getitem (Writer.nb_block nb) "noBeam" h =
                  Ok (Writer.PInt (Writer.ab_index ab))) /\
  length (Writer.all_numbeams (Writer.analog_beams (Writer.remove_numerical_beam k pu))) =
    (length (Writer.all_numbeams (Writer.analog_beams pu)) - 1)%nat.
Proof.
  intros Hreg Hreach Hk.
  apply (WriterFacts.removal_facts h0 pu h k); [|exact Hk].
  eapply WriterFacts.reachable_wf; eassumption.
Qed.

Lemma remove_numerical_beam_renumbers_witness :
  let pu := fst WriterDemo.demo_state in
  let h := snd WriterDemo.demo_state in
  (forall nb, nb ∈ Writer.all_numbeams (Writer.analog_beams pu) ->
              1 < Writer.nb_index nb ->
              exists nb',
                nb' ∈ Writer.all_numbeams
                        (Writer.analog_beams (Writer.remove_numerical_beam 1 pu)) /\
                Writer.nb_block nb' = Writer.nb_block nb /\
                Writer.nb_index nb' = Writer.nb_index nb - 1) /\
  (forall nb, nb ∈ Writer.all_numbeams
                     (Writer.analog_beams (Writer.remove_numerical_beam 1 pu)) ->
              exists ab,
                ab ∈ Writer.analog_beams (Writer.remove_numerical_beam 1 pu) /\
                nb ∈ Writer.numerical_beams ab /\
                Writer.block_getitem (Writer.nb_block nb) "noBeam" h =
                  Ok (Writer.PInt (Writer.ab_index ab))) /\
  length (Writer.all_numbeams (Writer.analog_beams (Writer.remove_numerical_beam 1 pu))) =
    (length (Writer.all_numbeams (Writer.analog_beams pu)) - 1)%nat.
Proof.
  apply (remove_numerical_beam_renumbers (H := toy_astro)
           WriterDemo.toy_options WriterDemo.toy_registry).
  - exact WriterDemoFacts.toy_registry_ok.
  - exact WriterDemoFacts.demo_state_reachable.
  - vm_compute. split; [discriminate | reflexivity].
Defined.

Example demo_before_removal :
  map (fun nb => (Writer.configuration (Writer.nb_block nb), Writer.nb_index nb))
      (Writer.all_numbeams (Writer.analog_beams (fst WriterDemo.demo_state)))
  = [(22%nat, 0); (26%nat, 1); (37%nat, 2); (33%nat, 3)].
Proof. vm_compute. reflexivity. Qed.

Example demo_after_removal :
  map (fun nb => (Writer.configuration (Writer.nb_block nb), Writer.nb_index nb,
                  Writer.block_getitem (Writer.nb_block nb) "noBeam"
                                       (snd WriterDemo.demo_state)))
      (Writer.all_numbeams
         (Writer.analog_beams (Writer.remove_numerical_beam 1 (fst WriterDemo.demo_state))))
  = [(22%nat, 0, Ok (Writer.PInt 0)); (37%nat, 1, Ok (Writer.PInt 0));
     (33%nat, 2, Ok (Writer.PInt 1))].
Proof. vm_compute. reflexivity. Qed.



(** * Further properties of the module *)

(** ** Strings *)

Module PyStrFacts.


Lemma rev_app_nil (s : string) : String.rev_app EmptyString s = s.
Proof. reflexivity. Qed.

Lemma app_cons (c : ascii) (s t : string) :
  (String c s ++ t)%string = String c (s ++ t).
Proof. reflexivity. Qed.

Lemma app_nil_r (s : string) : (s ++ EmptyString)%string = s.
Proof. induction s as [|c s IH]; [reflexivity|]. rewrite app_cons. f_equal. exact IH. Qed.

Lemma app_assoc (a b c : string) : ((a ++ b) ++ c)%string = (a ++ b ++ c)%string.
Proof. induction a as [|x a IH]; [reflexivity|]. rewrite !app_cons. f_equal. exact IH. Qed.

Lemma rev_app_eq (s t : string) : String.rev_app s t = (String.rev s ++ t)%string.
Proof.
  revert t. induction s as [|c s IH]; intros t; [reflexivity|].
  unfold String.rev. simpl. rewrite (IH (String c t)), (IH (String c EmptyString)).
  rewrite app_assoc. reflexivity.
Qed.



(** *** Characters *)

Lemma no_char_app (c : ascii) (a b : string) :
  no_char c (a ++ b) = no_char c a && no_char c b.
Proof.
  induction a as [|x a IH]; [reflexivity|].
  change (String x a ++ b)%string with (String x (a ++ b)). simpl.
  rewrite IH. apply andb_assoc.
Qed.


Lemma startswith_app (p s : string) : PyStr.startswith p (p ++ s) = true.
Proof.
  induction p as [|c p IH]; [reflexivity|].
  change (String c p ++ s)%string with (String c (p ++ s)). simpl.
  rewrite Ascii.eqb_refl. exact IH.
Qed.

Lemma no_char_contains (c : ascii) (sep' s : string) :
  no_char c s = true -> PyStr.contains (String c sep') s = false.
Proof.
  induction s as [|x s IH]; simpl; [reflexivity|].
  intros Hno. apply andb_prop in Hno as [Hx Hs].
  apply negb_true_iff in Hx. rewrite Ascii.eqb_sym, Hx. simpl. auto.
Qed.


(** *** Splitting *)

(** Without an occurrence of the separator there is one piece. *)
Lemma split_go_nosplit (sep : string) (limit : option nat) (s : string) :
  forall cur,
    PyStr.contains sep s = false ->
    PyStr.split_go sep limit 0 cur s = [String.rev_app cur s].
Proof.
  induction s as [|c s IH]; intros cur Hno; [reflexivity|].
  simpl in Hno. apply orb_false_elim in Hno as [Hstart Hrest].
  change (PyStr.split_go sep limit 0 cur (String c s)) with
    (let may_split := match limit with Some O => false | _ => true end in
     if may_split && PyStr.startswith sep (String c s) then
       String.rev cur ::
         PyStr.split_go sep (option_map Nat.pred limit) (String.length sep - 1) EmptyString s
     else PyStr.split_go sep limit 0 (String c cur) s).
  cbv zeta. rewrite Hstart, andb_false_r. rewrite IH by exact Hrest. reflexivity.
Qed.

(** Once the allowed splits are used up, the rest is one piece. *)
Lemma split_go_exhausted (sep : string) (s : string) :
  forall cur, PyStr.split_go sep (Some 0%nat) 0 cur s = [String.rev_app cur s].
Proof.
  induction s as [|c s IH]; intros cur; [reflexivity|].
  simpl. rewrite IH. reflexivity.
Qed.

Lemma split_go_skip (sep : string) (limit : option nat) (x : string) :
  forall cur b,
    PyStr.split_go sep limit (String.length x) cur (x ++ b) =
    PyStr.split_go sep limit 0 cur b.
Proof.
  induction x as [|c x IH]; intros cur b; [reflexivity|].
  change (String c x ++ b)%string with (String c (x ++ b)). simpl. apply IH.
Qed.

(** The first piece ends at the first occurrence of the separator,
    when the text before it is free of the separator's first
    character. *)
Lemma split_go_first (c : ascii) (sep' : string) (limit : option nat) (a b : string) :
  forall cur,
    no_char c a = true ->
    limit <> Some 0%nat ->
    PyStr.split_go (String c sep') limit 0 cur (a ++ String c sep' ++ b) =
    String.rev_app cur a ::
      PyStr.split_go (String c sep') (option_map Nat.pred limit) 0 EmptyString b.
Proof.
  induction a as [|x a IH]; intros cur Hno Hlimit.
  - change (EmptyString ++ String c sep' ++ b)%string with (String c (sep' ++ b)).
    change (PyStr.split_go (String c sep') limit 0 cur (String c (sep' ++ b))) with
      (let may_split := match limit with Some O => false | _ => true end in
       if may_split && PyStr.startswith (String c sep') (String c (sep' ++ b)) then
         String.rev cur ::
           PyStr.split_go (String c sep') (option_map Nat.pred limit)
                          (String.length (String c sep') - 1) EmptyString (sep' ++ b)
       else PyStr.split_go (String c sep') limit 0 (String c cur) (sep' ++ b)).
    cbv zeta.
    replace (match limit with Some O => false | _ => true end) with true
      by (destruct limit as [[|n]|]; congruence).
    simpl PyStr.startswith. rewrite Ascii.eqb_refl, startswith_app. simpl andb. cbv iota.
    replace (String.length (String c sep') - 1)%nat with (String.length sep')
      by (simpl; lia).
    rewrite split_go_skip. reflexivity.
  - simpl in Hno. apply andb_prop in Hno as [Hx Hrest]. apply negb_true_iff in Hx.
    change (String x a ++ String c sep' ++ b)%string
      with (String x (a ++ String c sep' ++ b)).
    change (PyStr.split_go (String c sep') limit 0 cur (String x (a ++ String c sep' ++ b)))
      with
      (let may_split := match limit with Some O => false | _ => true end in
       if may_split && PyStr.startswith (String c sep') (String x (a ++ String c sep' ++ b))
       then
         String.rev cur ::
           PyStr.split_go (String c sep') (option_map Nat.pred limit)
                          (String.length (String c sep') - 1) EmptyString
                          (a ++ String c sep' ++ b)
       else PyStr.split_go (String c sep') limit 0 (String x cur) (a ++ String c sep' ++ b)).
    cbv zeta. simpl PyStr.startswith. rewrite Ascii.eqb_sym, Hx, andb_false_r.
    rewrite IH by assumption. reflexivity.
Qed.

(** [s.split(sep)] on a text without the separator. *)
Lemma split_none (sep s : string) :
  PyStr.contains sep s = false -> PyStr.split sep s = [s].
Proof. intros Hno. unfold PyStr.split. rewrite split_go_nosplit by exact Hno. reflexivity. Qed.

(** [s.split(sep, 1)] at the first occurrence. *)
Lemma split1_first (c : ascii) (sep' a b : string) :
  no_char c a = true ->
  PyStr.split1 (String c sep') (a ++ String c sep' ++ b) = [a; b].
Proof.
  intros Hno. unfold PyStr.split1. rewrite split_go_first by (assumption || discriminate).
  simpl option_map. rewrite split_go_exhausted. reflexivity.
Qed.

(** *** Letter case *)

Lemma lower_app (a b : string) : PyStr.lower (a ++ b) = (PyStr.lower a ++ PyStr.lower b)%string.
Proof.
  induction a as [|c a IH]; [reflexivity|].
  change (String c a ++ b)%string with (String c (a ++ b)). simpl. rewrite IH. reflexivity.
Qed.

Lemma lower_ascii_colon (c : ascii) :
  Ascii.eqb (PyStr.lower_ascii c) ":" = Ascii.eqb c ":".
Proof. destruct c as [[] [] [] [] [] [] [] []]; reflexivity. Qed.

Lemma no_char_lower_colon (s : string) : no_char ":" (PyStr.lower s) = no_char ":" s.
Proof.
  induction s as [|c s IH]; [reflexivity|]. simpl. rewrite lower_ascii_colon, IH. reflexivity.
Qed.

(** *** Digits *)

Lemma is_digit_not (c x : ascii) :
  PyStr.is_digit c = false -> PyStr.is_digit x = true -> Ascii.eqb x c = false.
Proof.
  intros Hc Hx. destruct (Ascii.eqb_spec x c) as [->|]; [congruence | reflexivity].
Qed.

Lemma all_digits_no_char (c : ascii) (s : string) :
  PyStr.is_digit c = false -> PyStr.all_digits s = true -> no_char c s = true.
Proof.
  intros Hc. induction s as [|x s IH]; simpl; [reflexivity|].
  intros Hall. apply andb_prop in Hall as [Hx Hs].
  rewrite (is_digit_not c x Hc Hx). simpl. auto.
Qed.

Lemma isdigit_all_digits (s : string) : PyStr.isdigit s = true -> PyStr.all_digits s = true.
Proof. destruct s; [discriminate | trivial]. Qed.







Lemma take_digits_app (d s : string) :
  PyStr.all_digits d = true ->
  match s with String c _ => PyStr.is_digit c = false | EmptyString => True end ->
  PyStr.take_digits (d ++ s) = (d, s).
Proof.
  intros Hall Hs. induction d as [|x d IH].
  - change (EmptyString ++ s)%string with s. destruct s as [|c s]; [reflexivity|].
    simpl. rewrite Hs. reflexivity.
  - change (String x d ++ s)%string with (String x (d ++ s)). simpl in Hall |- *.
    apply andb_prop in Hall as [Hx Hd]. rewrite Hx, (IH Hd). reflexivity.
Qed.

(** *** The decimal text of a number *)

Lemma digits_value_acc (s : string) :
  forall acc,
    PyStr.digits_value acc s =
    acc * 10 ^ Z.of_nat (String.length s) + PyStr.digits_value 0 s.
Proof.
  induction s as [|c s IH]; intros acc.
  - simpl. lia.
  - simpl PyStr.digits_value. rewrite (IH (10 * acc + _)), (IH (10 * 0 + _)).
    change (String.length (String c s)) with (S (String.length s)).
    rewrite Nat2Z.inj_succ, Z.pow_succ_r by lia. ring.
Qed.

Lemma pretty_N_char_value (r : N) :
  (r < 10)%N -> Z.of_nat (nat_of_ascii (pretty_N_char r)) - 48 = Z.of_N r.
Proof.
  intros Hr.
  assert (r = 0 \/ r = 1 \/ r = 2 \/ r = 3 \/ r = 4 \/ r = 5 \/ r = 6 \/ r = 7 \/ r = 8
          \/ r = 9)%N as Hcases by lia.
  repeat (destruct Hcases as [->|Hcases]; [reflexivity|]). subst r. reflexivity.
Qed.

Lemma pretty_N_char_digit (r : N) : PyStr.is_digit (pretty_N_char r) = true.
Proof.
  unfold pretty_N_char.
  repeat match goal with |- context [match ?x with _ => _ end] => destruct x end;
    reflexivity.
Qed.

Lemma pretty_N_go_app (x : N) :
  forall s, pretty_N_go x s = (pretty_N_go x EmptyString ++ s)%string.
Proof.
  induction (N.lt_wf_0 x) as [x _ IH]; intros s.
  destruct (N.eq_dec x 0%N) as [->|Hx]; [reflexivity|].
  assert (Hlt : (x / 10 < x)%N) by (apply N.div_lt; lia).
  rewrite (pretty_N_go_step x s), (pretty_N_go_step x EmptyString) by lia.
  rewrite (IH (x / 10)%N Hlt (String (pretty_N_char (x mod 10)) s)).
  rewrite (IH (x / 10)%N Hlt (String (pretty_N_char (x mod 10)) EmptyString)).
  rewrite app_assoc. reflexivity.
Qed.

Lemma pretty_N_go_digits (x : N) :
  forall s, PyStr.all_digits (pretty_N_go x s) = PyStr.all_digits s.
Proof.
  induction (N.lt_wf_0 x) as [x _ IH]; intros s.
  destruct (N.eq_dec x 0%N) as [->|Hx]; [reflexivity|].
  rewrite pretty_N_go_step by lia. rewrite IH by (apply N.div_lt; lia).
  simpl. rewrite pretty_N_char_digit. reflexivity.
Qed.

Lemma pretty_N_go_value (x : N) :
  forall s,
    PyStr.digits_value 0 (pretty_N_go x s) =
    Z.of_N x * 10 ^ Z.of_nat (String.length s) + PyStr.digits_value 0 s.
Proof.
  induction (N.lt_wf_0 x) as [x _ IH]; intros s.
  destruct (N.eq_dec x 0%N) as [->|Hx]; [rewrite pretty_N_go_0; simpl; lia|].
  rewrite pretty_N_go_step by lia. rewrite IH by (apply N.div_lt; lia).
  simpl PyStr.digits_value. rewrite digits_value_acc.
  rewrite pretty_N_char_value by (apply N.mod_lt; lia).
  change (String.length (String (pretty_N_char (x mod 10)) s)) with (S (String.length s)).
  rewrite Nat2Z.inj_succ, Z.pow_succ_r by lia.
  rewrite (N.div_mod x 10) at 3 by lia.
  rewrite N2Z.inj_add, N2Z.inj_mul. change (Z.of_N 10) with 10. ring.
Qed.

Lemma pretty_N_go_nonempty (x : N) :
  (0 < x)%N -> pretty_N_go x EmptyString <> EmptyString.
Proof.
  intros Hx. rewrite pretty_N_go_step by exact Hx. rewrite pretty_N_go_app.
  destruct (pretty_N_go (x / 10) EmptyString); discriminate.
Qed.

(** The decimal text of a natural number is a string of digits that
    [int] reads back. *)
Lemma pretty_N_isdigit (x : N) : PyStr.isdigit (pretty x) = true.
Proof.
  unfold pretty, pretty_N. destruct (decide (x = 0)%N) as [->|Hx]; [reflexivity|].
  pose proof (pretty_N_go_nonempty x ltac:(lia)) as Hne.
  pose proof (pretty_N_go_digits x EmptyString) as Hd.
  destruct (pretty_N_go x EmptyString); [congruence | exact Hd].
Qed.

Lemma pretty_N_value (x : N) : PyStr.digits_value 0 (pretty x) = Z.of_N x.
Proof.
  unfold pretty, pretty_N. destruct (decide (x = 0)%N) as [->|Hx]; [reflexivity|].
  rewrite pretty_N_go_value. simpl. lia.
Qed.

Lemma pretty_Z_isdigit (z : Z) : 0 <= z -> PyStr.isdigit (pretty z) = true.
Proof.
  intros Hz. destruct z as [|p|p]; [reflexivity | | lia].
  apply (pretty_N_isdigit (Npos p)).
Qed.

Lemma pretty_Z_value (z : Z) : 0 <= z -> PyStr.digits_value 0 (pretty z) = z.
Proof.
  intros Hz. destruct z as [|p|p]; [reflexivity | | lia].
  apply (pretty_N_value (Npos p)).
Qed.

Lemma pretty_nat_isdigit (n : nat) : PyStr.isdigit (pretty n) = true.
Proof. apply (pretty_N_isdigit (N.of_nat n)). Qed.

Lemma pretty_nat_value (n : nat) : PyStr.digits_value 0 (pretty n) = Z.of_nat n.
Proof. unfold pretty, pretty_nat. rewrite pretty_N_value. lia. Qed.

End PyStrFacts.

(** ** The property store *)

Section StoreFacts.
Context {V : Type}.

Lemma dset_length (k : string) (v : V) (d : list (string * V)) :
  length (dset k v d) = if dmem k d then length d else S (length d).
Proof.
  unfold dmem. induction d as [|[k' v'] d IH]; simpl; [reflexivity|].
  destruct (String.eqb k k'); simpl; [reflexivity|].
  rewrite IH. destruct (dget k d); reflexivity.
Qed.

Lemma dset_keys (k : string) (v : V) (d : list (string * V)) :
  map fst (dset k v d) = if dmem k d then map fst d else map fst d ++ [k].
Proof.
  unfold dmem. induction d as [|[k' v'] d IH]; simpl; [reflexivity|].
  destruct (String.eqb_spec k k') as [->|Hne]; simpl; [reflexivity|].
  rewrite IH. destruct (dget k d); reflexivity.
Qed.

Lemma dset_dset_same (k : string) (v : V) (d : list (string * V)) :
  dset k v (dset k v d) = dset k v d.
Proof.
  induction d as [|[k' v'] d IH]; simpl.
  - rewrite String.eqb_refl. reflexivity.
  - destruct (String.eqb k k') eqn:E; simpl.
    + rewrite String.eqb_refl. reflexivity.
    + rewrite E, IH. reflexivity.
Qed.

Lemma dmem_dset (k k' : string) (v : V) (d : list (string * V)) :
  dmem k' (dset k v d) = String.eqb k' k || dmem k' d.
Proof.
  unfold dmem. destruct (String.eqb_spec k' k) as [->|Hne]; simpl.
  - rewrite dget_dset_eq. reflexivity.
  - rewrite dget_dset_ne by congruence. reflexivity.
Qed.

Lemma dget_not_key (k : string) (d : list (string * V)) :
  k ∉ map fst d -> dget k d = None.
Proof.
  induction d as [|[k' v'] d IH]; simpl; [reflexivity|].
  intros Hnot. destruct (String.eqb_spec k k') as [->|Hne].
  - exfalso. apply Hnot. left.
  - apply IH. intros Hin. apply Hnot. right. exact Hin.
Qed.

Lemma dget_dremove_eq (k : string) (d : list (string * V)) :
  NoDup (map fst d) -> dget k (dremove k d) = None.
Proof.
  induction d as [|[k' v'] d IH]; simpl; [reflexivity|].
  intros Hnd. apply NoDup_cons in Hnd as [Hnot Hnd].
  destruct (String.eqb_spec k k') as [->|Hne].
  - apply dget_not_key. exact Hnot.
  - simpl. destruct (String.eqb_spec k k'); [congruence|]. auto.
Qed.

Lemma dget_dremove_ne (k k' : string) (d : list (string * V)) :
  k <> k' -> dget k' (dremove k d) = dget k' d.
Proof.
  intros Hne. induction d as [|[k0 v0] d IH]; simpl; [reflexivity|].
  destruct (String.eqb_spec k k0) as [->|Hk].
  - destruct (String.eqb_spec k' k0); [congruence | reflexivity].
  - simpl. destruct (String.eqb k' k0); [reflexivity | exact IH].
Qed.

Lemma dremove_length (k : string) (d : list (string * V)) :
  dmem k d = true -> S (length (dremove k d)) = length d.
Proof.
  unfold dmem. induction d as [|[k' v'] d IH]; simpl; [discriminate|].
  destruct (String.eqb k k'); simpl; [reflexivity|].
  intros Hmem. f_equal. auto.
Qed.

Lemma dset_NoDup (k : string) (v : V) (d : list (string * V)) :
  NoDup (map fst d) -> NoDup (map fst (dset k v d)).
Proof.
  intros Hnd. rewrite dset_keys. unfold dmem.
  destruct (dget k d) eqn:E; [exact Hnd|].
  apply NoDup_app. split; [exact Hnd|]. split; [|apply NoDup_singleton].
  intros x Hx Hk. apply list_elem_of_singleton in Hk as ->.
  apply list_elem_of_fmap in Hx as ([k0 v0] & -> & Hin). simpl in E.
  clear Hnd. induction d as [|[k1 v1] d IH]; [inversion Hin|].
  simpl in E. destruct (String.eqb_spec k0 k1) as [->|Hne]; [discriminate|].
  apply elem_of_cons in Hin as [Heq|Hin]; [congruence | auto].
Qed.
End StoreFacts.

(** X1.  Assigning to a key of a property store and reading it back
    gives the coerced value, not the text that was assigned; the other
    keys read as before; the store grows by one key, placed last, exactly
    when the key is new; and deleting the key afterwards makes it
    unreadable again, whereas deleting a key that is not there raises
    [KeyError]. *)
Theorem property_assignment_roundtrip `{Astro} (key raw : string) (p p' : store) :
  NoDup (__iter__ p) ->
  setitem key raw p = Ok p' ->
  exists v,
    coerce key raw = Ok v /\
    getitem key p' = Ok v /\
    (forall k, k <> key -> dget k p' = dget k p) /\
    __len__ p' = (if dmem key p then __len__ p else S (__len__ p)) /\
    __iter__ p' = (if dmem key p then __iter__ p else __iter__ p ++ [key]) /\
    (exists p'', __delitem__ key p' = Ok p'' /\
                 getitem key p'' = Raise (KeyError key) /\
                 S (__len__ p'') = __len__ p' /\
                 __delitem__ key p'' = Raise (KeyError key)).
Proof.
  intros Hnd Hset. unfold setitem in Hset. apply bind_Ok in Hset as (v & Hv & Hset).
  injection Hset as <-. exists v. split; [exact Hv|].
  split; [unfold getitem; rewrite dget_dset_eq; reflexivity|].
  split; [intros k Hk; apply dget_dset_ne; congruence|].
  split; [apply dset_length|]. split; [apply dset_keys|].
  assert (Hmem : dmem key (dset key v p) = true).
  { rewrite dmem_dset, String.eqb_refl. reflexivity. }
  assert (Hgone : dget key (dremove key (dset key v p)) = None).
  { apply dget_dremove_eq. apply dset_NoDup. exact Hnd. }
  exists (dremove key (dset key v p)). unfold __delitem__. rewrite Hmem.
  split; [reflexivity|]. split; [unfold getitem; rewrite Hgone; reflexivity|].
  split; [apply dremove_length; exact Hmem|].
  unfold dmem. rewrite Hgone. reflexivity.
Qed.

Lemma property_assignment_roundtrip_witness :
  exists v,
    coerce (H := toy_astro) "nrBeams" "3" = Ok v /\
    getitem "nrBeams" [("title", VStr "a"); ("nrBeams", VInt 3)] = Ok v /\
    (forall k, k <> "nrBeams" ->
               dget k [("title", VStr "a"); ("nrBeams", VInt 3)] = dget k [("title", VStr "a")]) /\
    __len__ [("title", VStr "a"); ("nrBeams", VInt 3)] =
      (if dmem "nrBeams" [("title", VStr "a")] then __len__ [("title", VStr "a")]
       else S (__len__ [("title", VStr "a")])) /\
    __iter__ [("title", VStr "a"); ("nrBeams", VInt 3)] =
      (if dmem "nrBeams" [("title", VStr "a")] then __iter__ [("title", VStr "a")]
       else __iter__ [("title", VStr "a")] ++ ["nrBeams"]) /\
    (exists p'', __delitem__ "nrBeams" [("title", VStr "a"); ("nrBeams", VInt 3)] = Ok p'' /\
                 getitem "nrBeams" p'' = Raise (KeyError "nrBeams") /\
                 S (__len__ p'') = __len__ [("title", VStr "a"); ("nrBeams", VInt 3)] /\
                 __delitem__ "nrBeams" p'' = Raise (KeyError "nrBeams")).
Proof.
  apply (property_assignment_roundtrip (H := toy_astro) "nrBeams" "3" [("title", VStr "a")]).
  - apply (bool_decide_unpack _). vm_compute. exact I.
  - reflexivity.
Defined.

Section CoercionFacts.
Context `{Astro}.


End CoercionFacts.



Section RangeSyntax.
Context `{Astro}.

End RangeSyntax.





(** ** _parse_parameters *)

Section ParseParametersFacts.

Lemma parse_pairs_no_flag (params : list string) :
  forall (cfg : config) (k : string),
    dget k (parse_pairs params cfg) = Some CTrue -> dget k cfg = Some CTrue.
Proof.
  induction params as [|p ps IH]; intros cfg k Hget; simpl in Hget; [exact Hget|].
  destruct (PyStr.contains "=" p); [|auto].
  destruct (PyStr.split "=" p) as [|key [|v rest]]; auto.
  apply IH in Hget. destruct (String.eqb_spec key k) as [->|Hne].
  - rewrite dget_dset_eq in Hget. discriminate.
  - rewrite dget_dset_ne in Hget by exact Hne. exact Hget.
Qed.

Lemma parse_pairs_without_equals (params : list string) (cfg : config) :
  Forall (fun p => PyStr.contains "=" p = false) params ->
  parse_pairs params cfg = cfg.
Proof.
  induction 1 as [|p ps Hp _ IH]; simpl; [reflexivity|]. rewrite Hp. exact IH.
Qed.

Lemma startswith_prefix_false (sep : string) :
  forall (x : ascii) (r t : string),
    PyStr.startswith sep (String x (r ++ t)) = false ->
    sep <> EmptyString ->
    PyStr.startswith sep (String x r) = false.
Proof.
  induction sep as [|y sep IHs]; intros x r t Hstart Hne; [congruence|].
  simpl in Hstart |- *. destruct (Ascii.eqb y x); [|reflexivity].
  destruct r as [|x' r].
  - destruct sep; [discriminate | reflexivity].
  - rewrite PyStrFacts.app_cons in Hstart. destruct sep as [|z sep'].
    + discriminate.
    + eapply IHs; [exact Hstart | discriminate].
Qed.

Lemma contains_prefix_false (sep r t : string) :
  PyStr.contains sep (r ++ t) = false -> PyStr.contains sep r = false.
Proof.
  intros Hno.
  assert (Hsep : sep <> EmptyString).
  { intros ->. destruct (r ++ t)%string; discriminate. }
  induction r as [|x r IHr].
  - destruct sep; [congruence | reflexivity].
  - rewrite PyStrFacts.app_cons in Hno. simpl in Hno |- *.
    apply orb_false_elim in Hno as [Hstart Hno].
    rewrite (IHr Hno), orb_false_r.
    eapply startswith_prefix_false; eassumption.
Qed.

Lemma contains_suffix_false (sep r t : string) :
  PyStr.contains sep (r ++ t) = false -> PyStr.contains sep t = false.
Proof.
  induction r as [|x r IHr]; intros Hno; [exact Hno|].
  rewrite PyStrFacts.app_cons in Hno. simpl in Hno.
  apply orb_false_elim in Hno as [_ Hno]. auto.
Qed.

(** A piece of [s.split()] holds no text that [s] does not hold. *)
Lemma contains_split_ws_go (sep : string) (s : string) :
  forall cur,
    PyStr.contains sep (String.rev_app cur s) = false ->
    Forall (fun p => PyStr.contains sep p = false) (PyStr.split_ws_go cur s).
Proof.
  induction s as [|c s IH]; intros cur Hno; simpl.
  - destruct cur; [constructor|]. constructor; [exact Hno | constructor].
  - destruct (PyStr.is_space c).
    + rewrite PyStrFacts.rev_app_eq in Hno.
      assert (Hrest : PyStr.contains sep (String.rev_app EmptyString s) = false).
      { apply contains_suffix_false in Hno. simpl in Hno.
        apply orb_false_elim in Hno as [_ Hno]. exact Hno. }
      apply contains_prefix_false in Hno.
      destruct cur; [apply IH; exact Hrest|].
      constructor; [exact Hno | apply IH; exact Hrest].
    + apply IH. exact Hno.
Qed.

End ParseParametersFacts.

(** X4.  The mode that [_parse_parameters] returns is the lower-cased
    text that precedes the first colon, and the whole lower-cased text
    when there is no colon; it is the same in the pulsar and in the
    non-pulsar reading. *)
Theorem parse_parameters_mode (a rest : string) (pulsar : bool) :
  no_char ":" a = true ->
  fst (_parse_parameters (a ++ ":" ++ rest) pulsar) = PyStr.lower a /\
  fst (_parse_parameters a pulsar) = PyStr.lower a /\
  no_char ":" (fst (_parse_parameters (a ++ ":" ++ rest) pulsar)) = true.
Proof.
  intros Hno. unfold _parse_parameters. cbn [fst].
  assert (Hlow : no_char ":" (PyStr.lower a) = true)
    by (rewrite PyStrFacts.no_char_lower_colon; exact Hno).
  assert (Hfirst : hd EmptyString (PyStr.split ":" (PyStr.lower (a ++ ":" ++ rest))) =
                   PyStr.lower a).
  { rewrite !PyStrFacts.lower_app. change (PyStr.lower ":") with ":".
    unfold PyStr.split. rewrite PyStrFacts.split_go_first by (assumption || discriminate).
    reflexivity. }
  split; [exact Hfirst|]. split; [|rewrite Hfirst; exact Hlow].
  rewrite PyStrFacts.split_none; [reflexivity|].
  apply PyStrFacts.no_char_contains. exact Hlow.
Qed.

Lemma parse_parameters_mode_witness :
  fst (_parse_parameters ("TF" ++ ":" ++ " DF=3.05 DT=10.0 HAMM") false) = PyStr.lower "TF" /\
  fst (_parse_parameters "TF" false) = PyStr.lower "TF" /\
  no_char ":" (fst (_parse_parameters ("TF" ++ ":" ++ " DF=3.05 DT=10.0 HAMM") false)) = true.
Proof. apply (parse_parameters_mode "TF" " DF=3.05 DT=10.0 HAMM" false). reflexivity. Defined.

(** X5.  In the non-pulsar reading the bare flags are looked for between
    double dashes, not between blanks.  For a text without a double
    dash: when it holds an equals sign the configuration is made of its
    [key=value] tokens alone and records no flag at all, and when it
    holds none the configuration is the whole text as one flag. *)
Theorem dynamic_flags_need_double_dash (parameters : string) :
  PyStr.contains "--" (PyStr.lower parameters) = false ->
  snd (_parse_parameters parameters false) =
    (if PyStr.contains "=" (PyStr.lower parameters)
     then parse_pairs (PyStr.split_ws (PyStr.lower parameters)) []
     else [(PyStr.rstrip (PyStr.lower parameters), CTrue)]) /\
  (PyStr.contains "=" (PyStr.lower parameters) = true ->
   forall k, dget k (snd (_parse_parameters parameters false)) <> Some CTrue).
Proof.
  intros Hdash. unfold _parse_parameters. cbn [snd].
  rewrite (PyStrFacts.split_none "--" _ Hdash). simpl parse_flags.
  destruct (PyStr.contains "=" (PyStr.lower parameters)) eqn:Heq.
  - split; [reflexivity|]. intros _ k Hk. apply parse_pairs_no_flag in Hk. discriminate.
  - split; [|discriminate].
    rewrite parse_pairs_without_equals; [reflexivity|].
    apply contains_split_ws_go. exact Heq.
Qed.

Lemma dynamic_flags_need_double_dash_witness :
  snd (_parse_parameters "TF: DF=3.05 DT=10.0 HAMM" false) =
    (if PyStr.contains "=" (PyStr.lower "TF: DF=3.05 DT=10.0 HAMM")
     then parse_pairs (PyStr.split_ws (PyStr.lower "TF: DF=3.05 DT=10.0 HAMM")) []
     else [(PyStr.rstrip (PyStr.lower "TF: DF=3.05 DT=10.0 HAMM"), CTrue)]) /\
  (PyStr.contains "=" (PyStr.lower "TF: DF=3.05 DT=10.0 HAMM") = true ->
   forall k, dget k (snd (_parse_parameters "TF: DF=3.05 DT=10.0 HAMM" false)) <> Some CTrue).
Proof. apply (dynamic_flags_need_double_dash "TF: DF=3.05 DT=10.0 HAMM"). reflexivity. Defined.

(** The example of the docstring: the flag HAMM is not recorded. *)
Example parse_docstring_example :
  _parse_parameters "TF: DF=3.05 DT=10.0 HAMM" false =
  ("tf", [("df", CStr "3.05"); ("dt", CStr "10.0")]).
Proof. reflexivity. Qed.

(** ** The range compressors *)

Section Runs.

Lemma np_where_ne1_shift (d : list Z) :
  forall i, np_where_ne1 (S i) d = map S (np_where_ne1 i d).
Proof.
  induction d as [|x d IH]; intros i; simpl; [reflexivity|].
  rewrite IH. destruct (Z.eqb x 1); reflexivity.
Qed.

Lemma np_split_from_shift (idx : list nat) (a : Z) (l : list Z) :
  forall prev,
    np_split_from (S prev) (map S idx) (a :: l) = np_split_from prev idx l.
Proof.
  induction idx as [|i idx IH]; intros prev; simpl; [reflexivity|].
  rewrite IH. reflexivity.
Qed.

Lemma np_split_from_cons (idx : list nat) (a : Z) (l : list Z) :
  np_split_from 0 (map S idx) (a :: l) =
  match np_split_from 0 idx l with
  | g :: gs => (a :: g) :: gs
  | [] => []
  end.
Proof.
  destruct idx as [|i idx]; simpl; [reflexivity|].
  rewrite np_split_from_shift. rewrite Nat.sub_0_r. reflexivity.
Qed.

(** [np.split] at the places where the difference is not 1 gives the
    maximal runs. *)
Lemma subband_groups_runs (l : list Z) : subband_groups l = runs l.
Proof.
  unfold subband_groups, np_split.
  induction l as [|a t IH]; [reflexivity|].
  destruct t as [|b t']; [reflexivity|].
  change (np_diff (a :: b :: t')) with ((b - a) :: np_diff (b :: t')).
  cbn [np_where_ne1]. rewrite np_where_ne1_shift.
  change (runs (a :: b :: t')) with
    (match runs (b :: t') with
     | g :: gs => if Z.eqb (b - a) 1 then (a :: g) :: gs else [a] :: g :: gs
     | [] => [[a]]
     end).
  rewrite <- IH.
  destruct (np_split_from 0 (np_where_ne1 0 (np_diff (b :: t'))) (b :: t')) as [|g gs] eqn:E.
  { exfalso. destruct (np_where_ne1 0 (np_diff (b :: t'))); discriminate. }
  destruct (Z.eqb (b - a) 1).
  - rewrite np_split_from_cons, E. reflexivity.
  - cbn [np_split_from]. rewrite np_split_from_shift, E. reflexivity.
Qed.

Lemma py_range_cons (a b : Z) : a < b -> py_range a b = a :: py_range (a + 1) b.
Proof.
  intros Hlt. unfold py_range.
  replace (Z.to_nat (b - a)) with (S (Z.to_nat (b - (a + 1)))) by lia.
  simpl. f_equal; [lia|]. rewrite <- seq_shift, map_map.
  apply map_ext. intros i. lia.
Qed.

Lemma py_range_nil (a b : Z) : b <= a -> py_range a b = [].
Proof. intros Hle. unfold py_range. replace (Z.to_nat (b - a)) with O by lia. reflexivity. Qed.

Lemma expand_interval_single (a : Z) : expand_interval (a, a) = [a].
Proof.
  unfold expand_interval. simpl. rewrite py_range_cons by lia.
  rewrite py_range_nil by lia. reflexivity.
Qed.

Lemma expand_interval_cons (a e : Z) :
  a < e + 1 -> expand_interval (a, e) = a :: expand_interval (a + 1, e).
Proof. intros Hlt. unfold expand_interval. simpl. apply py_range_cons. exact Hlt. Qed.

(** The runs of a non-empty sequence are non-empty intervals, the
    first of which starts with the first element; together they make up
    the sequence, and no two neighbours could be one. *)
Lemma runs_intervals (l : list Z) :
  l <> [] ->
  exists ivs,
    runs l = map expand_interval ivs /\
    Forall (fun ab => fst ab <= snd ab) ivs /\
    separated ivs /\
    concat (runs l) = l /\
    option_map fst (head ivs) = head l.
Proof.
  induction l as [|a t IH]; [congruence|]. intros _.
  destruct t as [|b t'].
  - exists [(a, a)]. simpl. rewrite expand_interval_single.
    repeat split; try reflexivity. constructor; [simpl; lia | constructor].
  - destruct IH as (ivs & Hruns & Hne & Hsep & Hcat & Hhd); [discriminate|].
    change (runs (a :: b :: t')) with
      (match runs (b :: t') with
       | g :: gs => if Z.eqb (b - a) 1 then (a :: g) :: gs else [a] :: g :: gs
       | [] => [[a]]
       end).
    rewrite Hruns in Hcat |- *.
    destruct ivs as [|[b0 e] ivs']; [discriminate|].
    simpl in Hhd. injection Hhd as ->.
    apply Forall_cons in Hne as [Hbe Hne]. simpl in Hbe.
    cbn [map]. destruct (Z.eqb_spec (b - a) 1) as [Hone|Hgap].
    + exists ((a, e) :: ivs'). split; [|split; [|split; [|split]]].
      * cbn [map]. rewrite (expand_interval_cons a e) by lia.
        replace (a + 1) with b by lia. reflexivity.
      * constructor; [simpl; lia | exact Hne].
      * destruct ivs' as [|cd ivs'']; [exact I|]. exact Hsep.
      * simpl in Hcat |- *. rewrite Hcat. reflexivity.
      * reflexivity.
    + exists ((a, a) :: (b, e) :: ivs'). split; [|split; [|split; [|split]]].
      * cbn [map]. rewrite expand_interval_single. reflexivity.
      * constructor; [simpl; lia|]. constructor; [exact Hbe | exact Hne].
      * split; [simpl; lia | exact Hsep].
      * simpl in Hcat |- *. rewrite Hcat. reflexivity.
      * reflexivity.
Qed.

Lemma fold_min_range (n : nat) :
  forall a x, x <= a -> fold_left Z.min (map (fun i => a + Z.of_nat i) (seq 0 n)) x = x.
Proof.
  induction n as [|n IH]; intros a x Hle; [reflexivity|].
  cbn [seq map fold_left]. rewrite <- seq_shift, map_map.
  rewrite (map_ext _ (fun i => (a + 1) + Z.of_nat i)) by (intros i; lia).
  replace (Z.min x (a + Z.of_nat 0)) with x by lia. apply IH. lia.
Qed.

Lemma fold_max_range (n : nat) :
  forall a x,
    x < a -> fold_left Z.max (map (fun i => a + Z.of_nat i) (seq 0 (S n))) x = a + Z.of_nat n.
Proof.
  induction n as [|n IH]; intros a x Hlt.
  - simpl. lia.
  - change (seq 0 (S (S n))) with (0%nat :: seq 1 (S n)).
    cbn [map fold_left]. rewrite <- seq_shift, map_map.
    rewrite (map_ext _ (fun i => (a + 1) + Z.of_nat i)) by (intros i; lia).
    rewrite IH by lia. lia.
Qed.

Lemma last_range (n : nat) :
  forall a d, List.last (map (fun i => a + Z.of_nat i) (seq 0 (S n))) d = a + Z.of_nat n.
Proof.
  induction n as [|n IH]; intros a d; [simpl; lia|].
  change (seq 0 (S (S n))) with (0%nat :: seq 1 (S n)).
  cbn [map]. rewrite <- seq_shift, map_map.
  rewrite (map_ext _ (fun i => (a + 1) + Z.of_nat i)) by (intros i; lia).
  change (List.last (?x :: map ?f (seq 0 (S n))) d)
    with (List.last (map f (seq 0 (S n))) d).
  rewrite IH. lia.
Qed.

(** The bounds of a non-empty interval, as the two compressors read
    them. *)
Lemma interval_bounds (a e : Z) :
  a <= e ->
  np_min (expand_interval (a, e)) = Ok a /\
  np_max (expand_interval (a, e)) = Ok e /\
  exists g, expand_interval (a, e) = a :: g /\ group_last a (a :: g) = e.
Proof.
  intros Hle. unfold expand_interval, py_range. cbn [fst snd].
  replace (Z.to_nat (e + 1 - a)) with (S (Z.to_nat (e - a))) by lia.
  split; [|split].
  - change (seq 0 (S (Z.to_nat (e - a)))) with (0%nat :: seq 1 (Z.to_nat (e - a))).
    cbn [map np_min]. rewrite <- seq_shift, map_map.
    rewrite (map_ext _ (fun i => (a + 1) + Z.of_nat i)) by (intros i; lia).
    rewrite fold_min_range by lia. f_equal. lia.
  - change (seq 0 (S (Z.to_nat (e - a)))) with (0%nat :: seq 1 (Z.to_nat (e - a))).
    cbn [map np_max]. rewrite <- seq_shift, map_map.
    rewrite (map_ext _ (fun i => (a + 1) + Z.of_nat i)) by (intros i; lia).
    destruct (Z.to_nat (e - a)) as [|n] eqn:En.
    + simpl. f_equal. lia.
    + rewrite fold_max_range by lia. f_equal. lia.
  - pose proof (last_range (Z.to_nat (e - a)) a a) as Hlast.
    change (seq 0 (S (Z.to_nat (e - a)))) with (0%nat :: seq 1 (Z.to_nat (e - a))) in *.
    cbn [map] in *. replace (a + Z.of_nat 0) with a in * by lia.
    eexists. split; [reflexivity|]. unfold group_last. rewrite Hlast. lia.
Qed.
End Runs.

Section CompressorFacts.
Context `{Astro}.

Lemma frequency_intervals_of (ivs : list (Z * Z)) :
  Forall (fun ab => fst ab <= snd ab) ivs ->
  map_res
    (fun group =>
       let* lo := np_min group in
       let* hi := np_max group in
       Ok (JObj [("value", JObj [("gte", JNum (sb2freq lo));
                                 ("lt", JNum (sb2freq hi + SB_WIDTH_MHz)%Q)]);
                 ("unit", JStr "MHz")]))
    (map expand_interval ivs) = Ok (map frequency_interval ivs).
Proof.
  induction 1 as [|[a e] ivs Hle _ IH]; [reflexivity|].
  cbn [map map_res]. destruct (interval_bounds a e Hle) as (-> & -> & _).
  cbn [bind]. rewrite IH. reflexivity.
Qed.

Lemma miniarray_intervals_of (ivs : list (Z * Z)) :
  Forall (fun ab => fst ab <= snd ab) ivs ->
  map_res
    (fun group =>
       match group with
       | [] => Raise IndexError
       | x :: _ => Ok (JObj [("gte", JInt x); ("lte", JInt (group_last x group))])
       end)
    (map expand_interval ivs) = Ok (map miniarray_interval ivs).
Proof.
  induction 1 as [|[a e] ivs Hle _ IH]; [reflexivity|].
  cbn [map map_res]. destruct (interval_bounds a e Hle) as (_ & _ & g & -> & ->).
  cbn [bind]. rewrite IH. reflexivity.
Qed.
End CompressorFacts.

(** X6.  On a non-empty list of sub-bands, [_get_frequency_dict] returns
    one entry per maximal run of consecutive sub-bands, from the
    frequency of the first sub-band of the run to the frequency of its
    last sub-band plus one channel width.  Nothing is lost: the runs,
    written out in order, are the list itself; every run is non-empty;
    and no two neighbouring runs could be merged. *)
Theorem frequency_dict_is_lossless `{Astro} (p : store) (field : string) (l : list Z) :
  dget field p = Some (VList (map IInt l)) ->
  l <> [] ->
  exists ivs,
    _get_frequency_dict p field = Ok (map frequency_interval ivs) /\
    concat (map expand_interval ivs) = l /\
    Forall (fun ab => fst ab <= snd ab) ivs /\
    separated ivs.
Proof.
  intros Hget Hne.
  destruct (runs_intervals l Hne) as (ivs & Hruns & Hle & Hsep & Hcat & _).
  exists ivs. split; [|split; [|split]]; [|rewrite <- Hruns; exact Hcat | exact Hle | exact Hsep].
  unfold _get_frequency_dict, getitem. rewrite Hget. cbn [bind int_array].
  rewrite int_items_IInt. cbn [bind]. rewrite subband_groups_runs, Hruns.
  apply frequency_intervals_of. exact Hle.
Qed.

Lemma frequency_dict_is_lossless_witness :
  exists ivs,
    _get_frequency_dict (H := toy_astro) fold_beam "subbandList" =
      Ok (map (frequency_interval (H := toy_astro)) ivs) /\
    concat (map expand_interval ivs) = [100; 101; 102; 200; 201] /\
    Forall (fun ab => fst ab <= snd ab) ivs /\
    separated ivs.
Proof.
  apply (frequency_dict_is_lossless (H := toy_astro) fold_beam "subbandList"
           [100; 101; 102; 200; 201]); [reflexivity | discriminate].
Defined.

(** X7.  The mini-array variant of the compressor returns, for a
    non-empty list, the first and the last member of each maximal run of
    consecutive mini-arrays; the runs written out in order are the list
    itself, and no two neighbours could be merged.  On the empty list it
    raises [IndexError]: the one group that [np.split] returns has no
    first member. *)
Theorem miniarray_dict_is_lossless (l : list Z) :
  l <> [] ->
  _get_miniarray_dict [] = Raise IndexError /\
  exists ivs,
    _get_miniarray_dict l =
      Ok (JObj [("value", JList (map miniarray_interval ivs)); ("unit", JStr EmptyString)]) /\
    concat (map expand_interval ivs) = l /\
    Forall (fun ab => fst ab <= snd ab) ivs /\
    separated ivs.
Proof.
  intros Hne. split; [reflexivity|].
  destruct (runs_intervals l Hne) as (ivs & Hruns & Hle & Hsep & Hcat & _).
  exists ivs. split; [|split; [|split]]; [|rewrite <- Hruns; exact Hcat | exact Hle | exact Hsep].
  unfold _get_miniarray_dict.
  change (np_split l (np_where_ne1 0 (np_diff l))) with (subband_groups l).
  rewrite subband_groups_runs, Hruns.
  rewrite (miniarray_intervals_of ivs Hle). reflexivity.
Qed.

Lemma miniarray_dict_is_lossless_witness :
  _get_miniarray_dict [] = Raise IndexError /\
  exists ivs,
    _get_miniarray_dict [1; 2; 3; 7; 96; 97] =
      Ok (JObj [("value", JList (map miniarray_interval ivs)); ("unit", JStr EmptyString)]) /\
    concat (map expand_interval ivs) = [1; 2; 3; 7; 96; 97] /\
    Forall (fun ab => fst ab <= snd ab) ivs /\
    separated ivs.
Proof. apply (miniarray_dict_is_lossless [1; 2; 3; 7; 96; 97]). discriminate. Defined.

Example miniarray_dict_example :
  _get_miniarray_dict [1; 2; 3; 7; 96; 97] =
  Ok (JObj [("value", JList (map miniarray_interval [(1, 3); (7, 7); (96, 97)]));
            ("unit", JStr EmptyString)]).
Proof. reflexivity. Qed.

(** ** The resolver and the time dictionary *)

Section ResolverMore.
Context `{Astro}.

Lemma after_resolver_idem (p : store) : after_resolver (after_resolver p) = after_resolver p.
Proof.
  unfold after_resolver. destruct (dmem "azelFile" p) eqn:E; [|rewrite E; reflexivity].
  rewrite dmem_dset, E. simpl. apply dset_dset_same.
Qed.

Lemma after_resolver_azel (p : store) :
  dmem "azelFile" (after_resolver p) = dmem "azelFile" p.
Proof.
  unfold dmem. rewrite after_resolver_other by discriminate. reflexivity.
Qed.

Lemma constrain_angle_inside (x lo hi : Q) :
  (lo <= x)%Q -> (x <= hi)%Q -> _constrain_angle x lo hi = x.
Proof.
  intros Hlo Hhi. unfold _constrain_angle, Qltb.
  apply Qle_bool_iff in Hlo, Hhi. rewrite Hlo, Hhi. reflexivity.
Qed.

Lemma Qplus_zero_r (x : Q) : (x + 0)%Q = (Qnum x # Qden x).
Proof.
  destruct x as [n d]. unfold Qplus. simpl.
  rewrite Z.mul_1_r, Z.add_0_r, Pos.mul_1_r. reflexivity.
Qed.

Lemma np_round3_integer (d : Z) : (np_round3 (inject_Z d) == inject_Z d)%Q.
Proof.
  unfold np_round3, round_half_even, inject_Z, Qmult, Qeq. cbn [Qnum Qden].
  change (Z.pos (1 * 1)) with 1.
  rewrite Z.div_1_r, !Z.mul_1_r, Z.sub_diag. reflexivity.
Qed.
End ResolverMore.

(** X8.  The resolver writes into the entity it is given, and writes
    [directionType] only: every other field reads as before, an entity
    without an [azelFile] field comes back as it was, and resolving the
    returned entity again gives the same entity and the same centre. *)
Theorem resolver_is_idempotent `{Astro} (p p' : store) (doc : json) :
  _get_pointing_center_dict p = Ok (p', doc) ->
  (forall k, k <> "directionType" -> dget k p' = dget k p) /\
  (dmem "azelFile" p = false -> p' = p) /\
  (dmem "azelFile" p = true -> dget "directionType" p' = Some (VStr "azelgeo_azelfile")) /\
  _get_pointing_center_dict p' = Ok (p', doc).
Proof.
  intros Hres.
  apply resolver_inv in Hres
    as (d & t & v & dt & c & Hdur & Hstart & -> & Hdt & Hlow & Hdir & ->).
  split; [intros k Hk; apply after_resolver_other; exact Hk|].
  split; [|split].
  - intros E. unfold after_resolver. rewrite E. reflexivity.
  - intros E. unfold after_resolver. rewrite E. apply dget_dset_eq.
  - unfold _get_pointing_center_dict, getitem.
    rewrite (after_resolver_other p "duration"), Hdur by discriminate.
    rewrite (after_resolver_other p "startTime"), Hstart by discriminate.
    cbn [bind TimeDelta_sec time_plus]. rewrite after_resolver_azel.
    assert (Hset : (if dmem "azelFile" p
                    then setitem "directionType" "azelgeo_azelfile" (after_resolver p)
                    else Ok (after_resolver p)) = Ok (after_resolver p)).
    { destruct (dmem "azelFile" p) eqn:E; [|reflexivity].
      rewrite setitem_azelfile. f_equal.
      pose proof (after_resolver_idem p) as Hidem. unfold after_resolver at 1 in Hidem.
      rewrite after_resolver_azel, E in Hidem. exact Hidem. }
    rewrite Hset. cbn [bind]. rewrite Hdt. cbn [bind]. rewrite Hlow. cbn [bind].
    rewrite Hdir. reflexivity.
Qed.

Lemma resolver_is_idempotent_witness :
  let p' := dset "directionType" (VStr "azelgeo_azelfile") j2000_azelfile_entity in
  let doc := JObj [("ra", quantity (JNum 0) "deg");
                   ("dec", quantity (JNum 90) "deg");
                   ("obs_direction_type", JStr "azelgeo_azelfile")] in
  (forall k, k <> "directionType" -> dget k p' = dget k j2000_azelfile_entity) /\
  (dmem "azelFile" j2000_azelfile_entity = false -> p' = j2000_azelfile_entity) /\
  (dmem "azelFile" j2000_azelfile_entity = true ->
   dget "directionType" p' = Some (VStr "azelgeo_azelfile")) /\
  _get_pointing_center_dict (H := toy_astro) p' = Ok (p', doc).
Proof.
  intros p' doc.
  apply (resolver_is_idempotent (H := toy_astro) j2000_azelfile_entity p' doc).
  reflexivity.
Defined.

(** X9.  A J2000 entity without any offset field and without an
    azelfile marker is reported where it points: when its two angles lie
    in [0, 360] and [-90, 90] the centre is these angles themselves, the
    entity is not written to, and no coordinate conversion is involved
    (the result is the same whatever the astronomy library answers). *)
Theorem j2000_without_offsets_passes_through `{Astro}
        (p : store) (dt : string) (d : Z) (t a1 a2 : Q) :
  dget "duration" p = Some (VInt d) ->
  dget "startTime" p = Some (VTime t) ->
  dmem "azelFile" p = false ->
  dget "directionType" p = Some (VStr dt) ->
  PyStr.lower dt = "j2000" ->
  dget "angle1" p = Some (VAngle a1) ->
  dget "angle2" p = Some (VAngle a2) ->
  dget "decal_az" p = None -> dget "decal_el" p = None ->
  dget "decal_ra" p = None -> dget "decal_dec" p = None ->
  (0 <= a1)%Q -> (a1 <= 360)%Q -> (-90 <= a2)%Q -> (a2 <= 90)%Q ->
  exists ra dec,
    _get_pointing_center_dict p =
      Ok (p, JObj [("ra", quantity (JNum ra) "deg");
                   ("dec", quantity (JNum dec) "deg");
                   ("obs_direction_type", JStr "j2000")]) /\
    (ra == a1)%Q /\ (dec == a2)%Q.
Proof.
  intros Hdur Hstart Hazel Hdt Hlow Ha1 Ha2 Haz Hel Hra Hdec H1 H2 H3 H4.
  unfold _get_pointing_center_dict, getitem.
  rewrite Hdur, Hstart. cbn [bind TimeDelta_sec time_plus].
  rewrite Hazel. cbn [bind]. rewrite Hdt. cbn [bind value_lower]. rewrite Hlow.
  unfold resolve_direction. change (String.eqb "j2000" "j2000") with true. cbv iota.
  unfold getitem. rewrite Ha1, Ha2. cbn [bind angle_deg].
  unfold has_altaz_decal, dmem. rewrite Haz, Hel. cbn [orb bind].
  unfold offset_radec, get_float0. rewrite Hra, Hdec. cbn [bind fst snd opt_num].
  eexists _, _. split; [reflexivity|].
  rewrite !constrain_angle_inside; try (rewrite Qplus_0_r; assumption).
  split; apply Qplus_0_r.
Qed.

Lemma j2000_without_offsets_passes_through_witness :
  exists ra dec,
    _get_pointing_center_dict (H := toy_astro) remote_anabeam =
      Ok (remote_anabeam, JObj [("ra", quantity (JNum ra) "deg");
                                ("dec", quantity (JNum dec) "deg");
                                ("obs_direction_type", JStr "j2000")]) /\
    (ra == 350)%Q /\ (dec == 58)%Q.
Proof.
  apply (j2000_without_offsets_passes_through (H := toy_astro)
           remote_anabeam "J2000" 100 1000 350 58);
    try reflexivity; discriminate.
Defined.

(** X10.  For an entity whose duration is a whole number of seconds
    and whose start is a [Time], on which the resolver returns: the
    resolver leaves both fields alone, so the time dictionary of the
    returned entity is that of the entity it was given.  It runs from
    the start time to the start time plus the duration, and reports the
    duration itself, which the rounding to three decimals does not
    change. *)
Theorem time_dict_after_resolver `{Astro} (p p' : store) (doc : json) (d : Z) (t : Q) :
  dget "duration" p = Some (VInt d) ->
  dget "startTime" p = Some (VTime t) ->
  _get_pointing_center_dict p = Ok (p', doc) ->
  exists q : Q,
    _get_time_dict p' =
      Ok (JObj [("startstop", JObj [("gte", JStr (isot t));
                                    ("lte", JStr (isot (t + inject_Z d)))]);
                ("duration", quantity (JNum q) "s")]) /\
    (q == inject_Z d)%Q /\
    _get_time_dict p = _get_time_dict p'.
Proof.
  intros Hdur Hstart Hres.
  apply resolver_inv in Hres as (d' & t' & v & dt & c & _ & _ & -> & _).
  assert (Hdict : forall s : store,
             dget "duration" s = Some (VInt d) ->
             dget "startTime" s = Some (VTime t) ->
             _get_time_dict s =
               Ok (JObj [("startstop", JObj [("gte", JStr (isot t));
                                             ("lte", JStr (isot (t + inject_Z d)))]);
                         ("duration", quantity (JNum (np_round3 (inject_Z d))) "s")])).
  { intros s Hd Hs. unfold _get_time_dict, getitem. rewrite Hd, Hs. reflexivity. }
  assert (Hafter : _get_time_dict (after_resolver p) =
                   Ok (JObj [("startstop", JObj [("gte", JStr (isot t));
                                                 ("lte", JStr (isot (t + inject_Z d)))]);
                             ("duration",
                              quantity (JNum (np_round3 (inject_Z d))) "s")])).
  { apply Hdict; rewrite after_resolver_other by discriminate; assumption. }
  exists (np_round3 (inject_Z d)).
  split; [exact Hafter|]. split; [apply np_round3_integer|].
  rewrite Hafter. apply Hdict; assumption.
Qed.

Lemma time_dict_after_resolver_witness :
  let p' := dset "directionType" (VStr "azelgeo_azelfile") j2000_azelfile_entity in
  exists q : Q,
    _get_time_dict (H := toy_astro) p' =
      Ok (JObj [("startstop", JObj [("gte", JStr (@isot toy_astro 1000));
                                    ("lte", JStr (@isot toy_astro (1000 + inject_Z 100)))]);
                ("duration", quantity (JNum q) "s")]) /\
    (q == inject_Z 100)%Q /\
    _get_time_dict (H := toy_astro) j2000_azelfile_entity = _get_time_dict (H := toy_astro) p'.
Proof.
  intros p'.
  apply (time_dict_after_resolver (H := toy_astro) j2000_azelfile_entity p'
           (JObj [("ra", quantity (JNum 0) "deg");
                  ("dec", quantity (JNum 90) "deg");
                  ("obs_direction_type", JStr "azelgeo_azelfile")]) 100 1000);
    reflexivity.
Defined.

(** ** The receiver handlers *)

Section HandlerFacts.
Context `{Astro}.

Lemma warn_with_present (property : store) (key : string) :
  dmem key property = true -> warn_with property key = Ok tt.
Proof.
  unfold warn_with, getitem, dmem. destruct (dget key property); [reflexivity | discriminate].
Qed.

Lemma warn_with_absent (property : store) (key : string) :
  dmem key property = false -> warn_with property key = Raise (KeyError key).
Proof.
  unfold warn_with, getitem, dmem. destruct (dget key property); [discriminate | reflexivity].
Qed.

Lemma catch_KeyError_never {A : Type} (m : res A) (a : A) (k : string) :
  catch_KeyError m (Ok a) <> Raise (KeyError k).
Proof. destruct m as [x|[]]; simpl; congruence. Qed.

Lemma parse_parameters_of_absent (property : store) (pulsar : bool) :
  dget "parameters" property = None ->
  parse_parameters_of property pulsar = Raise (KeyError "parameters").
Proof. intros Hnone. unfold parse_parameters_of, getitem. rewrite Hnone. reflexivity. Qed.
End HandlerFacts.

(** X11.  The dynamic-spectrum handler never lets a [KeyError] out when
    the beam has its [toDo] and [noBeam] fields: a missing [parameters]
    field gives the default resolutions, and a missing [dt], [df] or
    [subbandList] gives the empty receiver.  The waveform handler, which
    has no such guard, raises [KeyError] on a beam without
    [subbandList]. *)
Theorem dynamicspectrum_swallows_key_errors `{Astro}
        (digibeam output_ : store) (version_ : list Z) :
  dmem "toDo" digibeam = true ->
  dmem "noBeam" digibeam = true ->
  (forall k, _dynamicspectrum_setting digibeam output_ version_ <> Raise (KeyError k)) /\
  (dget "subbandList" digibeam = None ->
   _waveform_setting digibeam output_ version_ = Raise (KeyError "subbandList") /\
   (dget "parameters" digibeam = None ->
    _dynamicspectrum_setting digibeam output_ version_ = Ok (JObj []))).
Proof.
  intros Htodo Hnobeam. split.
  - intros k. unfold _dynamicspectrum_setting.
    rewrite (warn_with_present digibeam "toDo" Htodo),
            (warn_with_present digibeam "noBeam" Hnobeam).
    cbn [bind].
    destruct (parse_parameters_of digibeam false) as [[mode config]|[]]; cbn [bind];
      try congruence; apply catch_KeyError_never.
  - intros Hsub.
    assert (Hfreq : _get_frequency_dict digibeam "subbandList" =
                    Raise (KeyError "subbandList")).
    { unfold _get_frequency_dict, getitem. rewrite Hsub. reflexivity. }
    split; [unfold _waveform_setting; rewrite Hfreq; reflexivity|].
    intros Hpar. unfold _dynamicspectrum_setting.
    rewrite (parse_parameters_of_absent digibeam false Hpar).
    rewrite (warn_with_present digibeam "toDo" Htodo),
            (warn_with_present digibeam "noBeam" Hnobeam).
    cbn [bind]. change (cfg_truthy "tf: rawrt" _) with false. cbv iota.
    change (getitem "dt" _) with (Ok (A := cfgval) (CFloat 5)).
    change (getitem "df" [("dt", CFloat 5); ("df", CFloat (61 # 10))])
      with (Ok (A := cfgval) (CFloat (61 # 10))).
    cbn [bind cfg_float]. rewrite Hfreq. reflexivity.
Qed.

Lemma dynamicspectrum_swallows_key_errors_witness :
  (forall k, _dynamicspectrum_setting (H := toy_astro)
               [("toDo", VStr "dynamicspectrum"); ("noBeam", VInt 0)] [] [1; 0]
             <> Raise (KeyError k)) /\
  (dget "subbandList" [("toDo", VStr "dynamicspectrum"); ("noBeam", VInt 0)] = None ->
   _waveform_setting (H := toy_astro)
     [("toDo", VStr "dynamicspectrum"); ("noBeam", VInt 0)] [] [1; 0]
   = Raise (KeyError "subbandList") /\
   (dget "parameters" [("toDo", VStr "dynamicspectrum"); ("noBeam", VInt 0)] = None ->
    _dynamicspectrum_setting (H := toy_astro)
      [("toDo", VStr "dynamicspectrum"); ("noBeam", VInt 0)] [] [1; 0] = Ok (JObj []))).
Proof.
  apply (dynamicspectrum_swallows_key_errors (H := toy_astro)
           [("toDo", VStr "dynamicspectrum"); ("noBeam", VInt 0)] [] [1; 0]);
    reflexivity.
Defined.

(** X12.  On a beam without a [parameters] field the handlers write a
    warning that quotes the beam's [noBeam]: with that field present the
    pulsar handler returns the empty receiver and the dynamic-spectrum
    handler goes on with its defaults, 5 ms and 6.1 kHz; without it
    both raise [KeyError] for [noBeam]. *)
Theorem handlers_without_parameters `{Astro}
        (digibeam output_ : store) (version_ : list Z) (frequency : list json) :
  dget "parameters" digibeam = None ->
  _get_frequency_dict digibeam "subbandList" = Ok frequency ->
  _pulsar_setting digibeam output_ version_ =
    (if dmem "noBeam" digibeam then Ok (JObj []) else Raise (KeyError "noBeam")) /\
  _dynamicspectrum_setting digibeam output_ version_ =
    (if dmem "noBeam" digibeam
     then Ok (JObj [("name", JStr "undysputed");
                    ("mode", JStr "tf");
                    ("dt", quantity (JNum 5) "ms");
                    ("df", quantity (JNum (61 # 10)) "kHz");
                    ("frequency", JList frequency)])
     else Raise (KeyError "noBeam")).
Proof.
  intros Hpar Hfreq. unfold _pulsar_setting, _dynamicspectrum_setting.
  rewrite !(parse_parameters_of_absent digibeam _ Hpar).
  destruct (dmem "noBeam" digibeam) eqn:Hnobeam.
  - rewrite (warn_with_present digibeam "noBeam" Hnobeam). cbn [bind].
    split; [reflexivity|].
    change (cfg_truthy "tf: rawrt" _) with false. cbv iota.
    change (getitem "dt" _) with (Ok (A := cfgval) (CFloat 5)).
    change (getitem "df" [("dt", CFloat 5); ("df", CFloat (61 # 10))])
      with (Ok (A := cfgval) (CFloat (61 # 10))).
    cbn [bind cfg_float]. rewrite Hfreq. reflexivity.
  - rewrite (warn_with_absent digibeam "noBeam" Hnobeam). split; reflexivity.
Qed.

Lemma handlers_without_parameters_witness :
  let beam := [("noBeam", VInt 0); ("subbandList", VList [IInt 200; IInt 201])] in
  let frequency :=
    [frequency_interval (H := toy_astro) (200, 201)] in
  _pulsar_setting (H := toy_astro) beam [] [1; 0] =
    (if dmem "noBeam" beam then Ok (JObj []) else Raise (KeyError "noBeam")) /\
  _dynamicspectrum_setting (H := toy_astro) beam [] [1; 0] =
    (if dmem "noBeam" beam
     then Ok (JObj [("name", JStr "undysputed");
                    ("mode", JStr "tf");
                    ("dt", quantity (JNum 5) "ms");
                    ("df", quantity (JNum (61 # 10)) "kHz");
                    ("frequency", JList frequency)])
     else Raise (KeyError "noBeam")).
Proof.
  intros beam frequency.
  apply (handlers_without_parameters (H := toy_astro) beam [] [1; 0] frequency);
    reflexivity.
Defined.

(** X13.  The pulsar handler knows four modes; for a [parameters] text
    whose mode is none of them it returns the empty receiver, and so
    does not read the sub-band list at all. *)
Theorem pulsar_unknown_mode_is_empty `{Astro}
        (digibeam output_ : store) (version_ : list Z) (parameters : string) :
  dget "parameters" digibeam = Some (VStr parameters) ->
  existsb (String.eqb (fst (_parse_parameters parameters true)))
          ["fold"; "single"; "waveolaf"; "wave"] = false ->
  _pulsar_setting digibeam output_ version_ = Ok (JObj []).
Proof.
  intros Hpar Hmode. unfold _pulsar_setting, parse_parameters_of, getitem.
  rewrite Hpar. cbn [bind].
  destruct (_parse_parameters parameters true) as [mode config]. cbn [fst] in Hmode.
  simpl in Hmode. repeat apply orb_false_elim in Hmode as [? Hmode].
  repeat match goal with E : String.eqb _ _ = false |- _ => rewrite E; clear E end.
  reflexivity.
Qed.

Lemma pulsar_unknown_mode_is_empty_witness :
  _pulsar_setting (H := toy_astro) [("parameters", VStr "SEARCH: --src=B0329+54")] [] [1; 0]
  = Ok (JObj []).
Proof.
  apply (pulsar_unknown_mode_is_empty (H := toy_astro)
           [("parameters", VStr "SEARCH: --src=B0329+54")] [] [1; 0]
           "SEARCH: --src=B0329+54"); reflexivity.
Defined.

(** ** The document builder *)

Section PruningMore.

Lemma map_res_Forall2 {A B : Type} (f : A -> res B) (l : list A) (r : list B) :
  map_res f l = Ok r -> Forall2 (fun a b => f a = Ok b) l r.
Proof.
  revert r; induction l as [|a l IH]; simpl; intros r Hr.
  - injection Hr as <-. constructor.
  - apply bind_Ok in Hr as (b & Hb & Hr). apply bind_Ok in Hr as (r' & Hr' & Hr).
    injection Hr as <-. constructor; auto.
Qed.

Lemma Forall2_map_res {A B : Type} (f : A -> res B) (l : list A) (r : list B) :
  Forall2 (fun a b => f a = Ok b) l r -> map_res f l = Ok r.
Proof.
  induction 1 as [|a b l r Hab _ IH]; simpl; [reflexivity|].
  rewrite Hab. cbn [bind]. rewrite IH. reflexivity.
Qed.

(** Masking out the remote members keeps the members whose value is
    an integer not above the threshold. *)
Lemma mask_out_filter (mas : list json) (zs : list Z) :
  Forall2 (fun ma z => ma_value ma = Ok z) mas zs ->
  mask_out mas (map is_remote zs) = List.filter is_local_ma mas /\
  Forall2 (fun ma z => ma_value ma = Ok z)
          (List.filter is_local_ma mas)
          (List.filter (fun z => negb (is_remote z)) zs).
Proof.
  induction 1 as [|ma z mas zs Hma _ [IH1 IH2]]; [split; [reflexivity | constructor]|].
  assert (Hloc : is_local_ma ma = negb (is_remote z))
    by (unfold is_local_ma; rewrite Hma; reflexivity).
  simpl. rewrite Hloc.
  destruct (is_remote z); simpl.
  - split; [exact IH1 | exact IH2].
  - split; [f_equal; exact IH1 | constructor; [exact Hma | exact IH2]].
Qed.

Lemma filter_all_local (mas : list json) (zs : list Z) :
  Forall2 (fun ma z => ma_value ma = Ok z) mas zs ->
  existsb is_remote zs = false ->
  List.filter is_local_ma mas = mas.
Proof.
  induction 1 as [|ma z mas zs Hma _ IH]; [reflexivity|].
  simpl. intros Hno. apply orb_false_elim in Hno as [Hz Hrest].
  assert (Hloc : is_local_ma ma = true)
    by (unfold is_local_ma; rewrite Hma, Hz; reflexivity).
  rewrite Hloc. f_equal. auto.
Qed.

Lemma existsb_filter_false {A : Type} (f : A -> bool) (l : list A) :
  existsb f (List.filter (fun x => negb (f x)) l) = false.
Proof.
  induction l as [|x l IH]; [reflexivity|]. simpl.
  destruct (f x) eqn:E; simpl; [exact IH|]. rewrite E. exact IH.
Qed.

Lemma is_local_ma_spec (ma : json) :
  is_local_ma ma = true <-> exists z, ma_value ma = Ok z /\ z <= REMOTE_THRESHOLD.
Proof.
  unfold is_local_ma, is_remote. split.
  - destruct (ma_value ma) as [z|]; [|discriminate].
    intros Hz. exists z. split; [reflexivity|].
    apply negb_true_iff, Z.ltb_ge in Hz. exact Hz.
  - intros (z & -> & Hz). apply negb_true_iff, Z.ltb_ge. exact Hz.
Qed.

(** What one round of the pruning loop does to a field of view, when
    it returns. *)
Lemma prune_fov_spec (f f' : fov) :
  prune_fov f = Ok f' ->
  f' = set_fov_mini_arrays f (List.filter is_local_ma (fov_mini_arrays f)) /\
  prune_fov f' = Ok f'.
Proof.
  unfold prune_fov. intros Hp. apply bind_Ok in Hp as (zs & Hzs & Hp).
  pose proof (map_res_Forall2 _ _ _ Hzs) as Hall.
  destruct (mask_out_filter _ _ Hall) as [Hmask Hloc].
  destruct (existsb is_remote zs) eqn:Hremote; simpl in Hp.
  - apply bind_Ok in Hp as (u & _ & Hp). injection Hp as <-.
    rewrite Hmask. split; [reflexivity|].
    cbn [fov_mini_arrays set_fov_mini_arrays].
    rewrite (Forall2_map_res _ _ _ Hloc). cbn [bind].
    rewrite existsb_filter_false. reflexivity.
  - injection Hp as <-. rewrite (filter_all_local _ _ Hall Hremote).
    split; [destruct f; reflexivity|].
    rewrite Hzs. cbn [bind]. rewrite Hremote. reflexivity.
Qed.

Lemma map_res_prune_spec (fs fs' : list fov) :
  map_res prune_fov fs = Ok fs' ->
  fs' = map (fun f => set_fov_mini_arrays f (List.filter is_local_ma (fov_mini_arrays f))) fs /\
  map_res prune_fov fs' = Ok fs'.
Proof.
  revert fs'. induction fs as [|f fs IH]; intros fs' Hp; simpl in Hp.
  - injection Hp as <-. split; reflexivity.
  - apply bind_Ok in Hp as (f1 & Hf1 & Hp). apply bind_Ok in Hp as (fs1 & Hfs1 & Hp).
    injection Hp as <-. destruct (prune_fov_spec f f1 Hf1) as [-> Hagain].
    destruct (IH fs1 Hfs1) as [-> Hagain'].
    split; [reflexivity|]. cbn [map_res]. rewrite Hagain. cbn [bind].
    rewrite Hagain'. reflexivity.
Qed.
End PruningMore.

(** What [remove_unused_miniarrays] returns, and that it is stable. *)
Lemma remove_unused_miniarrays_spec (e e' : JsonEntry) :
  remove_unused_miniarrays e = Ok e' ->
  fovs e' = map (fun f => set_fov_mini_arrays f (List.filter is_local_ma (fov_mini_arrays f)))
                (fovs e) /\
  map fov_idx (fovs e') = map fov_idx (fovs e) /\
  map fov_pointings (fovs e') = map fov_pointings (fovs e) /\
  pointings e' = pointings e /\
  (forall f ma, In f (fovs e') -> In ma (fov_mini_arrays f) ->
                exists z, ma_value ma = Ok z /\ z <= REMOTE_THRESHOLD) /\
  remove_unused_miniarrays e' = Ok e'.
Proof.
  unfold remove_unused_miniarrays. intros Hrem.
  apply bind_Ok in Hrem as (fs & Hfs & Hrem). injection Hrem as <-.
  destruct (map_res_prune_spec _ _ Hfs) as [Heq Hagain]. cbn [fovs pointings set_fovs].
  split; [exact Heq|]. split; [|split; [|split; [reflexivity|split]]].
  - rewrite Heq, map_map. reflexivity.
  - rewrite Heq, map_map. reflexivity.
  - intros f ma Hf Hma. rewrite Heq in Hf. apply in_map_iff in Hf as (f0 & <- & _).
    cbn [fov_mini_arrays set_fov_mini_arrays] in Hma.
    apply filter_In in Hma as [_ Hloc]. apply is_local_ma_spec. exact Hloc.
  - rewrite Hagain. reflexivity.
Qed.


(** X14.  When [remove_unused_miniarrays] returns, every field of view
    has kept its index, its pointings and, in their order, exactly those
    of its mini-arrays whose number is 96 or less: no remote mini-array
    is left.  Pruning a second time changes nothing. *)
Theorem pruning_leaves_no_remote_miniarray (e e' : JsonEntry) :
  remove_unused_miniarrays e = Ok e' ->
  fovs e' = map (fun f => set_fov_mini_arrays f (List.filter is_local_ma (fov_mini_arrays f)))
                (fovs e) /\
  map fov_idx (fovs e') = map fov_idx (fovs e) /\
  map fov_pointings (fovs e') = map fov_pointings (fovs e) /\
  pointings e' = pointings e /\
  (forall f ma, In f (fovs e') -> In ma (fov_mini_arrays f) ->
                exists z, ma_value ma = Ok z /\ z <= REMOTE_THRESHOLD) /\
  remove_unused_miniarrays e' = Ok e'.
Proof.
  intros Hrem.
  destruct (remove_unused_miniarrays_spec e e' Hrem) as (H1 & H2 & H3 & H4 & H5 & H6).
  split; [exact H1|]. split; [exact H2|]. split; [exact H3|]. split; [exact H4|].
  split; [exact H5 | exact H6].
Qed.

Lemma pruning_leaves_no_remote_miniarray_witness :
  let e := mk_entry [] [] [remote_fov] [] in
  let e' := mk_entry [] []
              [set_fov_mini_arrays remote_fov (_array_to_dict_array [IInt 1; IInt 96])] [] in
  fovs e' = map (fun f => set_fov_mini_arrays f (List.filter is_local_ma (fov_mini_arrays f)))
                (fovs e) /\
  map fov_idx (fovs e') = map fov_idx (fovs e) /\
  map fov_pointings (fovs e') = map fov_pointings (fovs e) /\
  pointings e' = pointings e /\
  (forall f ma, In f (fovs e') -> In ma (fov_mini_arrays f) ->
                exists z, ma_value ma = Ok z /\ z <= REMOTE_THRESHOLD) /\
  remove_unused_miniarrays e' = Ok e'.
Proof.
  intros e e'. apply (pruning_leaves_no_remote_miniarray e e'). reflexivity.
Defined.

(** X15.  The pruning loop of [to_json_old] differs from the one of
    [remove_unused_miniarrays] in one case only: when one of the
    pointings of the field of view is named nickel it leaves the field
    of view as it is; otherwise the two loops return the same thing. *)
Theorem old_pruning_loop_spares_nickel (f : fov) (names : list json) :
  receiver_names f = Ok names ->
  is_ok (map_res ma_value (fov_mini_arrays f)) = true ->
  prune_fov_old f =
    (if existsb is_nickel names then Ok f else prune_fov f) /\
  (existsb is_nickel names = true -> prune_fov_old f = Ok f).
Proof.
  intros Hnames Hmas. unfold receiver_names in Hnames.
  assert (Heq : prune_fov_old f = if existsb is_nickel names then Ok f else prune_fov f).
  { unfold prune_fov_old, prune_fov. rewrite scan_receivers_blind.
    destruct (map_res ma_value (fov_mini_arrays f)) as [zs|]; [|discriminate].
    cbn [bind]. rewrite Hnames. cbn [bind].
    destruct (existsb is_remote zs) eqn:Hremote; simpl;
      destruct (existsb is_nickel names); reflexivity. }
  split; [exact Heq|]. intros Hnickel. rewrite Heq, Hnickel. reflexivity.
Qed.

Lemma old_pruning_loop_spares_nickel_witness :
  prune_fov_old remote_fov =
    (if existsb is_nickel [JStr "nickel"] then Ok remote_fov else prune_fov remote_fov) /\
  (existsb is_nickel [JStr "nickel"] = true -> prune_fov_old remote_fov = Ok remote_fov).
Proof. apply (old_pruning_loop_spares_nickel remote_fov [JStr "nickel"]); reflexivity. Defined.

Section BuilderMore.
Context `{Astro}.

Lemma add_observation_metadata_keeps (e e' : JsonEntry) (obs : store) (f u : string) :
  add_observation_metadata e obs f u = Ok e' ->
  fovs e' = fovs e /\ pointings e' = pointings e /\ output e' = output e.
Proof.
  unfold add_observation_metadata. intros Hmd. do 7 inv_bind Hmd.
  injection Hmd as <-. repeat split; reflexivity.
Qed.

Lemma add_field_of_view_spec (e e' : JsonEntry) (index : Z) (anabeam anabeam' : store) :
  add_field_of_view e index anabeam = Ok (e', anabeam') ->
  exists (f : fov) (mas fils tims : list item),
    fovs e' = fovs e ++ [f] /\
    fov_idx f = index /\
    fov_pointings f = [] /\
    pointings e' = pointings e /\
    obs_metadata e' = obs_metadata e /\
    output e' = output e /\
    (let* v := getitem "maList" anabeam in iterate v) = Ok mas /\
    (let* v := getitem "filter" anabeam in iterate v) = Ok fils /\
    (let* v := getitem "filterTime" anabeam in iterate v) = Ok tims /\
    fov_mini_arrays f = _array_to_dict_array mas /\
    length (fov_filter f) = Nat.min (length fils) (length tims).
Proof.
  unfold add_field_of_view. intros Hadd. do 12 inv_bind Hadd.
  injection Hadd as <- <-.
  destruct a0 as [p1 doc]. cbn [fst snd] in *.
  apply resolver_inv in Hstep0 as (d & t & v & dt & c & _ & _ & -> & _).
  assert (Hkeep : forall k, k <> "directionType" ->
                            getitem k (after_resolver anabeam) = getitem k anabeam).
  { intros k Hk. unfold getitem. rewrite after_resolver_other by exact Hk. reflexivity. }
  rewrite Hkeep in Hstep2, Hstep4, Hstep6, Hstep8 by discriminate.
  eexists _, a3, a7, a9. cbn [fovs pointings obs_metadata output].
  split; [reflexivity|]. cbn [fov_idx fov_pointings fov_mini_arrays fov_filter].
  repeat (split; [reflexivity|]).
  split; [rewrite Hstep2; exact Hstep3|].
  split; [rewrite Hstep6; exact Hstep7|].
  split; [rewrite Hstep8; exact Hstep9|].
  split; [reflexivity|].
  apply map_res_Ok_length in Hstep10. rewrite Hstep10. apply length_combine.
Qed.

Lemma xst_pointing_inv (e : JsonEntry) (last_pointing_idx : Z) (i : nat) (f : fov)
      (q : json) :
  xst_pointing e last_pointing_idx i f = Ok q ->
  jget "idx" q = Ok (JInt (last_pointing_idx + 1 + Z.of_nat i)) /\
  jget "time" q = Ok (fov_time f) /\
  (let* rc := jget "receiver" q in jget "name" rc) = Ok (JStr "LaNewBa").
Proof.
  unfold xst_pointing. intros Hx. do 7 inv_bind Hx. injection Hx as <-.
  repeat split; reflexivity.
Qed.

Lemma xst_loop_spec (fs : list fov) :
  forall (e e' : JsonEntry) (last_pointing_idx : Z) (i : nat),
    xst_loop e last_pointing_idx i fs = Ok e' ->
    fovs e' = fovs e /\ obs_metadata e' = obs_metadata e /\ output e' = output e /\
    exists ps,
      pointings e' = pointings e ++ ps /\
      length ps = length fs /\
      forall (k : nat) (q : nat * json),
        ps !! k = Some q ->
        fst q = (i + k)%nat /\
        jget "idx" (snd q) = Ok (JInt (last_pointing_idx + 1 + Z.of_nat (i + k))) /\
        (let* rc := jget "receiver" (snd q) in jget "name" rc) = Ok (JStr "LaNewBa") /\
        exists f, fs !! k = Some f /\ jget "time" (snd q) = Ok (fov_time f).
Proof.
  induction fs as [|f fs IH]; intros e e' last_pointing_idx i Hloop; simpl in Hloop.
  - injection Hloop as <-. repeat split; try reflexivity.
    exists []. split; [symmetry; apply List.app_nil_r|]. split; [reflexivity|].
    intros k q Hk. destruct k; discriminate.
  - inv_bind Hloop. apply IH in Hloop as (Hf & Hm & Ho & ps & Hps & Hlen & Hall).
    cbn [fovs obs_metadata output pointings] in *.
    split; [exact Hf|]. split; [exact Hm|]. split; [exact Ho|].
    exists ((i, a) :: ps). split; [rewrite Hps, <- List.app_assoc; reflexivity|].
    split; [simpl; f_equal; exact Hlen|].
    intros [|k] q Hk; simpl in Hk.
    + injection Hk as <-. cbn [fst snd].
      destruct (xst_pointing_inv _ _ _ _ _ Hstep) as (Hidx & Htime & Hname).
      rewrite Nat.add_0_r. repeat split; try assumption.
      exists f. split; [reflexivity | exact Htime].
    + destruct (Hall k q Hk) as (Hfst & Hidx & Hname & f' & Hf' & Htime).
      replace (i + S k)%nat with (S i + k)%nat by lia.
      repeat split; try assumption. exists f'. split; assumption.
Qed.

Lemma attach_pointings_spec (ps : list (nat * json)) :
  forall (fs fs' : list fov),
    attach_pointings ps fs = Ok fs' ->
    length fs' = length fs /\
    forall (i : nat) (f : fov),
      fs !! i = Some f ->
      fs' !! i = Some (set_fov_pointings f (fov_pointings f ++ pointings_of i ps)).
Proof.
  induction ps as [|[j q] ps IH]; intros fs fs' Hatt; simpl in Hatt.
  - injection Hatt as <-. split; [reflexivity|]. intros i f Hi.
    unfold pointings_of. simpl. rewrite List.app_nil_r. rewrite Hi. destruct f; reflexivity.
  - destruct (fs !! j) as [fj|] eqn:Hj; [|discriminate].
    apply IH in Hatt as [Hlen Hall]. rewrite length_insert in Hlen.
    split; [exact Hlen|]. intros i f Hi.
    unfold pointings_of. cbn [List.filter fst].
    destruct (Nat.eqb_spec j i) as [->|Hne].
    + rewrite (Hall i (append_fov_pointing fj q)).
      * rewrite Hi in Hj. injection Hj as <-. unfold set_fov_pointings, append_fov_pointing.
        cbn [fov_idx fov_pointings fov_name fov_center fov_time fov_beamsquint
             fov_mini_arrays fov_antennas fov_filter map snd].
        rewrite <- List.app_assoc. reflexivity.
      * rewrite list_lookup_insert_eq; [reflexivity|]. eapply lookup_lt_Some. exact Hj.
    + apply Hall. rewrite list_lookup_insert_ne by exact Hne. exact Hi.
Qed.

Lemma attach_pointings_total (ps : list (nat * json)) :
  forall (fs : list fov),
    Forall (fun q => (fst q < length fs)%nat) ps ->
    exists fs', attach_pointings ps fs = Ok fs'.
Proof.
  induction ps as [|[j q] ps IH]; intros fs Hall; simpl; [eauto|].
  apply Forall_cons in Hall as [Hj Hall]. simpl in Hj.
  destruct (lookup_lt_is_Some_2 fs j Hj) as [fj ->].
  apply IH. eapply Forall_impl; [exact Hall|]. intros x Hx. rewrite length_insert. exact Hx.
Qed.

Lemma attach_pointings_bounds (ps : list (nat * json)) :
  forall (fs fs' : list fov),
    attach_pointings ps fs = Ok fs' ->
    Forall (fun q => (fst q < length fs)%nat) ps.
Proof.
  induction ps as [|[j q] ps IH]; intros fs fs' Hatt; simpl in Hatt; [constructor|].
  destruct (fs !! j) as [fj|] eqn:Hj; [|discriminate].
  constructor; [eapply lookup_lt_Some; exact Hj|].
  apply IH in Hatt. eapply Forall_impl; [exact Hatt|].
  intros x Hx. rewrite length_insert in Hx. exact Hx.
Qed.

Lemma doc_fovs_data (md : list (string * json)) (fs : list fov) :
  doc_fovs (JObj (dset "field_of_views" (JList (map json_of_fov fs)) md)) =
  Ok (map json_of_fov fs).
Proof. unfold doc_fovs, jget, getitem. rewrite dget_dset_eq. reflexivity. Qed.
End BuilderMore.

(** X16.  [add_field_of_view] appends one field of view and touches
    nothing else of the entry: it carries the index it was given, no
    pointing yet, one mini-array entry per member of [maList], and as
    many filter entries as the shorter of [filter] and [filterTime] has
    members (the pairing drops what has no partner). *)
Theorem add_field_of_view_appends `{Astro}
        (e e' : JsonEntry) (index : Z) (anabeam anabeam' : store) :
  add_field_of_view e index anabeam = Ok (e', anabeam') ->
  exists (f : fov) (mas fils tims : list item),
    fovs e' = fovs e ++ [f] /\
    fov_idx f = index /\
    fov_pointings f = [] /\
    pointings e' = pointings e /\
    obs_metadata e' = obs_metadata e /\
    output e' = output e /\
    (let* v := getitem "maList" anabeam in iterate v) = Ok mas /\
    (let* v := getitem "filter" anabeam in iterate v) = Ok fils /\
    (let* v := getitem "filterTime" anabeam in iterate v) = Ok tims /\
    length (fov_mini_arrays f) = length mas /\
    length (fov_filter f) = Nat.min (length fils) (length tims).
Proof.
  intros Hadd.
  destruct (add_field_of_view_spec e e' index anabeam anabeam' Hadd)
    as (f & mas & fils & tims & H1 & H2 & H3 & H4 & H5 & H6 & H7 & H8 & H9 & H10 & H11).
  exists f, mas, fils, tims. repeat (split; [assumption|]).
  split; [|exact H11]. rewrite H10. unfold _array_to_dict_array. apply length_map.
Qed.

Lemma add_field_of_view_appends_witness :
  exists (e' : JsonEntry) (anabeam' : store),
    add_field_of_view (H := toy_astro) empty_entry 7 remote_anabeam = Ok (e', anabeam') /\
    exists (f : fov) (mas fils tims : list item),
      fovs e' = fovs empty_entry ++ [f] /\
      fov_idx f = 7 /\
      fov_pointings f = [] /\
      pointings e' = pointings empty_entry /\
      obs_metadata e' = obs_metadata empty_entry /\
      output e' = output empty_entry /\
      (let* v := getitem "maList" remote_anabeam in iterate v) = Ok mas /\
      (let* v := getitem "filter" remote_anabeam in iterate v) = Ok fils /\
      (let* v := getitem "filterTime" remote_anabeam in iterate v) = Ok tims /\
      length (fov_mini_arrays f) = length mas /\
      length (fov_filter f) = Nat.min (length fils) (length tims).
Proof.
  eexists _, _. split; [vm_compute; reflexivity|].
  eapply (add_field_of_view_appends (H := toy_astro) empty_entry _ 7 remote_anabeam).
  vm_compute. reflexivity.
Defined.

(** X17.  [add_xst_pointings] adds one pointing per field of view and
    changes nothing else: the pointing for the field of view at position
    [k] is recorded for that position, carries the index that follows
    the pointings already there ([len(pointings) + k]), the time of its
    field of view and the receiver name LaNewBa.  With no field of view
    it does nothing, whatever the output holds. *)
Theorem xst_pointings_one_per_field_of_view `{Astro} (e e' : JsonEntry) :
  add_xst_pointings e = Ok e' ->
  fovs e' = fovs e /\ obs_metadata e' = obs_metadata e /\ output e' = output e /\
  exists ps,
    pointings e' = pointings e ++ ps /\
    length ps = length (fovs e) /\
    forall (k : nat) (q : nat * json),
      ps !! k = Some q ->
      fst q = k /\
      jget "idx" (snd q) = Ok (JInt (Z.of_nat (length (pointings e) + k))) /\
      (let* rc := jget "receiver" (snd q) in jget "name" rc) = Ok (JStr "LaNewBa") /\
      exists f, fovs e !! k = Some f /\ jget "time" (snd q) = Ok (fov_time f).
Proof.
  unfold add_xst_pointings. intros Hx.
  apply xst_loop_spec in Hx as (Hf & Hm & Ho & ps & Hps & Hlen & Hall).
  repeat (split; [assumption|]). exists ps. split; [exact Hps|]. split; [exact Hlen|].
  intros k q Hk. destruct (Hall k q Hk) as (Hfst & Hidx & Hname & f & Hfk & Htime).
  simpl in Hfst. split; [exact Hfst|]. split; [|split; [exact Hname|eauto]].
  rewrite Hidx. do 2 f_equal. simpl. lia.
Qed.

Lemma xst_pointings_one_per_field_of_view_witness :
  exists e',
    add_xst_pointings (H := toy_astro) waiting_entry = Ok e' /\
    fovs e' = fovs waiting_entry /\ obs_metadata e' = obs_metadata waiting_entry /\
    output e' = output waiting_entry /\
    exists ps,
      pointings e' = pointings waiting_entry ++ ps /\
      length ps = length (fovs waiting_entry) /\
      forall (k : nat) (q : nat * json),
        ps !! k = Some q ->
        fst q = k /\
        jget "idx" (snd q) = Ok (JInt (Z.of_nat (length (pointings waiting_entry) + k))) /\
        (let* rc := jget "receiver" (snd q) in jget "name" rc) = Ok (JStr "LaNewBa") /\
        exists f, fovs waiting_entry !! k = Some f /\ jget "time" (snd q) = Ok (fov_time f).
Proof.
  eexists. split; [vm_compute; reflexivity|].
  eapply (xst_pointings_one_per_field_of_view (H := toy_astro) waiting_entry).
  vm_compute. reflexivity.
Defined.

(** What [data] returns, and what a second call returns. *)
Lemma data_spec (e e1 : JsonEntry) (doc1 : json) :
  data e = Ok (e1, doc1) ->
  (forall (i : nat) (f : fov),
      fovs e !! i = Some f ->
      fovs e1 !! i =
        Some (set_fov_pointings f (fov_pointings f ++ pointings_of i (pointings e)))) /\
  length (fovs e1) = length (fovs e) /\
  pointings e1 = pointings e /\
  doc_fovs doc1 = Ok (map json_of_fov (fovs e1)) /\
  exists (e2 : JsonEntry) (doc2 : json),
    data e1 = Ok (e2, doc2) /\
    doc_fovs doc2 = Ok (map json_of_fov (fovs e2)) /\
    forall (i : nat) (f : fov),
      fovs e !! i = Some f ->
      fovs e2 !! i =
        Some (set_fov_pointings f
                (fov_pointings f ++ pointings_of i (pointings e)
                                 ++ pointings_of i (pointings e))).
Proof.
  unfold data. intros Hd. apply bind_Ok in Hd as (fs1 & Hatt & Hd).
  injection Hd as <- <-. cbn [fovs pointings set_fovs obs_metadata].
  destruct (attach_pointings_spec _ _ _ Hatt) as [Hlen Hall].
  split; [exact Hall|]. split; [exact Hlen|]. split; [reflexivity|].
  split; [apply doc_fovs_data|].
  destruct (attach_pointings_total (pointings e) fs1) as [fs2 Hatt2].
  { eapply Forall_impl; [eapply attach_pointings_bounds; exact Hatt|].
    intros q Hq. rewrite Hlen. exact Hq. }
  rewrite Hatt2. cbn [bind]. eexists _, _. split; [reflexivity|].
  cbn [fovs set_fovs]. split; [apply doc_fovs_data|].
  destruct (attach_pointings_spec _ _ _ Hatt2) as [_ Hall2].
  intros i f Hi. rewrite (Hall2 i _ (Hall i f Hi)).
  unfold set_fov_pointings. cbn [fov_idx fov_pointings fov_name fov_center fov_time
    fov_beamsquint fov_mini_arrays fov_antennas fov_filter].
  rewrite <- List.app_assoc. reflexivity.
Qed.


(** X18.  [data] appends the waiting pointings to the fields of view
    that the entry itself holds (the copy it takes is shallow): after a
    first call each field of view has, after the pointings it had, those
    recorded for its position, in their order, and the document shows
    exactly these fields of view; a second call succeeds as well and
    appends the same pointings once more. *)
Theorem data_appends_in_place (e e1 : JsonEntry) (doc1 : json) :
  data e = Ok (e1, doc1) ->
  (forall (i : nat) (f : fov),
      fovs e !! i = Some f ->
      fovs e1 !! i =
        Some (set_fov_pointings f (fov_pointings f ++ pointings_of i (pointings e)))) /\
  length (fovs e1) = length (fovs e) /\
  pointings e1 = pointings e /\
  doc_fovs doc1 = Ok (map json_of_fov (fovs e1)) /\
  exists (e2 : JsonEntry) (doc2 : json),
    data e1 = Ok (e2, doc2) /\
    doc_fovs doc2 = Ok (map json_of_fov (fovs e2)) /\
    forall (i : nat) (f : fov),
      fovs e !! i = Some f ->
      fovs e2 !! i =
        Some (set_fov_pointings f
                (fov_pointings f ++ pointings_of i (pointings e)
                                 ++ pointings_of i (pointings e))).
Proof.
  intros Hd.
  destruct (data_spec e e1 doc1 Hd) as (H1 & H2 & H3 & H4 & e2 & doc2 & H5 & H6 & H7).
  split; [exact H1|]. split; [exact H2|]. split; [exact H3|]. split; [exact H4|].
  exists e2, doc2. split; [exact H5|]. split; [exact H6 | exact H7].
Qed.

Lemma data_appends_in_place_witness :
  exists (e1 : JsonEntry) (doc1 : json),
    data waiting_entry = Ok (e1, doc1) /\
    (forall (i : nat) (f : fov),
        fovs waiting_entry !! i = Some f ->
        fovs e1 !! i =
          Some (set_fov_pointings f
                  (fov_pointings f ++ pointings_of i (pointings waiting_entry)))) /\
    length (fovs e1) = length (fovs waiting_entry) /\
    pointings e1 = pointings waiting_entry /\
    doc_fovs doc1 = Ok (map json_of_fov (fovs e1)) /\
    exists (e2 : JsonEntry) (doc2 : json),
      data e1 = Ok (e2, doc2) /\
      doc_fovs doc2 = Ok (map json_of_fov (fovs e2)) /\
      forall (i : nat) (f : fov),
        fovs waiting_entry !! i = Some f ->
        fovs e2 !! i =
          Some (set_fov_pointings f
                  (fov_pointings f ++ pointings_of i (pointings waiting_entry)
                                   ++ pointings_of i (pointings waiting_entry))).
Proof.
  eexists _, _. split; [vm_compute; reflexivity|].
  eapply (data_appends_in_place waiting_entry). vm_compute. reflexivity.
Defined.

Example data_twice :
  (let* r1 := data waiting_entry in
   let* r2 := data (fst r1) in
   Ok (map (fun f => length (fov_pointings f)) (fovs (fst r1)),
       map (fun f => length (fov_pointings f)) (fovs (fst r2)))) =
  Ok ([2%nat; 1%nat], [4%nat; 2%nat]).
Proof. reflexivity. Qed.

(** ** Parset.to_json and Parset.version *)

Section ToJsonFacts.
Context `{Astro}.

Lemma add_fields_of_view_spec (todo : list (Z * store)) :
  forall (e e' : JsonEntry) (beams beams' : list (Z * store)),
    add_fields_of_view e todo beams = Ok (e', beams') ->
    exists fs,
      fovs e' = fovs e ++ fs /\
      map fov_idx fs = map fst todo /\
      pointings e' = pointings e.
Proof.
  induction todo as [|[i b] todo IH]; simpl; intros e e' beams beams' Hadd.
  - injection Hadd as <- _. exists []. rewrite List.app_nil_r. repeat split; reflexivity.
  - inv_bind Hadd. destruct a as [e1 b1]. cbn [fst snd] in Hadd.
    apply add_field_of_view_spec in Hstep
      as (f & mas & fils & tims & Hf & Hidx & _ & Hp & _).
    apply IH in Hadd as (fs & Hfs & Hidxs & Hps).
    exists (f :: fs). split; [rewrite Hfs, Hf, <- List.app_assoc; reflexivity|].
    split; [simpl; rewrite Hidx, Hidxs; reflexivity|]. congruence.
Qed.

Lemma add_pointings_fovs (todo : list (Z * store)) :
  forall (e : JsonEntry) (parset_version : list Z) (shift : Z)
         (beams : list (Z * store)) (r : JsonEntry * list (Z * store)),
    add_pointings e parset_version shift todo beams = Ok r ->
    fovs (fst r) = fovs e.
Proof.
  induction todo as [|[i b] todo IH]; simpl; intros e parset_version shift beams r Hadd.
  - injection Hadd as <-. reflexivity.
  - inv_bind Hadd. destruct a as [e1 b1].
    apply add_pointing_Ok_inv in Hstep as (v & k & _ & _ & Hfovs).
    apply IH in Hadd. cbn [fst] in Hadd. congruence.
Qed.

Lemma add_old_nickel_pointing_fovs (e : JsonEntry) (parset_version : list Z)
      (beams : list (Z * store)) (r : JsonEntry * list (Z * store)) :
  add_old_nickel_pointing e parset_version beams = Ok r -> fovs (fst r) = fovs e.
Proof.
  unfold add_old_nickel_pointing.
  destruct (tuple_lt parset_version [1; 0]); [|intros [= <-]; reflexivity].
  intros Hadd. inv_bind Hadd. destruct a; [|injection Hadd as <-; reflexivity].
  inv_bind Hadd. destruct (negb (existsb is_TBD a)); [|injection Hadd as <-; reflexivity].
  destruct (iget 0 beams) as [first|]; [|discriminate].
  inv_bind Hadd. injection Hadd as <-. destruct a0 as [e1 b1].
  apply add_pointing_Ok_inv in Hstep1 as (v & k & _ & _ & Hfovs). exact Hfovs.
Qed.

Lemma add_xst_pointings_fovs (e e' : JsonEntry) :
  add_xst_pointings e = Ok e' -> fovs e' = fovs e.
Proof.
  unfold add_xst_pointings. intros Hx. apply xst_loop_spec in Hx as (Hf & _). exact Hf.
Qed.

(** The fields of view of the document that [to_json] returns. *)
Lemma to_json_fovs (p p' : Parset) (doc : json) :
  to_json p = Ok (p', doc) ->
  exists fs,
    doc_fovs doc = Ok (map json_of_fov fs) /\
    map fov_idx fs = map fst (anabeams p) /\
    forall f ma, In f fs -> In ma (fov_mini_arrays f) ->
                 exists z, ma_value ma = Ok z /\ z <= REMOTE_THRESHOLD.
Proof.
  unfold to_json. intros Hjson.
  inv_bind Hjson. inv_bind Hjson. inv_bind Hjson. inv_bind Hjson. inv_bind Hjson.
  inv_bind Hjson. inv_bind Hjson. inv_bind Hjson. inv_bind Hjson.
  injection Hjson as _ <-.
  destruct a1 as [e1 ab]. destruct a2 as [e2 db]. destruct a3 as [e3 pc].
  destruct a5 as [e5 db']. destruct a7 as [e7 doc7]. cbn [fst snd] in *.
  apply add_observation_metadata_keeps in Hstep0 as (Hf0 & _).
  apply add_fields_of_view_spec in Hstep1 as (fs1 & Hf1 & Hidx1 & _).
  apply add_pointings_fovs in Hstep2. cbn [fst] in Hstep2.
  assert (Hf3 : fovs e3 = fovs e2).
  { destruct (tuple_ge a [1; 0]); [|injection Hstep3 as <- _; reflexivity].
    destruct (phase_centers p); [injection Hstep3 as <- _; reflexivity|].
    inv_bind Hstep3. apply add_pointings_fovs in Hstep3. exact Hstep3. }
  assert (Hf4 : fovs a4 = fovs e3).
  { destruct (value_truthy _); [apply add_xst_pointings_fovs; exact Hstep4|].
    injection Hstep4 as <-. reflexivity. }
  apply add_old_nickel_pointing_fovs in Hstep5. cbn [fst] in Hstep5.
  pose proof (remove_unused_miniarrays_spec _ _ Hstep6)
    as (_ & Hidx6 & _ & _ & Hloc6 & _).
  pose proof (data_spec _ _ _ Hstep7) as (Hall7 & Hlen7 & _ & Hdoc7 & _).
  exists (fovs e7). split; [exact Hdoc7|].
  assert (Hsame : forall i f, fovs e7 !! i = Some f ->
                              exists f6, fovs a6 !! i = Some f6 /\
                                         fov_idx f = fov_idx f6 /\
                                         fov_mini_arrays f = fov_mini_arrays f6).
  { intros i f Hi.
    destruct (fovs a6 !! i) as [f6|] eqn:H6.
    - rewrite (Hall7 i f6 H6) in Hi. injection Hi as <-. exists f6. repeat split.
    - exfalso. apply lookup_ge_None in H6. apply lookup_lt_Some in Hi. lia. }
  split.
  - transitivity (map fov_idx (fovs a6)).
    + apply list_eq. intros i. rewrite !list_lookup_fmap.
      destruct (fovs e7 !! i) as [f|] eqn:Hi.
      * destruct (Hsame i f Hi) as (f6 & -> & Hidx & _). simpl. congruence.
      * apply lookup_ge_None in Hi. rewrite Hlen7 in Hi.
        apply lookup_ge_None in Hi. rewrite Hi. reflexivity.
    + rewrite Hidx6, Hstep5, Hf4, Hf3, Hstep2, Hf1, Hf0. simpl. exact Hidx1.
  - intros f ma Hf Hma. apply list_elem_of_In, list_elem_of_lookup in Hf as [i Hi].
    destruct (Hsame i f Hi) as (f6 & H6 & _ & Hmas). rewrite Hmas in Hma.
    apply (Hloc6 f6 ma); [|exact Hma].
    apply list_elem_of_In. eapply list_elem_of_lookup_2. exact H6.
Qed.
End ToJsonFacts.

(** X19.  The document that [to_json] returns has one field of view per
    analog beam of the parset, in the order of the parset and with the
    beam's key as index; and none of them lists a mini-array above 96:
    at the time [to_json] prunes, no pointing is attached yet, so the
    remote mini-arrays always go. *)
Theorem to_json_fields_of_view `{Astro} (p p' : Parset) (doc : json) :
  to_json p = Ok (p', doc) ->
  exists fs,
    doc_fovs doc = Ok (map json_of_fov fs) /\
    length fs = length (anabeams p) /\
    map fov_idx fs = map fst (anabeams p) /\
    forall f ma, In f fs -> In ma (fov_mini_arrays f) ->
                 exists z, ma_value ma = Ok z /\ z <= REMOTE_THRESHOLD.
Proof.
  intros Hjson. destruct (to_json_fovs p p' doc Hjson) as (fs & Hdoc & Hidx & Hloc).
  exists fs. split; [exact Hdoc|]. split; [|split; [exact Hidx | exact Hloc]].
  rewrite <- (length_map fov_idx fs), Hidx. apply length_map.
Qed.

Lemma to_json_fields_of_view_witness :
  exists (p' : Parset) (doc : json),
    to_json (H := toy_astro) nickel_parset = Ok (p', doc) /\
    exists fs,
      doc_fovs doc = Ok (map json_of_fov fs) /\
      length fs = length (anabeams nickel_parset) /\
      map fov_idx fs = map fst (anabeams nickel_parset) /\
      forall f ma, In f fs -> In ma (fov_mini_arrays f) ->
                   exists z, ma_value ma = Ok z /\ z <= REMOTE_THRESHOLD.
Proof.
  eexists _, _. split; [vm_compute; reflexivity|].
  eapply (to_json_fields_of_view (H := toy_astro) nickel_parset). vm_compute. reflexivity.
Defined.

(** X20.  In a parset of format 1.0 or later that has phase centres but
    no numerical beam, [to_json] never returns a document: the index of
    a phase-centre pointing is computed from the loop variable of the
    loop over the numerical beams, which was never bound.  When the
    steps before that loop go through, the exception is
    [UnboundLocalError]. *)
Theorem phase_centers_need_a_numerical_beam `{Astro} (p : Parset) (v : list Z) :
  version p = Ok v ->
  tuple_ge v [1; 0] = true ->
  digibeams p = [] ->
  phase_centers p <> [] ->
  is_ok (to_json p) = false /\
  forall (e : JsonEntry) (r : JsonEntry * list (Z * store)),
    add_observation_metadata (mk_entry [] (parset_output p) [] [])
                             (observation p) (parset_file p) (parset_user p) = Ok e ->
    add_fields_of_view e (anabeams p) (anabeams p) = Ok r ->
    to_json p = Raise UnboundLocalError.
Proof.
  intros Hv Hge Hdigi Hpc.
  assert (Hlast : last_digi_idx p = Raise UnboundLocalError).
  { unfold last_digi_idx. rewrite Hdigi. reflexivity. }
  assert (Hshape : forall (e : JsonEntry) (r : JsonEntry * list (Z * store)),
             add_observation_metadata (mk_entry [] (parset_output p) [] [])
               (observation p) (parset_file p) (parset_user p) = Ok e ->
             add_fields_of_view e (anabeams p) (anabeams p) = Ok r ->
             to_json p = Raise UnboundLocalError).
  { intros e r He Hr. unfold to_json. rewrite Hv. cbn [bind]. rewrite He. cbn [bind].
    rewrite Hr. cbn [bind]. rewrite Hdigi. cbn [add_pointings bind fst snd].
    rewrite Hge. destruct (phase_centers p); [congruence|].
    rewrite Hlast. reflexivity. }
  split; [|exact Hshape].
  destruct (add_observation_metadata (mk_entry [] (parset_output p) [] [])
              (observation p) (parset_file p) (parset_user p)) as [e|x] eqn:He.
  - destruct (add_fields_of_view e (anabeams p) (anabeams p)) as [r|x] eqn:Hr.
    + rewrite (Hshape e r eq_refl Hr). reflexivity.
    + unfold to_json. rewrite Hv. cbn [bind]. rewrite He. cbn [bind]. rewrite Hr.
      reflexivity.
  - unfold to_json. rewrite Hv. cbn [bind]. rewrite He. reflexivity.
Qed.

Lemma phase_centers_need_a_numerical_beam_witness :
  is_ok (to_json (H := toy_astro) phase_center_only_parset) = false /\
  forall (e : JsonEntry) (r : JsonEntry * list (Z * store)),
    add_observation_metadata (H := toy_astro)
      (mk_entry [] (parset_output phase_center_only_parset) [] [])
      (observation phase_center_only_parset) (parset_file phase_center_only_parset)
      (parset_user phase_center_only_parset) = Ok e ->
    add_fields_of_view (H := toy_astro) e (anabeams phase_center_only_parset)
                       (anabeams phase_center_only_parset) = Ok r ->
    to_json (H := toy_astro) phase_center_only_parset = Raise UnboundLocalError.
Proof.
  apply (phase_centers_need_a_numerical_beam (H := toy_astro) phase_center_only_parset [1; 0]);
    try reflexivity. discriminate.
Defined.

Example phase_center_only_raises :
  to_json (H := toy_astro) phase_center_only_parset = Raise UnboundLocalError.
Proof. vm_compute. reflexivity. Qed.

Section VersionFacts.
Context `{Astro}.

Lemma digit_string_is_no_word (value : string) (words : list string) :
  PyStr.isdigit value = true ->
  Forall (fun w => match w with
                   | String c _ => PyStr.is_digit c = false
                   | EmptyString => True
                   end) words ->
  existsb (String.eqb (PyStr.lower value)) words = false.
Proof.
  intros Hd Hwords. destruct value as [|c s]; [discriminate|].
  assert (Hc : PyStr.is_digit c = true) by (simpl in Hd; apply andb_prop in Hd as [? _]; assumption).
  assert (Hlow : PyStr.lower_ascii c = c).
  { destruct c as [[] [] [] [] [] [] [] []]; try discriminate; reflexivity. }
  induction Hwords as [|w words Hw _ IH]; [reflexivity|].
  cbn [existsb]. rewrite IH, orb_false_r.
  apply String.eqb_neq. cbn [PyStr.lower]. rewrite Hlow. intros <-. congruence.
Qed.

(** A text made of digits is stored as an integer, whatever the key,
    unless the key names an angle. *)
Lemma coerce_digits (key raw : string) :
  PyStr.isdigit (cleaned raw) = true ->
  PyStr.contains "angle" (PyStr.lower key) = false ->
  coerce key raw = Ok (VInt (PyStr.digits_value 0 (cleaned raw))).
Proof.
  intros Hd Hangle. unfold coerce. fold (cleaned raw).
  assert (Hstart : PyStr.startswith "[" (cleaned raw) = false).
  { destruct (cleaned raw) as [|c s]; [discriminate|].
    cbn [PyStr.isdigit PyStr.all_digits] in Hd. apply andb_prop in Hd as [Hc _].
    cbn [PyStr.startswith].
    rewrite Ascii.eqb_sym, (PyStrFacts.is_digit_not "[" c eq_refl Hc). reflexivity. }
  rewrite Hstart. cbn [andb].
  rewrite (digit_string_is_no_word (cleaned raw) ["on"; "enable"; "true"] Hd)
    by (repeat constructor).
  rewrite (digit_string_is_no_word (cleaned raw) ["off"; "disable"; "false"] Hd)
    by (repeat constructor).
  rewrite Hangle, Hd. reflexivity.
Qed.
End VersionFacts.

(** X21.  A format version written with digits only (a line such as
    [Observation.parsetVersion=2]) is stored as an integer, and
    [version], which splits the stored value on the dots as if it were a
    text, raises [AttributeError]; so does [to_json], which starts by
    reading the version.  Without the field the version is [(0,)]. *)
Theorem digit_only_version_is_refused `{Astro} (p : Parset) (raw : string) (obs : store) :
  setitem "parsetVersion" raw (observation p) = Ok obs ->
  PyStr.isdigit (cleaned raw) = true ->
  dget "parsetVersion" obs = Some (VInt (PyStr.digits_value 0 (cleaned raw))) /\
  version (with_observation p obs) = Raise AttributeError /\
  to_json (with_observation p obs) = Raise AttributeError /\
  (dget "parsetVersion" (observation p) = None -> version p = Ok [0]).
Proof.
  intros Hset Hd. unfold setitem in Hset.
  rewrite (coerce_digits "parsetVersion" raw Hd eq_refl) in Hset.
  cbn [bind] in Hset. injection Hset as <-.
  assert (Hget : dget "parsetVersion"
                   (dset "parsetVersion" (VInt (PyStr.digits_value 0 (cleaned raw)))
                         (observation p)) =
                 Some (VInt (PyStr.digits_value 0 (cleaned raw))))
    by apply dget_dset_eq.
  assert (Hversion : version (with_observation p
                       (dset "parsetVersion" (VInt (PyStr.digits_value 0 (cleaned raw)))
                             (observation p))) = Raise AttributeError).
  { unfold version, get_default. cbn [observation with_observation]. rewrite Hget.
    reflexivity. }
  split; [exact Hget|]. split; [exact Hversion|]. split.
  - unfold to_json. rewrite Hversion. reflexivity.
  - intros Hnone. unfold version, get_default. rewrite Hnone. reflexivity.
Qed.

Lemma digit_only_version_is_refused_witness :
  let obs := [("startTime", VTime 1000); ("parsetVersion", VInt 2)] in
  dget "parsetVersion" obs = Some (VInt (PyStr.digits_value 0 (cleaned "2"))) /\
  version (with_observation (empty_parset "a.parset") obs) = Raise AttributeError /\
  to_json (H := toy_astro) (with_observation (empty_parset "a.parset") obs)
    = Raise AttributeError /\
  (dget "parsetVersion" (observation (with_observation (empty_parset "a.parset")
                                        [("startTime", VTime 1000)])) = None ->
   version (with_observation (empty_parset "a.parset") [("startTime", VTime 1000)]) = Ok [0]).
Proof.
  intros obs.
  apply (digit_only_version_is_refused (H := toy_astro)
           (with_observation (empty_parset "a.parset") [("startTime", VTime 1000)])
           "2" obs); reflexivity.
Defined.

(** *** The line decoder *)




Lemma no_char_pretty_N (c : ascii) (n : N) :
  PyStr.is_digit c = false -> no_char c (pretty n) = true.
Proof.
  intros Hc. apply PyStrFacts.all_digits_no_char; [exact Hc|].
  apply PyStrFacts.isdigit_all_digits, PyStrFacts.pretty_N_isdigit.
Qed.

Lemma no_char_pretty_Z (c : ascii) (z : Z) :
  PyStr.is_digit c = false -> Ascii.eqb "-" c = false -> no_char c (pretty z) = true.
Proof.
  intros Hc Hminus. destruct z as [|p|p].
  - apply (no_char_pretty_N c 0 Hc).
  - apply (no_char_pretty_N c (Npos p) Hc).
  - change (pretty (Z.neg p)) with (String "-" (pretty (Npos p))).
    cbn [no_char]. rewrite Hminus. apply (no_char_pretty_N c (Npos p) Hc).
Qed.

(** The text before a separator can be taken free of it. *)
Lemma first_occurrence (c : ascii) (k t : string) :
  exists a b, (k ++ String c t)%string = (a ++ String c b)%string /\ no_char c a = true.
Proof.
  induction k as [|x k (a & b & Heq & Hno)].
  - exists EmptyString, t. split; reflexivity.
  - destruct (Ascii.eqb x c) eqn:E.
    + apply Ascii.eqb_eq in E as ->. exists EmptyString, (k ++ String c t)%string.
      split; reflexivity.
    + exists (String x a), b. rewrite !PyStrFacts.app_cons, Heq. split; [reflexivity|].
      cbn [no_char]. rewrite E, Hno. reflexivity.
Qed.

Lemma split1_two (c : ascii) (k t : string) :
  exists a b, PyStr.split1 (String c EmptyString) (k ++ String c t) = [a; b].
Proof.
  destruct (first_occurrence c k t) as (a & b & -> & Hno).
  exists a, b. apply (PyStrFacts.split1_first c EmptyString a b Hno).
Qed.

Section DecoderFacts.
Context `{Astro}.



End DecoderFacts.



(** *** The writer: indices, removal out of range, text *)

Module WriterTextFacts.
Import Writer WriterText.

Lemma renumber_beam_fixed (nbs : list NumericalBeam) :
  forall c,
    indexed_from c nbs ->
    renumber_beam c nbs = (nbs, c + Z.of_nat (length nbs)).
Proof.
  induction nbs as [|nb rest IH]; intros c Hidx; simpl.
  - f_equal. lia.
  - rewrite IH by (intros i x Hx; rewrite (Hidx (S i) x Hx); lia).
    simpl. f_equal; [|lia]. f_equal. destruct nb as [b n]. simpl. f_equal.
    specialize (Hidx 0%nat (mk_numbeam b n) eq_refl). simpl in Hidx. lia.
Qed.

Lemma indexed_from_split (c : Z) (l1 l2 : list NumericalBeam) :
  indexed_from c (l1 ++ l2) ->
  indexed_from c l1 /\ indexed_from (c + Z.of_nat (length l1)) l2.
Proof.
  intros Hidx. split; intros i nb Hi.
  - apply Hidx. rewrite lookup_app_l; [exact Hi | eapply lookup_lt_Some; exact Hi].
  - rewrite (Hidx (length l1 + i)%nat nb); [lia|].
    rewrite lookup_app_r by lia.
    replace (length l1 + i - length l1)%nat with i by lia. exact Hi.
Qed.

Lemma renumber_beams_fixed (abs : list AnalogBeam) :
  forall c, indexed_from c (all_numbeams abs) -> renumber_beams c abs = abs.
Proof.
  induction abs as [|ab rest IH]; intros c Hidx; simpl; [reflexivity|].
  unfold all_numbeams in Hidx. simpl in Hidx.
  apply indexed_from_split in Hidx as [H1 H2].
  rewrite (renumber_beam_fixed _ _ H1). simpl. rewrite IH by exact H2.
  destruct ab; reflexivity.
Qed.

Lemma remove_in_beam_outside (nbs : list NumericalBeam) :
  forall c k,
    k < c \/ c + Z.of_nat (length nbs) <= k ->
    remove_in_beam c k nbs = (None, c + Z.of_nat (length nbs)).
Proof.
  induction nbs as [|nb rest IH]; intros c k Hk; simpl in *.
  - f_equal. lia.
  - destruct (Z.eqb_spec c k); [lia|]. rewrite IH by lia. simpl. f_equal. lia.
Qed.

Lemma remove_in_beams_outside (abs : list AnalogBeam) :
  forall c k,
    k < c \/ c + Z.of_nat (length (all_numbeams abs)) <= k ->
    remove_in_beams c k abs = abs.
Proof.
  induction abs as [|ab rest IH]; intros c k Hk; simpl; [reflexivity|].
  unfold all_numbeams in Hk. simpl in Hk. rewrite length_app in Hk.
  rewrite remove_in_beam_outside by lia.
  rewrite IH; [reflexivity|]. unfold all_numbeams. lia.
Qed.

Lemma norm_index_outside (i : Z) (n : nat) :
  i < - Z.of_nat n \/ Z.of_nat n <= i -> norm_index i n = None.
Proof.
  intros Hi. unfold norm_index.
  destruct (Z.leb_spec 0 i), (Z.ltb_spec i (Z.of_nat n)),
    (Z.leb_spec (- Z.of_nat n) i), (Z.ltb_spec i 0); simpl; try reflexivity; lia.
Qed.

Lemma ana_labelled_shrink (abs' abs : list AnalogBeam) :
  beams_shrink abs' abs -> ana_labelled abs -> ana_labelled abs'.
Proof.
  intros Hs Hl i ab' Hi.
  destruct (Forall2_lookup_l _ _ _ _ _ Hs Hi) as (ab & Hab & Hb & Hx & _).
  destruct (Hl i ab Hab) as [Hidx Hfld]. rewrite Hb, Hx. split; assumption.
Qed.

Lemma ana_labelled_fields (abs : list AnalogBeam) :
  ana_labelled abs -> Forall (fun ab => field (ab_block ab) = "Anabeam") abs.
Proof. intros Hl. apply Forall_lookup_2. intros i ab Hi. apply (Hl i ab Hi). Qed.

Section Labels.
Context `{Astro}.
Variable PARSET_OPTIONS : list (string * nat).

Lemma reindex_anabeams_labelled (abs : list AnalogBeam) :
  forall c h r,
    reindex_anabeams c abs h = Ok r ->
    forall i ab',
      fst r !! i = Some ab' ->
      exists ab, abs !! i = Some ab /\ ab_block ab' = ab_block ab /\
                 ab_index ab' = c + Z.of_nat i.
Proof.
  induction abs as [|ab rest IH]; intros c h r Hr i ab' Hi; simpl in Hr.
  - injection Hr as <-. destruct i; discriminate.
  - apply bind_Ok in Hr as (h1 & Hp & Hr). apply bind_Ok in Hr as (r1 & Hr1 & Hr).
    injection Hr as <-. destruct i as [|i]; simpl in Hi.
    + injection Hi as <-. exists ab. simpl. repeat split; lia.
    + destruct (IH _ _ _ Hr1 i ab' Hi) as (ab0 & H0 & Hb & Hx).
      exists ab0. simpl. repeat split; [exact H0 | exact Hb | lia].
Qed.

Lemma updates_anabeams_labelled (obs out : block) (abs : list AnalogBeam)
      (h h' : heap) (pu' : ParsetUser) :
  Forall (fun ab => field (ab_block ab) = "Anabeam") abs ->
  _updates_anabeams_indices (mk_user obs abs out) h = Ok (pu', h') ->
  ana_labelled (analog_beams pu').
Proof.
  intros Hf Hupd. unfold _updates_anabeams_indices in Hupd.
  apply bind_Ok in Hupd as (r & Hr & Hupd). injection Hupd as <- <-.
  cbn [analog_beams _updates_numbeams_indices] in *.
  apply (ana_labelled_shrink _ (fst r)); [apply WriterFacts.renumber_beams_shrink|].
  intros i ab' Hi.
  destruct (reindex_anabeams_labelled _ _ _ _ Hr i ab' Hi) as (ab & Hab & Hb & Hx).
  split; [lia|]. rewrite Hb. exact (Forall_lookup_1 _ _ _ _ Hf Hab).
Qed.

Lemma run_call_labelled (c : call) (pu pu' : ParsetUser) (h h' : heap) :
  ana_labelled (analog_beams pu) ->
  run_call PARSET_OPTIONS c pu h = Ok (pu', h') ->
  ana_labelled (analog_beams pu').
Proof.
  intros Hl Hrun.
  destruct c as [kw|i|i kw|k| |key v|key v|i key v|i j key v]; simpl in Hrun.
  - unfold add_analog_beam in Hrun.
    apply bind_Ok in Hrun as ([b hb] & Hb & Hrun).
    apply bind_Ok in Hrun as (h1 & Hm & Hrun).
    eapply updates_anabeams_labelled; [|exact Hrun].
    apply Forall_app. split; [apply ana_labelled_fields; exact Hl|].
    constructor; [|constructor]. cbn [ab_block fst].
    unfold new_block in Hb. apply bind_Ok in Hb as (l & _ & Hb).
    apply bind_Ok in Hb as (r & _ & Hb). injection Hb as <- <-. reflexivity.
  - unfold remove_analog_beam in Hrun.
    apply bind_Ok in Hrun as (abs1 & Hdel & Hrun).
    eapply updates_anabeams_labelled; [|exact Hrun].
    unfold py_del in Hdel.
    destruct (norm_index i (length (analog_beams pu))) as [k|]; [|discriminate].
    injection Hdel as <-. apply Forall_delete, ana_labelled_fields, Hl.
  - unfold add_numerical_beam in Hrun.
    apply bind_Ok in Hrun as ([k ab] & Hidx & Hrun).
    apply bind_Ok in Hrun as ([b hb] & Hb & Hrun).
    apply bind_Ok in Hrun as (h1 & Hm & Hrun).
    apply bind_Ok in Hrun as (h2 & Hp & Hrun). injection Hrun as <- <-.
    cbn [analog_beams _updates_numbeams_indices fst snd] in *.
    eapply ana_labelled_shrink; [apply WriterFacts.renumber_beams_shrink|].
    unfold py_index in Hidx.
    destruct (norm_index i (length (analog_beams pu))) as [k'|]; [|discriminate].
    destruct (analog_beams pu !! k') as [a|] eqn:Hk; [|discriminate].
    injection Hidx as <- <-.
    intros n x Hn. destruct (decide (n = k')) as [->|Hne].
    + rewrite list_lookup_insert_eq in Hn by (eapply lookup_lt_Some; exact Hk).
      injection Hn as <-. exact (Hl k' a Hk).
    + rewrite list_lookup_insert_ne in Hn by congruence. exact (Hl n x Hn).
  - injection Hrun as <- <-. unfold remove_numerical_beam.
    cbn [analog_beams _updates_numbeams_indices].
    eapply ana_labelled_shrink; [apply WriterFacts.renumber_beams_shrink|].
    eapply ana_labelled_shrink; [apply WriterFacts.remove_in_beams_shrink | exact Hl].
  - apply bind_Ok in Hrun as (h1 & _ & Hrun). injection Hrun as <- <-. exact Hl.
  - apply bind_Ok in Hrun as (h1 & _ & Hrun). injection Hrun as <- <-. exact Hl.
  - apply bind_Ok in Hrun as (h1 & _ & Hrun). injection Hrun as <- <-. exact Hl.
  - apply bind_Ok in Hrun as (ka & _ & Hrun).
    apply bind_Ok in Hrun as (h1 & _ & Hrun). injection Hrun as <- <-. exact Hl.
  - apply bind_Ok in Hrun as (ka & _ & Hrun). apply bind_Ok in Hrun as (kn & _ & Hrun).
    apply bind_Ok in Hrun as (h1 & _ & Hrun). injection Hrun as <- <-. exact Hl.
Qed.

Lemma run_calls_labelled (cs : list call) :
  forall (pu pu' : ParsetUser) (h h' : heap),
    ana_labelled (analog_beams pu) ->
    run_calls PARSET_OPTIONS cs pu h = (pu', h') ->
    ana_labelled (analog_beams pu').
Proof.
  induction cs as [|c cs IH]; intros pu pu' h h' Hl Hrun; simpl in Hrun.
  - injection Hrun as <- <-. exact Hl.
  - destruct (run_call PARSET_OPTIONS c pu h) as [[pu1 h1]|x] eqn:Hcall.
    + eapply IH; [|exact Hrun]. eapply run_call_labelled; eassumption.
    + eapply IH; eassumption.
Qed.

Lemma reachable_labelled (h0 h : heap) (pu : ParsetUser) :
  reachable PARSET_OPTIONS h0 pu h -> ana_labelled (analog_beams pu).
Proof.
  intros (pu0 & h1 & cs & Hnew & _ & Hrun).
  eapply run_calls_labelled; [|exact Hrun].
  unfold new_user in Hnew. apply bind_Ok in Hnew as (o & _ & Hnew).
  apply bind_Ok in Hnew as (u & _ & Hnew). injection Hnew as <- <-.
  intros i ab Hi. destruct i; discriminate.
Qed.
End Labels.


(** *** The lines of a block *)

Section Lines.
Context `{Astro}.
Variable str_other : pyval -> string.

Lemma block_line_shape (pre key line : string) (e : list (string * pyval)) :
  block_line str_other pre key e = Ok (Some line) ->
  exists text, line = (pre ++ "." ++ key ++ "=" ++ text)%string.
Proof.
  unfold block_line. intros Hl.
  apply bind_Ok in Hl as (modified & _ & Hl). apply bind_Ok in Hl as (keep & _ & Hl).
  destruct keep; [|discriminate]. apply bind_Ok in Hl as (v & _ & Hl).
  injection Hl as <-. eexists. reflexivity.
Qed.

Lemma block_lines_shape (pre : string) (kvs : list (string * nat)) (h : heap) :
  forall lines,
    block_lines str_other pre kvs h = Ok lines ->
    forall line, line ∈ lines ->
                 exists key text, line = (pre ++ "." ++ key ++ "=" ++ text)%string.
Proof.
  induction kvs as [|[key le] kvs IH]; simpl; intros lines Hl line Hin.
  - injection Hl as <-. inversion Hin.
  - destruct (objs h !! le) as [[d|e]|]; try discriminate.
    apply bind_Ok in Hl as (ol & Hbl & Hl). apply bind_Ok in Hl as (rest & Hrest & Hl).
    injection Hl as <-. destruct ol as [l0|]; [|eapply IH; eassumption].
    apply elem_of_cons in Hin as [->|Hin]; [|eapply IH; eassumption].
    exists key. eapply block_line_shape. exact Hbl.
Qed.

Lemma block_lines_elem (pre : string) (kvs : list (string * nat)) (h : heap) :
  forall lines key le e line,
    block_lines str_other pre kvs h = Ok lines ->
    (key, le) ∈ kvs ->
    objs h !! le = Some (OEntry e) ->
    block_line str_other pre key e = Ok (Some line) ->
    line ∈ lines.
Proof.
  induction kvs as [|[key0 le0] kvs IH]; simpl; intros lines key le e line Hl Hin He Hline.
  - inversion Hin.
  - destruct (objs h !! le0) as [[d|e0]|] eqn:E0; try discriminate.
    apply bind_Ok in Hl as (ol & Hbl & Hl). apply bind_Ok in Hl as (rest & Hrest & Hl).
    injection Hl as <-.
    apply elem_of_cons in Hin as [Heq|Hin].
    + injection Heq as <- <-. rewrite He in E0. injection E0 as <-.
      rewrite Hline in Hbl. injection Hbl as <-. left.
    + assert (line ∈ rest) by (eapply IH; eassumption).
      destruct ol; [right|]; assumption.
Qed.

Lemma block_line_written (pre key : string) (v : pyval) (e : list (string * pyval)) :
  block_line str_other pre key (written v e) =
  Ok (Some (pre ++ "." ++ key ++ "=" ++ py_str str_other (convert v))%string).
Proof.
  unfold block_line, getitem.
  rewrite WriterFacts.written_modified. cbn [bind pyval_truthy].
  pose proof (WriterFacts.written_value v e) as Hv. unfold getitem in Hv.
  destruct (dget "value" (written v e)) as [x|]; [|discriminate].
  injection Hv as ->. reflexivity.
Qed.
End Lines.

End WriterTextFacts.

Lemma foreign_line_is_skipped `{Astro} (d : decoder) (index : Z) (key text : string) :
  exists locals,
    decode_line d (("Anabeam" ++ WriterText.counter_of (Some index)) ++ "." ++ key
                   ++ String "=" text)
    = Ok (mk_decoder (dec_parset d) locals).
Proof.
  pose (dicoName := ("Anabeam[" ++ pretty index ++ "]")%string).
  assert (Hname : ("Anabeam" ++ WriterText.counter_of (Some index))%string = dicoName).
  { unfold dicoName, WriterText.counter_of. rewrite !PyStrFacts.app_cons. reflexivity. }
  assert (Hdot : no_char "." dicoName = true).
  { unfold dicoName. rewrite !PyStrFacts.no_char_app.
    rewrite (no_char_pretty_Z "." index eq_refl eq_refl). reflexivity. }
  rewrite Hname. destruct (split1_two "=" key text) as (k & v & Hkv).
  unfold decode_line.
  rewrite (PyStrFacts.split1_first "." EmptyString dicoName _ Hdot), Hkv.
  assert (Hstart : forall rest,
             PyStr.startswith "Observation" (dicoName ++ rest) = false /\
             PyStr.startswith "Output" (dicoName ++ rest) = false /\
             PyStr.startswith "AnaBeam" (dicoName ++ rest) = false /\
             PyStr.startswith "Beam" (dicoName ++ rest) = false /\
             PyStr.startswith "PhaseCenter" (dicoName ++ rest) = false).
  { intros rest. unfold dicoName. rewrite !PyStrFacts.app_cons. repeat split. }
  destruct (Hstart ("." ++ key ++ String "=" text)%string) as (-> & -> & -> & -> & ->).
  eexists. destruct d; reflexivity.
Qed.

(** X23.  In every hierarchy a user can build, the analog beam found at
    position [i] carries the index [i] (a negative [i] counts from the
    end, as Python indexing does), and its block has the field name
    [Anabeam]. *)
Theorem analog_beams_are_numbered `{Astro}
        (PARSET_OPTIONS : list (string * nat)) (h0 h : Writer.heap)
        (pu : Writer.ParsetUser) (i : Z) (k : nat) (ab : Writer.AnalogBeam) :
  Writer.reachable PARSET_OPTIONS h0 pu h ->
  Writer.py_index i (Writer.analog_beams pu) = Ok (k, ab) ->
  Writer.analog_beams pu !! k = Some ab /\
  Writer.ab_index ab = Z.of_nat k /\
  Writer.field (Writer.ab_block ab) = "Anabeam" /\
  (0 <= i -> Writer.ab_index ab = i) /\
  (i < 0 -> Writer.ab_index ab = Z.of_nat (length (Writer.analog_beams pu)) + i).
Proof.
  intros Hreach Hidx.
  pose proof (WriterTextFacts.reachable_labelled PARSET_OPTIONS h0 h pu Hreach) as Hl.
  unfold Writer.py_index, Writer.norm_index in Hidx.
  destruct (Z.leb_spec 0 i) as [Hpos|Hneg];
    [destruct (Z.ltb_spec i (Z.of_nat (length (Writer.analog_beams pu))))|];
    cbn [andb] in Hidx.
  - destruct (Writer.analog_beams pu !! Z.to_nat i) as [a|] eqn:Hk; [|discriminate].
    injection Hidx as <- <-. destruct (Hl _ _ Hk) as [Hi Hf].
    repeat split; try assumption; lia.
  - destruct (Z.leb (- Z.of_nat (length (Writer.analog_beams pu))) i && Z.ltb i 0);
      [|discriminate].
    destruct (Writer.analog_beams pu !! _) as [a|] eqn:Hk; [|discriminate].
    injection Hidx as <- <-. destruct (Hl _ _ Hk) as [Hi Hf].
    apply lookup_lt_Some in Hk. repeat split; try assumption; lia.
  - destruct (Z.leb_spec (- Z.of_nat (length (Writer.analog_beams pu))) i);
      [|discriminate].
    destruct (Z.ltb_spec i 0); [|lia]. cbn [andb] in Hidx.
    destruct (Writer.analog_beams pu !! _) as [a|] eqn:Hk; [|discriminate].
    injection Hidx as <- <-. destruct (Hl _ _ Hk) as [Hi Hf].
    repeat split; try assumption; lia.
Qed.

Lemma analog_beams_are_numbered_witness :
  let pu := fst WriterDemo.demo_state in
  let ab := Writer.mk_anabeam (Writer.mk_block "Anabeam" 30) 1
              [Writer.mk_numbeam (Writer.mk_block "Beam" 33) 3] in
  Writer.analog_beams pu !! 1%nat = Some ab /\
  Writer.ab_index ab = Z.of_nat 1 /\
  Writer.field (Writer.ab_block ab) = "Anabeam" /\
  (0 <= -1 -> Writer.ab_index ab = -1) /\
  (-1 < 0 -> Writer.ab_index ab = Z.of_nat (length (Writer.analog_beams pu)) + -1).
Proof.
  intros pu ab.
  apply (analog_beams_are_numbered (H := toy_astro) WriterDemo.toy_options
           WriterDemo.toy_registry (snd WriterDemo.demo_state) pu (-1) 1%nat ab).
  - exact WriterDemoFacts.demo_state_reachable.
  - vm_compute. reflexivity.
Defined.

(** X24.  What the writer writes for an analog beam, the reader does not
    read: in every hierarchy a user can build, each line of the text of
    an analog beam starts with [Anabeam], and the line decoder, whose
    branch for analog beams wants [AnaBeam], goes through such a line
    (with whatever follows it, the newline say) without an error and
    leaves the parset as it was. *)
Theorem written_analog_beams_are_not_read `{Astro}
        (str_other : Writer.pyval -> string)
        (PARSET_OPTIONS : list (string * nat)) (h0 h : Writer.heap)
        (pu : Writer.ParsetUser) (ab : Writer.AnalogBeam)
        (lines : list string) (line rest : string) (d : decoder) :
  Writer.reachable PARSET_OPTIONS h0 pu h ->
  ab ∈ Writer.analog_beams pu ->
  WriterText.written_lines str_other (Writer.ab_block ab) (Some (Writer.ab_index ab)) h
    = Ok lines ->
  line ∈ lines ->
  PyStr.startswith "Anabeam[" line = true /\
  exists locals, decode_line d (line ++ rest) = Ok (mk_decoder (dec_parset d) locals).
Proof.
  intros Hreach Hab Hlines Hline.
  pose proof (WriterTextFacts.reachable_labelled PARSET_OPTIONS h0 h pu Hreach) as Hl.
  apply list_elem_of_lookup in Hab as [i Hi]. destruct (Hl i ab Hi) as [_ Hfield].
  unfold WriterText.written_lines in Hlines. rewrite Hfield in Hlines.
  destruct (Writer.objs h !! Writer.configuration (Writer.ab_block ab)) as [[kvs|e]|];
    try discriminate.
  destruct (WriterTextFacts.block_lines_shape str_other _ kvs h lines Hlines line Hline)
    as (key & text & ->).
  split.
  - unfold WriterText.counter_of. rewrite !PyStrFacts.app_assoc, !PyStrFacts.app_cons.
    reflexivity.
  - rewrite !PyStrFacts.app_assoc.
    apply (foreign_line_is_skipped d (Writer.ab_index ab) key (text ++ rest)).
Qed.

Lemma written_analog_beams_are_not_read_witness :
  let d := mk_decoder (empty_parset "a.parset") None in
  PyStr.startswith "Anabeam[" "Anabeam[1].duration=600s" = true /\
  exists locals,
    decode_line (H := toy_astro) d ("Anabeam[1].duration=600s" ++ String newline EmptyString)
    = Ok (mk_decoder (dec_parset d) locals).
Proof.
  intros d.
  apply (written_analog_beams_are_not_read (H := toy_astro) (fun _ => EmptyString)
           WriterDemo.toy_options WriterDemo.toy_registry (snd WriterDemo.demo_state)
           (fst WriterDemo.demo_state)
           (Writer.mk_anabeam (Writer.mk_block "Anabeam" 30) 1
              [Writer.mk_numbeam (Writer.mk_block "Beam" 33) 3])
           ["Anabeam[1].target="; "Anabeam[1].duration=600s"]).
  - exact WriterDemoFacts.demo_state_reachable.
  - vm_compute. right. left.
  - vm_compute. reflexivity.
  - right. left.
Defined.

(** X25.  Removing a numerical beam at a position that does not exist
    (negative, or not below the number of numerical beams) raises
    nothing and leaves the hierarchy exactly as it was, whereas removing
    an analog beam at a position that does not exist raises
    [IndexError]. *)
Theorem removal_out_of_range `{Astro}
        (PARSET_OPTIONS : list (string * nat)) (h0 h : Writer.heap)
        (pu : Writer.ParsetUser) (k : Z) :
  Writer.registry_ok PARSET_OPTIONS h0 ->
  Writer.reachable PARSET_OPTIONS h0 pu h ->
  k < 0 \/ Z.of_nat (length (Writer.all_numbeams (Writer.analog_beams pu))) <= k ->
  Writer.remove_numerical_beam k pu = pu /\
  forall i,
    i < - Z.of_nat (length (Writer.analog_beams pu)) \/
    Z.of_nat (length (Writer.analog_beams pu)) <= i ->
    Writer.remove_analog_beam i pu h = Raise IndexError.
Proof.
  intros Hreg Hreach Hk.
  pose proof (WriterFacts.reachable_wf PARSET_OPTIONS h0 pu h Hreg Hreach)
    as (_ & _ & _ & Hidx & _).
  split.
  - unfold Writer.remove_numerical_beam, Writer._updates_numbeams_indices.
    cbn [Writer.analog_beams Writer.pu_observation Writer.pu_output].
    rewrite WriterTextFacts.remove_in_beams_outside by lia.
    rewrite WriterTextFacts.renumber_beams_fixed by exact Hidx.
    destruct pu; reflexivity.
  - intros i Hi. unfold Writer.remove_analog_beam, Writer.py_del.
    rewrite WriterTextFacts.norm_index_outside by exact Hi. reflexivity.
Qed.

Lemma removal_out_of_range_witness :
  let pu := fst WriterDemo.demo_state in
  let h := snd WriterDemo.demo_state in
  Writer.remove_numerical_beam (-1) pu = pu /\
  forall i,
    i < - Z.of_nat (length (Writer.analog_beams pu)) \/
    Z.of_nat (length (Writer.analog_beams pu)) <= i ->
    Writer.remove_analog_beam (H := toy_astro) i pu h = Raise IndexError.
Proof.
  intros pu h.
  apply (removal_out_of_range (H := toy_astro) WriterDemo.toy_options
           WriterDemo.toy_registry h pu (-1)).
  - exact WriterDemoFacts.toy_registry_ok.
  - exact WriterDemoFacts.demo_state_reachable.
  - left. lia.
Defined.

Section WrittenFields.
Context `{Astro}.
Variable PARSET_OPTIONS : list (string * nat).
Variable h0 : Writer.heap.

(** A block of the hierarchy reads back what was assigned to one of the
    keys of its schema. *)
Lemma block_setitem_getitem (b : Writer.block) (key : string) (v : Writer.pyval)
      (h : Writer.heap) (e : list (string * Writer.pyval)) :
  Writer.block_ok h0 h b ->
  Writer.block_entry b key h = Ok e ->
  exists h',
    Writer.block_setitem b key v h = Ok h' /\
    Writer.block_ok h0 h' b /\
    Writer.block_entry b key h' = Ok (Writer.written v e) /\
    Writer.block_getitem b key h' = Ok (Writer.convert v) /\
    (forall key', key' <> key ->
                  Writer.block_entry b key' h' = Writer.block_entry b key' h).
Proof.
  intros Hok He.
  destruct (WriterFacts.block_setitem_spec h0 b key v h Hok)
    as (h' & Hset & Hc & Hsame & Hother).
  exists h'. split; [exact Hset|].
  split; [eapply WriterFacts.block_ok_entries_changed; eassumption|].
  split; [apply Hsame; exact He|]. split; [|exact Hother].
  unfold Writer.block_getitem. rewrite (Hsame e He). cbn [bind].
  apply WriterFacts.written_value.
Qed.

Lemma reachable_block_ok (pu : Writer.ParsetUser) (h : Writer.heap) (b : Writer.block) :
  Writer.registry_ok PARSET_OPTIONS h0 ->
  Writer.reachable PARSET_OPTIONS h0 pu h ->
  b ∈ Writer.blocks_of pu ->
  Writer.block_ok h0 h b.
Proof.
  intros Hreg Hreach Hb.
  pose proof (WriterFacts.reachable_wf PARSET_OPTIONS h0 pu h Hreg Hreach)
    as (_ & (_ & Hok & _) & _).
  apply Hok. exact Hb.
Qed.

Lemma block_entry_lookup (b : Writer.block) (key : string) (h : Writer.heap)
      (e : list (string * Writer.pyval)) :
  Writer.block_entry b key h = Ok e ->
  exists kvs le,
    Writer.objs h !! Writer.configuration b = Some (Writer.ODict kvs) /\
    (key, le) ∈ kvs /\
    Writer.objs h !! le = Some (Writer.OEntry e).
Proof.
  unfold Writer.block_entry, getitem. intros He.
  destruct (Writer.objs h !! Writer.configuration b) as [[kvs|e0]|]; try discriminate.
  destruct (dget key kvs) as [le|] eqn:Ekey; [|discriminate]. cbn [bind] in He.
  destruct (Writer.objs h !! le) as [[d|e1]|] eqn:Ele; try discriminate.
  injection He as <-. exists kvs, le.
  split; [reflexivity|]. split; [|exact Ele].
  eapply WriterFacts.dget_elem_of. exact Ekey.
Qed.
End WrittenFields.

(** X26.  In every hierarchy a user can build, refreshing the beam
    counts succeeds; afterwards the observation block reads, for each of
    the keys [nrAnabeams] and [nrBeams] that its schema has, the number
    of analog beams and the number of numerical beams of the whole
    hierarchy, written in decimal, and every other key of the block is
    as it was. *)
Theorem beam_numbers_are_refreshed `{Astro}
        (PARSET_OPTIONS : list (string * nat)) (h0 h : Writer.heap)
        (pu : Writer.ParsetUser) :
  Writer.registry_ok PARSET_OPTIONS h0 ->
  Writer.reachable PARSET_OPTIONS h0 pu h ->
  exists h',
    Writer._update_beam_numbers pu h = Ok h' /\
    (is_ok (Writer.block_entry (Writer.pu_observation pu) "nrAnabeams" h) = true ->
     Writer.block_getitem (Writer.pu_observation pu) "nrAnabeams" h' =
       Ok (Writer.PStr (pretty (length (Writer.analog_beams pu))))) /\
    (is_ok (Writer.block_entry (Writer.pu_observation pu) "nrBeams" h) = true ->
     Writer.block_getitem (Writer.pu_observation pu) "nrBeams" h' =
       Ok (Writer.PStr (pretty (length (Writer.all_numbeams (Writer.analog_beams pu)))))) /\
    (forall key, key <> "nrAnabeams" -> key <> "nrBeams" ->
                 Writer.block_entry (Writer.pu_observation pu) key h' =
                 Writer.block_entry (Writer.pu_observation pu) key h).
Proof.
  intros Hreg Hreach.
  assert (Hok : Writer.block_ok h0 h (Writer.pu_observation pu)).
  { eapply reachable_block_ok; [exact Hreg | exact Hreach | left]. }
  unfold Writer._update_beam_numbers.
  destruct (WriterFacts.block_setitem_spec h0 (Writer.pu_observation pu) "nrAnabeams"
              (Writer.PStr (pretty (length (Writer.analog_beams pu)))) h Hok)
    as (h1 & Hset1 & Hc1 & Hsame1 & Hother1).
  pose proof (WriterFacts.block_ok_entries_changed h0 _ _ _ _ Hok Hc1) as Hok1.
  destruct (WriterFacts.block_setitem_spec h0 (Writer.pu_observation pu) "nrBeams"
              (Writer.PStr (pretty (length (Writer.all_numbeams (Writer.analog_beams pu)))))
              h1 Hok1)
    as (h2 & Hset2 & Hc2 & Hsame2 & Hother2).
  exists h2. rewrite Hset1. cbn [bind]. split; [exact Hset2|]. split; [|split].
  - intros Hhas.
    destruct (Writer.block_entry (Writer.pu_observation pu) "nrAnabeams" h) as [e|x] eqn:He;
      [|discriminate].
    unfold Writer.block_getitem.
    rewrite (Hother2 "nrAnabeams") by discriminate. rewrite (Hsame1 e eq_refl).
    cbn [bind]. apply WriterFacts.written_value.
  - intros Hhas.
    destruct (Writer.block_entry (Writer.pu_observation pu) "nrBeams" h) as [e|x] eqn:He;
      [|discriminate].
    unfold Writer.block_getitem.
    rewrite (Hsame2 e) by (rewrite (Hother1 "nrBeams") by discriminate; exact He).
    cbn [bind]. apply WriterFacts.written_value.
  - intros key Hk1 Hk2. rewrite (Hother2 key Hk2). apply Hother1. exact Hk1.
Qed.

Lemma beam_numbers_are_refreshed_witness :
  let pu := fst WriterDemo.demo_state in
  let h := snd WriterDemo.demo_state in
  exists h',
    Writer._update_beam_numbers (H := toy_astro) pu h = Ok h' /\
    (is_ok (Writer.block_entry (Writer.pu_observation pu) "nrAnabeams" h) = true ->
     Writer.block_getitem (Writer.pu_observation pu) "nrAnabeams" h' =
       Ok (Writer.PStr (pretty (length (Writer.analog_beams pu))))) /\
    (is_ok (Writer.block_entry (Writer.pu_observation pu) "nrBeams" h) = true ->
     Writer.block_getitem (Writer.pu_observation pu) "nrBeams" h' =
       Ok (Writer.PStr (pretty (length (Writer.all_numbeams (Writer.analog_beams pu)))))) /\
    (forall key, key <> "nrAnabeams" -> key <> "nrBeams" ->
                 Writer.block_entry (Writer.pu_observation pu) key h' =
                 Writer.block_entry (Writer.pu_observation pu) key h).
Proof.
  intros pu h.
  apply (beam_numbers_are_refreshed (H := toy_astro) WriterDemo.toy_options
           WriterDemo.toy_registry h pu).
  - exact WriterDemoFacts.toy_registry_ok.
  - exact WriterDemoFacts.demo_state_reachable.
Defined.

(** X27.  In every hierarchy a user can build, assigning a key that the
    schema of a block has succeeds, and whenever the text of the block
    can then be written, it holds the line [field[index].key=value] with
    the converted value as [str] shows it, whether the key is required
    or not. *)
Theorem assigned_field_is_written `{Astro}
        (str_other : Writer.pyval -> string)
        (PARSET_OPTIONS : list (string * nat)) (h0 h : Writer.heap)
        (pu : Writer.ParsetUser) (b : Writer.block) (index : option Z)
        (key : string) (v : Writer.pyval) :
  Writer.registry_ok PARSET_OPTIONS h0 ->
  Writer.reachable PARSET_OPTIONS h0 pu h ->
  b ∈ Writer.blocks_of pu ->
  is_ok (Writer.block_entry b key h) = true ->
  exists h',
    Writer.block_setitem b key v h = Ok h' /\
    forall lines,
      WriterText.written_lines str_other b index h' = Ok lines ->
      ((Writer.field b ++ WriterText.counter_of index) ++ "." ++ key ++ "="
         ++ WriterText.py_str str_other (Writer.convert v))%string ∈ lines.
Proof.
  intros Hreg Hreach Hb Hhas.
  destruct (Writer.block_entry b key h) as [e|x] eqn:He; [|discriminate].
  pose proof (reachable_block_ok PARSET_OPTIONS h0 pu h b Hreg Hreach Hb) as Hok.
  destruct (block_setitem_getitem h0 b key v h e Hok He)
    as (h' & Hset & _ & Hentry & _).
  exists h'. split; [exact Hset|]. intros lines Hlines.
  destruct (block_entry_lookup b key h' _ Hentry) as (kvs & le & Hcfg & Hin & Hle).
  unfold WriterText.written_lines in Hlines. rewrite Hcfg in Hlines.
  eapply WriterTextFacts.block_lines_elem; [exact Hlines | exact Hin | exact Hle |].
  apply WriterTextFacts.block_line_written.
Qed.

Lemma assigned_field_is_written_witness :
  let pu := fst WriterDemo.demo_state in
  let h := snd WriterDemo.demo_state in
  let b := Writer.mk_block "Beam" 33 in
  exists h',
    Writer.block_setitem (H := toy_astro) b "toDo" (Writer.PBool true) h = Ok h' /\
    forall lines,
      WriterText.written_lines (fun _ => EmptyString) b (Some 3) h' = Ok lines ->
      ((Writer.field b ++ WriterText.counter_of (Some 3)) ++ "." ++ "toDo" ++ "="
         ++ WriterText.py_str (fun _ => EmptyString)
              (Writer.convert (H := toy_astro) (Writer.PBool true)))%string ∈ lines.
Proof.
  intros pu h b.
  apply (assigned_field_is_written (H := toy_astro) (fun _ => EmptyString)
           WriterDemo.toy_options WriterDemo.toy_registry h pu b (Some 3) "toDo").
  - exact WriterDemoFacts.toy_registry_ok.
  - exact WriterDemoFacts.demo_state_reachable.
  - vm_compute. do 7 right. left.
  - reflexivity.
Defined.

Example assigned_field_text :
  (let* h' := Writer.block_setitem (H := toy_astro) (Writer.mk_block "Beam" 33) "toDo"
                (Writer.PBool true) (snd WriterDemo.demo_state) in
   WriterText.written_lines (fun _ => EmptyString) (Writer.mk_block "Beam" 33) (Some 3) h')
  = Ok ["Beam[3].target="; "Beam[3].noBeam=1"; "Beam[3].toDo=true"].
Proof. vm_compute. reflexivity. Qed.

(** X28.  A duration assigned as a [TimeDelta] is read back by
    [_get_duration] as the number of seconds rounded to the nearest
    integer (ties to even) when that number is not negative; when it is
    negative the stored text starts with a sign, the pattern does not
    match and [_get_duration] raises [AttributeError]. *)
Theorem duration_round_trip `{Astro}
        (PARSET_OPTIONS : list (string * nat)) (h0 h : Writer.heap)
        (pu : Writer.ParsetUser) (b : Writer.block) (sec : Q) :
  Writer.registry_ok PARSET_OPTIONS h0 ->
  Writer.reachable PARSET_OPTIONS h0 pu h ->
  b ∈ concat (map Writer.beam_blocks (Writer.analog_beams pu)) ->
  is_ok (Writer.block_entry b "duration" h) = true ->
  exists h',
    Writer.block_setitem b "duration" (Writer.PTimeDelta sec) h = Ok h' /\
    (0 <= round_half_even sec ->
     exists seconds, WriterText._get_duration b h' = Ok seconds /\
                     (seconds == inject_Z (round_half_even sec))%Q) /\
    (round_half_even sec < 0 ->
     WriterText._get_duration b h' = Raise AttributeError).
Proof.
  intros Hreg Hreach Hb Hhas.
  destruct (Writer.block_entry b "duration" h) as [e|x] eqn:He; [|discriminate].
  assert (Hin : b ∈ Writer.blocks_of pu) by (right; right; exact Hb).
  pose proof (reachable_block_ok PARSET_OPTIONS h0 pu h b Hreg Hreach Hin) as Hok.
  destruct (block_setitem_getitem h0 b "duration" (Writer.PTimeDelta sec) h e Hok He)
    as (h' & Hset & _ & _ & Hget & _).
  exists h'. split; [exact Hset|].
  unfold WriterText._get_duration. rewrite Hget. cbn [bind Writer.convert].
  split.
  - intros Hpos.
    pose proof (PyStrFacts.pretty_Z_isdigit _ Hpos) as Hd.
    rewrite PyStrFacts.take_digits_app
      by (try apply PyStrFacts.isdigit_all_digits; (exact Hd || reflexivity)).
    pose proof (PyStrFacts.pretty_Z_value _ Hpos) as Hval.
    destruct (pretty (round_half_even sec)) as [|c ds]; [discriminate|].
    cbn [WriterText.to_seconds]. change (Ascii.eqb "s" "s") with true. cbv iota.
    eexists. split; [reflexivity|]. rewrite Hval. apply Qmult_1_r.
  - intros Hneg. destruct (round_half_even sec) as [|p|p]; try lia.
    change (pretty (Z.neg p)) with (String "-" (pretty (Npos p))).
    rewrite PyStrFacts.app_cons. reflexivity.
Qed.

Lemma duration_round_trip_witness :
  let pu := fst WriterDemo.demo_state in
  let h := snd WriterDemo.demo_state in
  let b := Writer.mk_block "Anabeam" 19 in
  exists h',
    Writer.block_setitem (H := toy_astro) b "duration" (Writer.PTimeDelta (5 # 2)) h
      = Ok h' /\
    (0 <= round_half_even (5 # 2) ->
     exists seconds, WriterText._get_duration b h' = Ok seconds /\
                     (seconds == inject_Z (round_half_even (5 # 2)))%Q) /\
    (round_half_even (5 # 2) < 0 ->
     WriterText._get_duration b h' = Raise AttributeError).
Proof.
  intros pu h b.
  apply (duration_round_trip (H := toy_astro) WriterDemo.toy_options
           WriterDemo.toy_registry h pu b (5 # 2)).
  - exact WriterDemoFacts.toy_registry_ok.
  - exact WriterDemoFacts.demo_state_reachable.
  - vm_compute. left.
  - reflexivity.
Defined.

Example duration_ties_to_even :
  (let* h' := Writer.block_setitem (H := toy_astro) (Writer.mk_block "Anabeam" 19)
                "duration" (Writer.PTimeDelta (5 # 2)) (snd WriterDemo.demo_state) in
   Writer.block_getitem (Writer.mk_block "Anabeam" 19) "duration" h')
  = Ok (Writer.PStr "2s").
Proof. vm_compute. reflexivity. Qed.

Lemma search_index_none (s : string) :
  no_char "[" s = true -> PyStr.search_index s = None.
Proof.
  induction s as [|c s IH]; [reflexivity|]. cbn [no_char PyStr.search_index].
  intros Hno. apply andb_prop in Hno as [Hc Hs].
  destruct (Ascii.eqb c "["); [discriminate | exact (IH Hs)].
Qed.

Lemma indexed_line_branch `{Astro} (d : decoder) (kind header key value : string) :
  In kind ["AnaBeam"; "Beam"; "PhaseCenter"] ->
  no_char "." header = true ->
  no_char "=" key = true ->
  is_ok (decode_indexed
           (if String.eqb kind "AnaBeam" then "anaIdx"
            else if String.eqb kind "Beam" then "digiIdx" else "pcIdx")
           (if String.eqb kind "AnaBeam" then anabeams (dec_parset d)
            else if String.eqb kind "Beam" then digibeams (dec_parset d)
            else phase_centers (dec_parset d))
           (kind ++ header) key value) = false ->
  decode_line d ((kind ++ header) ++ "." ++ key ++ "=" ++ value) =
  match decode_indexed
          (if String.eqb kind "AnaBeam" then "anaIdx"
           else if String.eqb kind "Beam" then "digiIdx" else "pcIdx")
          (if String.eqb kind "AnaBeam" then anabeams (dec_parset d)
           else if String.eqb kind "Beam" then digibeams (dec_parset d)
           else phase_centers (dec_parset d))
          (kind ++ header) key value with
  | Raise x => Raise x
  | Ok _ => Raise ValueError
  end.
Proof.
  intros Hkind Hdot Hkey Hfail. unfold decode_line.
  assert (Hname : no_char "." (kind ++ header) = true).
  { rewrite PyStrFacts.no_char_app, Hdot.
    destruct Hkind as [<-|[<-|[<-|[]]]]; reflexivity. }
  rewrite (PyStrFacts.split1_first "." EmptyString _ _ Hname).
  rewrite (PyStrFacts.split1_first "=" EmptyString key value Hkey).
  destruct Hkind as [<-|[<-|[<-|[]]]]; cbn [String.eqb Ascii.eqb Bool.eqb] in *;
    rewrite !PyStrFacts.app_assoc, !PyStrFacts.app_cons; cbn [PyStr.startswith];
    cbn [Ascii.eqb Bool.eqb]; cbv iota;
    rewrite <- ?PyStrFacts.app_cons;
    match goal with
    | Hf : is_ok ?x = false |- context [bind ?y _] =>
        change y with x; destruct x; [discriminate | reflexivity]
    end.
Qed.

(** X29.  A line of an indexed section ([AnaBeam], [Beam] or
    [PhaseCenter]) whose header has no opening bracket stops the reading
    with [AttributeError], and one whose brackets are empty stops it with
    [ValueError]: the index is searched for and converted before
    anything is stored. *)
Theorem indexed_line_without_index `{Astro} (d : decoder)
        (kind header key value : string) :
  In kind ["AnaBeam"; "Beam"; "PhaseCenter"] ->
  no_char "=" key = true ->
  (no_char "[" header = true -> no_char "." header = true ->
   decode_line d ((kind ++ header) ++ "." ++ key ++ "=" ++ value) = Raise AttributeError) /\
  decode_line d ((kind ++ "[]") ++ "." ++ key ++ "=" ++ value) = Raise ValueError.
Proof.
  intros Hkind Hkey. split.
  - intros Hbracket Hdot.
    assert (Hsearch : PyStr.search_index (kind ++ header) = None).
    { apply search_index_none. rewrite PyStrFacts.no_char_app, Hbracket.
      destruct Hkind as [<-|[<-|[<-|[]]]]; reflexivity. }
    rewrite (indexed_line_branch d kind header key value Hkind Hdot Hkey);
      unfold decode_indexed; rewrite Hsearch; reflexivity.
  - assert (Hsearch : PyStr.search_index (kind ++ "[]") = Some EmptyString)
      by (destruct Hkind as [<-|[<-|[<-|[]]]]; reflexivity).
    rewrite (indexed_line_branch d kind "[]" key value Hkind eq_refl Hkey);
      unfold decode_indexed; rewrite Hsearch; reflexivity.
Qed.

Lemma indexed_line_without_index_witness :
  let d := mk_decoder (empty_parset "a.parset") None in
  (no_char "[" "0" = true -> no_char "." "0" = true ->
   decode_line (H := toy_astro) d (("Beam" ++ "0") ++ "." ++ "toDo" ++ "=" ++ "none")
   = Raise AttributeError) /\
  decode_line (H := toy_astro) d (("Beam" ++ "[]") ++ "." ++ "toDo" ++ "=" ++ "none")
  = Raise ValueError.
Proof.
  intros d.
  apply (indexed_line_without_index (H := toy_astro) d "Beam" "0" "toDo" "none");
    [right; left; reflexivity | reflexivity].
Defined.
